(** * typix: provider adapters (Doubao, Qwen) and the password update flow

    A shallow embedding of
      - [src/server/ai/provider/doubao.ts] (the Doubao adapter and, in the
        same file, the Qwen adapter),
      - [src/server/service/auth/index.ts] ([updatePassword]),
      - [src/server/api/routes/settings.ts] (the [/updatePassword] route).

    JavaScript values coming from the network are modelled by a JSON tree
    with [undefined] on top; [async] code is modelled by a small monad that
    records the calls made to the outside world and carries the thrown
    error, if any. *)

From Stdlib Require Import ZArith List String Ascii Bool Lia DecimalString.
Import ListNotations.
Set Warnings "-register-all".
Local Open Scope string_scope.
Local Open Scope Z_scope.

(* ===================================================================== *)
(** ** JavaScript values *)
(* ===================================================================== *)

Module Js.

(** A parsed JSON document. Numbers are kept as integers: the adapters only
    test numbers for truthiness and print them. An object is the list of
    its own properties, looked up by the first matching key. *)
Inductive json : Type :=
| JNull
| JBool (b : bool)
| JNum (n : Z)
| JStr (s : string)
| JArr (items : list json)
| JObj (fields : list (string * json)).

(** A JavaScript value as the adapters see it: [None] is [undefined]. *)
Definition value : Type := option json.

Definition undefined : value := None.

(** [Boolean(v)] *)
Definition truthy (v : value) : bool :=
  match v with
  | None => false
  | Some JNull => false
  | Some (JBool b) => b
  | Some (JNum n) => negb (n =? 0)
  | Some (JStr s) => negb (s =? "")%string
  | Some (JArr _) => true
  | Some (JObj _) => true
  end.

(** [Array.isArray(v)] *)
Definition isArray (v : value) : bool :=
  match v with
  | Some (JArr _) => true
  | _ => false
  end.

Fixpoint lookup (key : string) (fields : list (string * json)) : value :=
  match fields with
  | [] => None
  | (k, v) :: rest => if (k =? key)%string then Some v else lookup key rest
  end.

(** The classes of error objects that the modelled code creates or tests
    for. [GenError] is the class of [@/server/lib/types]; an instance
    carries its [reason]. *)
Inductive ErrorReason : Type :=
| CONFIG_ERROR
| TOO_MANY_REQUESTS
| PROMPT_FLAGGED.

Inductive ErrorClass : Type :=
| ErrorC
| TypeErrorC
| SyntaxErrorC
| NotFoundErrorC
| UnsupportedAbilityErrorC
| GenErrorC (reason : ErrorReason).

(** A thrown object: its class, its [message] and its [status] property
    ([undefined] on the errors the adapters create themselves). *)
Record JsError : Type := mkError {
  err_class : ErrorClass;
  err_message : string;
  err_status : value
}.

Definition Error (msg : string) : JsError := mkError ErrorC msg undefined.
Definition TypeError (msg : string) : JsError := mkError TypeErrorC msg undefined.
Definition SyntaxError (msg : string) : JsError := mkError SyntaxErrorC msg undefined.
(** [new GenError(reason)] *)
Definition GenError (reason : ErrorReason) : JsError :=
  mkError (GenErrorC reason) "" undefined.

(** [e instanceof GenError], returning the [reason] of the instance. *)
Definition instanceofGenError (e : JsError) : option ErrorReason :=
  match err_class e with
  | GenErrorC r => Some r
  | _ => None
  end.

(** [v === n] for a number literal [n]. *)
Definition strictEqNum (v : value) (n : Z) : bool :=
  match v with
  | Some (JNum m) => m =? n
  | _ => false
  end.

(** [v === s] for a string literal [s]. *)
Definition strictEqStr (v : value) (s : string) : bool :=
  match v with
  | Some (JStr t) => (t =? s)%string
  | _ => false
  end.

(** [v.key]: reading a property of [undefined] or [null] throws; the
    property names the adapters read ([data], [url], [message], ...) exist
    on no primitive, string or array, so they are [undefined] there. *)
Definition get (v : value) (key : string) : JsError + value :=
  match v with
  | None => inl (TypeError ("Cannot read properties of undefined (reading '" ++ key ++ "')"))
  | Some JNull => inl (TypeError ("Cannot read properties of null (reading '" ++ key ++ "')"))
  | Some (JObj fields) => inr (lookup key fields)
  | Some _ => inr undefined
  end.

(** [v?.key] *)
Definition getOpt (v : value) (key : string) : value :=
  match v with
  | Some (JObj fields) => lookup key fields
  | _ => undefined
  end.

(** [v.startsWith(p)]: only a string has the method. *)
Definition startsWith (v : value) (p : string) : JsError + bool :=
  match v with
  | Some (JStr s) => inr (String.prefix p s)
  | None => inl (TypeError "Cannot read properties of undefined (reading 'startsWith')")
  | Some JNull => inl (TypeError "Cannot read properties of null (reading 'startsWith')")
  | Some _ => inl (TypeError "startsWith is not a function")
  end.

(** The values a [for (const item of v)] loop visits: the items of an
    array, the characters of a string; anything else is not iterable. *)
Definition iterate (v : value) : JsError + list json :=
  match v with
  | Some (JArr items) => inr items
  | Some (JStr s) => inr (map (fun c => JStr (String c EmptyString)) (list_ascii_of_string s))
  | _ => inl (TypeError "value is not iterable")
  end.

(** [String(n)] for an integer. *)
Definition numToString (n : Z) : string := NilZero.string_of_int (Z.to_int n).

(** [String(v)], as a template literal applies it. *)
Fixpoint toString (j : json) : string :=
  match j with
  | JNull => "null"
  | JBool true => "true"
  | JBool false => "false"
  | JNum n => numToString n
  | JStr s => s
  | JArr items =>
      let item_string (x : json) : string :=
        match x with
        | JNull => ""
        | _ => toString x
        end in
      String.concat "," (map item_string items)
  | JObj _ => "[object Object]"
  end.

End Js.
Export Js.

(* ===================================================================== *)
(** ** Effects: the calls an adapter makes, and thrown errors *)
(* ===================================================================== *)

(** The [init] argument of [fetch]. [body] is the object handed to
    [JSON.stringify]: a property that is [undefined] is not listed. *)
Record RequestInit : Type := mkInit {
  method : string;
  headers : list (string * string);
  body : json
}.

(** What a run leaves behind, in program order. *)
Inductive event : Type :=
| HttpPost (url : string) (init : RequestInit)   (* fetch(url, init) *)
| Base64Decode (payload : value)                 (* base64ToDataURI(payload) *)
| UrlFetch (src : value)                         (* fetchUrlToDataURI(src) *)
| ConsoleError (label : string) (e : JsError).   (* console.error(label, e) *)

(** A computation: the events it caused, and a thrown error or a value. *)
Definition M (A : Type) : Type := (list event * (JsError + A))%type.

Definition ret {A} (a : A) : M A := ([], inr a).
Definition throw {A} (e : JsError) : M A := ([], inl e).
Definition lift {A} (r : JsError + A) : M A := ([], r).
Definition tell (ev : event) : M unit := ([ev], inr tt).

Definition bind {A B} (m : M A) (k : A -> M B) : M B :=
  match m with
  | (t, inl e) => (t, inl e)
  | (t, inr a) => let (t', r) := k a in ((t ++ t')%list, r)
  end.

(** [try { m } catch (e) { handler(e) }] *)
Definition try_catch {A} (m : M A) (handler : JsError -> M A) : M A :=
  match m with
  | (t, inl e) => let (t', r) := handler e in ((t ++ t')%list, r)
  | (t, inr a) => (t, inr a)
  end.

Declare Scope js_scope.
Delimit Scope js_scope with js.
Notation "x <- m ;; k" := (bind m (fun x => k))
  (at level 100, m at next level, right associativity) : js_scope.
Notation "m ;;; k" := (bind m (fun _ => k))
  (at level 100, right associativity) : js_scope.
Local Open Scope js_scope.

(** [await Promise.all(ps)]: every promise was started by the [map] that
    built the list, so all their events happen; the result rejects with
    the first rejection in order, else it is the list of values. *)
Fixpoint promise_all {A} (ps : list (M A)) : M (list A) :=
  match ps with
  | [] => ret []
  | (t, r) :: rest =>
      let (t', rs) := promise_all rest in
      ((t ++ t')%list,
       match r, rs with
       | inl e, _ => inl e
       | inr _, inl e => inl e
       | inr a, inr l => inr (a :: l)
       end)
  end.

Definition trace {A} (m : M A) : list event := fst m.
Definition outcome {A} (m : M A) : JsError + A := snd m.

(* ===================================================================== *)
(** ** Provider types ([../types/provider]) and the outside world *)
(* ===================================================================== *)

Inductive Ability : Type := t2i | i2i.

Record ApiProviderSettingsItem : Type := mkItem {
  key : string;
  type : string;
  required : bool;
  defaultValue : option string
}.

(** The persisted settings of a provider: key and value. *)
Definition ApiProviderSettings : Type := list (string * string).

(** What [parseSettings] returns for both adapters' schemas. *)
Record ParsedSettings : Type := mkSettings {
  baseURL : string;
  apiKey : string
}.

Record AiModel : Type := mkModel {
  model_id : string;
  model_name : string;
  ability : Ability;
  maxInputImages : Z;
  model_enabledByDefault : bool;
  supportedAspectRatios : list string
}.

(** The static part of an [AiProvider]; [generate] is defined on its own
    below (it refers back to the provider it belongs to). *)
Record AiProvider : Type := mkProvider {
  id : string;
  name : string;
  supportCors : bool;
  enabledByDefault : bool;
  settings : list ApiProviderSettingsItem;
  models : list AiModel
}.

Record GenerateRequest : Type := mkRequest {
  req_modelId : string;
  req_prompt : string;
  req_aspectRatio : option string;
  req_images : option (list string);
  req_n : option Z
}.

Record GenerateResult : Type := mkResult {
  images : list string;
  errorReason : option ErrorReason
}.

(** A [Response] of [fetch]; the body has arrived and is [text]. *)
Record Response : Type := mkResponse {
  status : Z;
  statusText : string;
  text : string
}.

(** [response.ok] *)
Definition ok (r : Response) : bool := (200 <=? status r) && (status r <=? 299).

(** Everything the adapters call and that is not in the two files: the
    settings parser, the network, the JSON parser of the runtime and the
    two helpers of [@/server/lib/util]. Each either throws or returns. *)
Record World : Type := mkWorld {
  doParseSettings :
    ApiProviderSettings -> list ApiProviderSettingsItem -> JsError + ParsedSettings;
  fetch : string -> RequestInit -> JsError + Response;
  JSON_parse : string -> option json;
  base64ToDataURI : value -> JsError + string;
  fetchUrlToDataURI : value -> JsError + string
}.

(** Modelled from the spec: [findModel] of [../types/provider] is not among
    the sources. The spec (4.2): look up the model by [modelId] in the
    provider's catalog; fails with [NotFoundError] if absent. *)
Definition findModel (provider : AiProvider) (modelId : string) : JsError + AiModel :=
  match find (fun m => (model_id m =? modelId)%string) (models provider) with
  | Some m => inr m
  | None => inl (mkError NotFoundErrorC ("Model not found: " ++ modelId) undefined)
  end.

(** [request.images && request.images.length > 0] *)
Definition hasImages (request : GenerateRequest) : bool :=
  match req_images request with
  | Some (_ :: _) => true
  | _ => false
  end.

(** Modelled from the spec: [chooseAblility] of [../types/provider] is not
    among the sources. The spec (4.2): if the request supplies input
    images, require the model's declared ability to permit image input,
    else fall back to text-to-image; an ability the model does not support
    fails with [UnsupportedAbilityError]. *)
Definition chooseAblility (request : GenerateRequest) (declared : Ability)
  : JsError + Ability :=
  if hasImages request then
    match declared with
    | i2i => inr i2i
    | t2i => inl (mkError UnsupportedAbilityErrorC "Unsupported ability: i2i" undefined)
    end
  else inr t2i.

(* ===================================================================== *)
(** ** Helpers shared by the two adapters *)
(* ===================================================================== *)

(** What an image callback resolves to: a data URI, [null] or [undefined]. *)
Inductive slot : Type :=
| Uri (s : string)
| Null
| Undefined.

(** [results.filter(Boolean)] *)
Definition filterBoolean (results : list slot) : list string :=
  flat_map (fun r => match r with
                     | Uri s => if (s =? "")%string then [] else [s]
                     | Null => []
                     | Undefined => []
                     end) results.

(** One property of an object literal, as [JSON.stringify] keeps it. *)
Definition prop (k : string) (v : value) : list (string * json) :=
  match v with
  | Some j => [(k, j)]
  | None => []
  end.

Definition arrayItems (v : value) : list json :=
  match v with
  | Some (JArr items) => items
  | _ => []
  end.

(** [request.n && request.n > 1] *)
Definition manyRequested (request : GenerateRequest) : bool :=
  match req_n request with
  | Some k => negb (k =? 0) && (1 <? k)
  | None => false
  end.

(** [request.aspectRatio] as a condition: a non-empty string. *)
Definition aspectRatioGiven (request : GenerateRequest) : option string :=
  match req_aspectRatio request with
  | Some ar => if (ar =? "")%string then None else Some ar
  | None => None
  end.

(** [table[ratio]] on one of the two [aspectRatioSizes] objects. *)
Fixpoint sizeOf (table : list (string * string)) (ratio : string) : value :=
  match table with
  | [] => undefined
  | (k, v) :: rest => if (k =? ratio)%string then Some (JStr v) else sizeOf rest ratio
  end.

Section Calls.

Variable W : World.

(** [await fetch(url, init)] *)
Definition callFetch (url : string) (init : RequestInit) : M Response :=
  tell (HttpPost url init) ;;; lift (fetch W url init).

(** [base64ToDataURI(payload)] *)
Definition callBase64 (payload : value) : M slot :=
  tell (Base64Decode payload) ;;;
  s <- lift (base64ToDataURI W payload) ;;
  ret (Uri s).

(** [await fetchUrlToDataURI(src)] *)
Definition callFetchUrl (src : value) : M slot :=
  tell (UrlFetch src) ;;;
  s <- lift (fetchUrlToDataURI W src) ;;
  ret (Uri s).

(** [await response.json()] *)
Definition responseJson (response : Response) : M value :=
  match JSON_parse W (text response) with
  | Some j => ret (Some j)
  | None => throw (SyntaxError "Unexpected token in JSON")
  end.

(** [JSON.parse(text)] *)
Definition jsonParse (txt : string) : M value :=
  match JSON_parse W txt with
  | Some j => ret (Some j)
  | None => throw (SyntaxError "Unexpected token in JSON")
  end.

Definition postInit (settings : ParsedSettings) (requestBody : json) : RequestInit :=
  {| method := "POST";
     headers := [("Content-Type", "application/json");
                 ("Authorization", "Bearer " ++ apiKey settings)];
     body := requestBody |}.

End Calls.

(** [{ errorReason: reason, images: [] }] *)
Definition failed (reason : ErrorReason) : GenerateResult :=
  {| images := []; errorReason := Some reason |}.

(* ===================================================================== *)
(** ** The Doubao adapter *)
(* ===================================================================== *)

Module DoubaoAdapter.

Definition doubaoSettingsSchema : list ApiProviderSettingsItem :=
  [ mkItem "apiKey" "password" true None;
    mkItem "baseURL" "url" false (Some "https://ark.cn-beijing.volces.com/api/v3") ].

Definition aspectRatioSizes : list (string * string) :=
  [ ("1:1", "2048x2048");
    ("16:9", "2560x1440");
    ("9:16", "1440x2560");
    ("4:3", "2304x1728");
    ("3:4", "1728x2304") ].

Definition Doubao : AiProvider :=
  {| id := "doubao";
     name := "Doubao";
     supportCors := false;
     enabledByDefault := true;
     settings := doubaoSettingsSchema;
     models :=
       [ {| model_id := "doubao-seedream-4-5-251128";
            model_name := "SeedDream4.5";
            ability := i2i;
            maxInputImages := 14;
            model_enabledByDefault := true;
            supportedAspectRatios := ["1:1"; "16:9"; "9:16"; "4:3"; "3:4"] |} ] |}.

Section Generate.

Variable W : World.
(** The provider object the [generate] closure refers to ([Doubao]
    in the source); see [generate] below. *)
Variable self : AiProvider.

(** [Doubao.parseSettings(settings)] *)
Definition parseSettings (st : ApiProviderSettings) : M ParsedSettings :=
  lift (doParseSettings W st doubaoSettingsSchema).

(** [let size = null; if (request.aspectRatio) size = aspectRatioSizes[...]] *)
Definition requestSize (request : GenerateRequest) : value :=
  match aspectRatioGiven request with
  | Some ar => sizeOf aspectRatioSizes ar
  | None => Some JNull
  end.

(** [{ max_images: Math.min(request.n, 15) }], set when [n > 1]. *)
Definition batchOptions (request : GenerateRequest) : value :=
  match req_n request with
  | Some k =>
      if manyRequested request
      then Some (JObj [("max_images", JNum (Z.min k 15))])
      else undefined
  | None => undefined
  end.

(** [request.images], attached when it is a non-empty array. *)
Definition inputImages (request : GenerateRequest) : value :=
  match req_images request with
  | Some imgs => if hasImages request then Some (JArr (map JStr imgs)) else undefined
  | None => undefined
  end.

Definition requestBody (request : GenerateRequest) : json :=
  JObj (prop "model" (Some (JStr (req_modelId request)))
        ++ prop "prompt" (Some (JStr (req_prompt request)))
        ++ prop "size" (requestSize request)
        ++ prop "response_format" (Some (JStr "b64_json"))
        ++ prop "sequential_image_generation"
             (Some (JStr (if manyRequested request then "auto" else "disabled")))
        ++ prop "sequential_image_generation_options" (batchOptions request)
        ++ prop "image" (inputImages request))%list.

(** [errorData?.error?.message || response.statusText], in the template. *)
Definition errorDetail (errorData : value) (response : Response) : string :=
  match getOpt (getOpt errorData "error") "message" with
  | Some m => if truthy (Some m) then toString m else statusText response
  | None => statusText response
  end.

(** The [if (!response.ok) { ... }] block. *)
Definition rejected (response : Response) : M GenerateResult :=
  let errorData : value :=
    match JSON_parse W (text response) with
    | Some j => Some j
    | None => Some (JObj [])
    end in
  if (status response =? 401) || (status response =? 404) then
    ret (failed CONFIG_ERROR)
  else if status response =? 429 then
    ret (failed TOO_MANY_REQUESTS)
  else if status response =? 400 then
    ret (failed PROMPT_FLAGGED)
  else
    throw (Error ("Doubao API error: " ++ errorDetail errorData response)).

(** The probing of the response for the array of image entries. *)
Definition imageData (generateResult : value) : M (list json) :=
  if isArray generateResult then ret (arrayItems generateResult) else
  data <- lift (get generateResult "data") ;;
  if truthy data && isArray data then ret (arrayItems data) else
  imgs <- lift (get generateResult "images") ;;
  if truthy imgs && isArray imgs then ret (arrayItems imgs) else
  output <- lift (get generateResult "output") ;;
  if truthy output && isArray output then ret (arrayItems output) else
  ret [].

(** The callback of [imageData.map]. *)
Definition resolveImage (image : value) : M slot :=
  b64_json <- lift (get image "b64_json") ;;
  if truthy b64_json then callBase64 W b64_json else
  url <- lift (get image "url") ;;
  if truthy url then try_catch (callFetchUrl W url) (fun _ => ret Null) else
  image_url <- lift (get image "image_url") ;;
  if truthy image_url then try_catch (callFetchUrl W image_url) (fun _ => ret Null) else
  base64 <- lift (get image "base64") ;;
  if truthy base64 then callBase64 W base64 else
  ret Undefined.

(** What follows the [if (!response.ok)] block: the images of a 2xx
    response. *)
Definition normalize (response : Response) : M GenerateResult :=
  generateResult <- responseJson W response ;;
  entries <- imageData generateResult ;;
  results <- promise_all (map (fun image => resolveImage (Some image)) entries) ;;
  ret {| images := filterBoolean results; errorReason := None |}.

(** Everything after [fetch] has answered. *)
Definition respond (response : Response) : M GenerateResult :=
  if negb (ok response) then rejected response else normalize response.

(** The body of the [try] block. *)
Definition attempt (parsed : ParsedSettings) (request : GenerateRequest)
  : M GenerateResult :=
  model <- lift (findModel self (req_modelId request)) ;;
  _ability <- lift (chooseAblility request (ability model)) ;;
  response <- callFetch W (baseURL parsed ++ "/images/generations")
                (postInit parsed (requestBody request)) ;;
  respond response.

(** The [catch (e)] block. *)
Definition rescue (e : JsError) : M GenerateResult :=
  if strictEqNum (err_status e) 401 || strictEqNum (err_status e) 404 then
    ret (failed CONFIG_ERROR)
  else throw e.

Definition generateOf (request : GenerateRequest) (st : ApiProviderSettings)
  : M GenerateResult :=
  parsed <- parseSettings st ;;
  try_catch (attempt parsed request) rescue.

End Generate.

(** [Doubao.generate] *)
Definition generate (W : World) : GenerateRequest -> ApiProviderSettings -> M GenerateResult :=
  generateOf W Doubao.

End DoubaoAdapter.

(* ===================================================================== *)
(** ** The Qwen adapter *)
(* ===================================================================== *)

Module QwenAdapter.

Definition qwenSettingsSchema : list ApiProviderSettingsItem :=
  [ mkItem "apiKey" "password" true None;
    mkItem "baseURL" "url" false (Some "https://dashscope.aliyuncs.com/api/v1") ].

Definition aspectRatioSizes : list (string * string) :=
  [ ("1:1", "1024*1024");
    ("16:9", "1792*1024");
    ("9:16", "1024*1792");
    ("4:3", "1536*1024");
    ("3:4", "1024*1536") ].

Definition Qwen : AiProvider :=
  {| id := "qwen";
     name := "Qwen";
     supportCors := false;
     enabledByDefault := true;
     settings := qwenSettingsSchema;
     models :=
       [ {| model_id := "qwen-image";
            model_name := "Qwen Image";
            ability := i2i;
            maxInputImages := 3;
            model_enabledByDefault := true;
            supportedAspectRatios := ["1:1"; "16:9"; "9:16"; "4:3"; "3:4"] |};
         {| model_id := "qwen-image-max";
            model_name := "Qwen Image Max";
            ability := t2i;
            maxInputImages := 0;
            model_enabledByDefault := true;
            supportedAspectRatios := ["1:1"; "16:9"; "9:16"; "4:3"; "3:4"] |} ] |}.

Section Generate.

Variable W : World.

(** [Qwen.parseSettings(settings)] *)
Definition parseSettings (st : ApiProviderSettings) : M ParsedSettings :=
  lift (doParseSettings W st qwenSettingsSchema).

(** [request.aspectRatio ? aspectRatioSizes[request.aspectRatio] : "1024*1024"] *)
Definition requestSize (request : GenerateRequest) : value :=
  match aspectRatioGiven request with
  | Some ar => sizeOf aspectRatioSizes ar
  | None => Some (JStr "1024*1024")
  end.

Definition requestBody (request : GenerateRequest) : json :=
  JObj (prop "model" (Some (JStr (req_modelId request)))
        ++ prop "input"
             (Some (JObj
                [("messages",
                  JArr [JObj [("role", JStr "user");
                              ("content", JArr [JObj [("text", JStr (req_prompt request))]])]])]))
        ++ prop "parameters"
             (Some (JObj (prop "watermark" (Some (JBool false))
                          ++ prop "size" (requestSize request))%list)))%list.

(** The [if (!response.ok) { ... }] block: every path throws. *)
Definition rejected (response : Response) : M GenerateResult :=
  let errorText := text response in
  if (status response =? 401) || (status response =? 404) then
    throw (GenError CONFIG_ERROR)
  else if status response =? 429 then
    throw (GenError TOO_MANY_REQUESTS)
  else
    (if status response =? 400 then
       errorResp <- jsonParse W errorText ;;
       code <- lift (get errorResp "code") ;;
       if strictEqStr code "InvalidParameter"
       then throw (GenError PROMPT_FLAGGED)
       else ret tt
     else ret tt) ;;;
    throw (Error ("Qwen API error: " ++ numToString (status response) ++ " "
                  ++ statusText response ++ " - " ++ errorText)).

(** The probing of the response; the second shape is taken whatever its
    type, so the result need not be an array. *)
Definition imageData (generateResult : value) : M value :=
  output <- lift (get generateResult "output") ;;
  choices <- (if truthy output then lift (get output "choices") else ret undefined) ;;
  if truthy output && truthy choices && isArray choices then ret choices else
  outputImages <- (if truthy output then lift (get output "images") else ret undefined) ;;
  if truthy output && truthy outputImages then ret outputImages else
  data <- lift (get generateResult "data") ;;
  if truthy data && isArray data then ret data else
  imgs <- lift (get generateResult "images") ;;
  if truthy imgs && isArray imgs then ret imgs else
  ret (Some (JArr [])).

(** [imageData.map]: only an array has the method. *)
Definition entriesOf (data : value) : M (list json) :=
  match data with
  | Some (JArr items) => ret items
  | _ => throw (TypeError "imageData.map is not a function")
  end.

(** [try { return await fetchUrlToDataURI(src) } catch (error)
     { console.error(...); return null }] *)
Definition fetchOrNull (src : value) : M slot :=
  try_catch (callFetchUrl W src)
    (fun error => tell (ConsoleError "Qwen image fetch error:" error) ;;; ret Null).

(** [for (const item of content) { ... }]: [Some r] when the loop returned
    [r] from the callback, [None] when it ran to its end. *)
Fixpoint contentLoop (content : list json) : M (option slot) :=
  match content with
  | [] => ret None
  | item :: rest =>
      img <- lift (get (Some item) "image") ;;
      if truthy img then
        http <- lift (startsWith img "http") ;;
        if (http : bool)
        then (r <- fetchOrNull img ;; ret (Some r))
        else (r <- callBase64 W img ;; ret (Some r))
      else
        image_url <- lift (get (Some item) "image_url") ;;
        if truthy image_url
        then (r <- fetchOrNull image_url ;; ret (Some r))
        else contentLoop rest
  end.

(** The callback of [imageData.map]. *)
Definition resolveImage (image : value) : M slot :=
  message <- lift (get image "message") ;;
  content <- (if truthy message then lift (get message "content") else ret undefined) ;;
  early <- (if truthy message && truthy content
            then (items <- lift (iterate content) ;; contentLoop items)
            else ret None) ;;
  match early with
  | Some r => ret r
  | None =>
      b64_json <- lift (get image "b64_json") ;;
      if truthy b64_json then callBase64 W b64_json else
      url <- lift (get image "url") ;;
      if truthy url then fetchOrNull url else
      image_url <- lift (get image "image_url") ;;
      if truthy image_url then fetchOrNull image_url else
      base64 <- lift (get image "base64") ;;
      if truthy base64 then callBase64 W base64 else
      ret Undefined
  end.

(** What follows the [if (!response.ok)] block: the images of a 2xx
    response. *)
Definition normalize (response : Response) : M GenerateResult :=
  generateResult <- responseJson W response ;;
  data <- imageData generateResult ;;
  entries <- entriesOf data ;;
  results <- promise_all (map (fun image => resolveImage (Some image)) entries) ;;
  ret {| images := filterBoolean results; errorReason := None |}.

(** Everything after [fetch] has answered. *)
Definition respond (response : Response) : M GenerateResult :=
  if negb (ok response) then rejected response else normalize response.

(** The body of the [try] block. *)
Definition attempt (request : GenerateRequest) (st : ApiProviderSettings)
  : M GenerateResult :=
  parsed <- parseSettings st ;;
  response <- callFetch W (baseURL parsed ++ "/services/aigc/multimodal-generation/generation")
                (postInit parsed (requestBody request)) ;;
  respond response.

(** The [catch (error)] block. *)
Definition rescue (error : JsError) : M GenerateResult :=
  match instanceofGenError error with
  | Some reason => ret {| images := []; errorReason := Some reason |}
  | None => throw error
  end.

(** [Qwen.generate] *)
Definition generate (request : GenerateRequest) (st : ApiProviderSettings)
  : M GenerateResult :=
  try_catch (attempt request st) rescue.

End Generate.

End QwenAdapter.

(* ===================================================================== *)
(** ** The password update: service and route *)
(* ===================================================================== *)

Module AuthService.

(** A row of the [account] table, with the columns the service reads. *)
Record Account : Type := mkAccount {
  account_id : string;
  userId : string;
  password : option string      (* [null] for a social login *)
}.

(** The [account] table. *)
Definition Db : Type := list Account.

Record UpdatePasswordRequest : Type := mkPwRequest {
  currentPassword : string;
  newPassword : string
}.

Record UpdatePasswordResult : Type := mkPwResult {
  success : bool;
  error : option string;
  errorCode : option string
}.

(** What the service calls and is not in its file: [getContext], the
    driver of the database (a query may throw), and the two functions of
    [@/server/lib/auth]; [okEnvelope] is [ok()] of the route's [../util]. *)
Record Env : Type := mkEnv {
  getContext : option JsError;                  (* [Some e]: the call throws [e] *)
  selectFault : option JsError;
  updateFault : option JsError;
  verifyPassword : string -> string -> JsError + bool;
  hashPassword : string -> JsError + string;
  okEnvelope : json
}.

(** [UpdatePasswordSchema]: the check [zValidator] runs before the handler. *)
Definition UpdatePasswordSchema (req : UpdatePasswordRequest) : bool :=
  (1 <=? String.length (currentPassword req))%nat
  && (6 <=? String.length (newPassword req))%nat
  && (String.length (newPassword req) <=? 72)%nat.

Section Service.

Variable E : Env.

(** [db.select().from(account).where(eq(account.userId, userId)).limit(1)] *)
Definition selectAccounts (db : Db) (uid : string) : JsError + list Account :=
  match selectFault E with
  | Some e => inl e
  | None => inr (firstn 1 (filter (fun a => (userId a =? uid)%string) db))
  end.

(** [db.update(account).set({ password }).where(eq(account.id, id))] *)
Definition updateAccount (db : Db) (aid : string) (hashed : string) : JsError + Db :=
  match updateFault E with
  | Some e => inl e
  | None =>
      inr (map (fun a => if (account_id a =? aid)%string
                         then mkAccount (account_id a) (userId a) (Some hashed)
                         else a) db)
  end.

(** [!userAccount.password] *)
Definition noPassword (a : Account) : bool :=
  match password a with
  | None => true
  | Some p => (p =? "")%string
  end.

Definition refused (msg code : string) : UpdatePasswordResult :=
  {| success := false; error := Some msg; errorCode := Some code |}.

(** The [catch (error)] block of the service. *)
Definition caught (e : JsError) : UpdatePasswordResult :=
  {| success := false;
     error := Some (if (err_message e =? "")%string
                    then "Failed to update password" else err_message e);
     errorCode := None |}.

(** [updatePassword(req, ctx)] on the table [db]: what the call throws or
    returns, and the table afterwards. *)
Definition updatePassword (req : UpdatePasswordRequest) (ctxUserId : string) (db : Db)
  : (JsError + UpdatePasswordResult) * Db :=
  match getContext E with
  | Some e => (inl e, db)
  | None =>
    match selectAccounts db ctxUserId with
    | inl e => (inr (caught e), db)
    | inr [] => (inr (refused "Account not found" "accountNotFound"), db)
    | inr (userAccount :: _) =>
      if noPassword userAccount then
        (inr (refused "This account uses social login and cannot change password"
                      "socialLoginCannotChangePassword"), db)
      else
        match verifyPassword E (match password userAccount with Some p => p | None => "" end)
                (currentPassword req) with
        | inl e => (inr (caught e), db)
        | inr false =>
            (inr (refused "Current password is incorrect" "currentPasswordIncorrect"), db)
        | inr true =>
          match hashPassword E (newPassword req) with
          | inl e => (inr (caught e), db)
          | inr hashedNewPassword =>
            match updateAccount db (account_id userAccount) hashedNewPassword with
            | inl e => (inr (caught e), db)
            | inr db' => (inr {| success := true; error := None; errorCode := None |}, db')
            end
          end
        end
    end
  end.

(** A reply of the route: [c.json(body, status)]. *)
Record Reply : Type := mkReply {
  reply_body : json;
  reply_status : Z
}.

(** The handler of [POST /settings/updatePassword], after [authMiddleware]
    and [zValidator] have let the request through. *)
Definition updatePasswordRoute (user_id : string) (req : UpdatePasswordRequest) (db : Db)
  : Reply * Db :=
  match updatePassword req user_id db with
  | (inr result, db') =>
      if negb (success result) then
        ({| reply_body :=
              JObj (prop "code" (Some (JStr "error"))
                    ++ prop "errorCode" (option_map JStr (errorCode result))
                    ++ prop "message" (option_map JStr (error result)))%list;
            reply_status := 400 |}, db')
      else ({| reply_body := okEnvelope E; reply_status := 200 |}, db')
  | (inl e, db') =>
      ({| reply_body :=
            JObj [("code", JStr "error");
                  ("message", JStr (if (err_message e =? "")%string
                                    then "Failed to update password" else err_message e))];
          reply_status := 500 |}, db')
  end.

End Service.

End AuthService.

(* ===================================================================== *)
(** ** Both adapters at once *)
(* ===================================================================== *)

Inductive Vendor : Type := DoubaoV | QwenV.

Definition generateBy (v : Vendor) (W : World)
  : GenerateRequest -> ApiProviderSettings -> M GenerateResult :=
  match v with
  | DoubaoV => DoubaoAdapter.generate W
  | QwenV => QwenAdapter.generate W
  end.

(** The request a run sent first, if it sent one. *)
Definition posted {A} (m : M A) : option (string * RequestInit) :=
  match trace m with
  | HttpPost url init :: _ => Some (url, init)
  | _ => None
  end.

(** The run sent a request and the network answered it with [response]. *)
Definition answered (W : World) {A} (m : M A) (response : Response) : Prop :=
  exists url init, posted m = Some (url, init) /\ fetch W url init = inr response.

(** The events of image processing: decoding and fetching. *)
Definition imageWork (ev : event) : bool :=
  match ev with
  | Base64Decode _ => true
  | UrlFetch _ => true
  | _ => false
  end.

Definition isPost (ev : event) : bool :=
  match ev with
  | HttpPost _ _ => true
  | _ => false
  end.

(** The run sends no request. *)
Definition postless {A} (m : M A) : Prop := existsb isPost (trace m) = false.

(** The events of [m] after those of [t]. *)
Definition prepend {A} (t : list event) (m : M A) : M A :=
  ((t ++ fst m)%list, snd m).

Definition respondBy (v : Vendor) (W : World) : Response -> M GenerateResult :=
  match v with
  | DoubaoV => DoubaoAdapter.respond W
  | QwenV => QwenAdapter.respond W
  end.

Definition rescueBy (v : Vendor) : JsError -> M GenerateResult :=
  match v with
  | DoubaoV => DoubaoAdapter.rescue
  | QwenV => QwenAdapter.rescue
  end.

Definition requestBodyBy (v : Vendor) : GenerateRequest -> json :=
  match v with
  | DoubaoV => DoubaoAdapter.requestBody
  | QwenV => QwenAdapter.requestBody
  end.

(** The body of the response carries the vendor's content-policy code:
    it is JSON, its [code] can be read, and [code === "InvalidParameter"]
    (the test of Qwen's 400 branch; Doubao's 400 branch reads no code). *)
Definition carriesPolicyCode (W : World) (response : Response) : bool :=
  match JSON_parse W (text response) with
  | Some j =>
      match get (Some j) "code" with
      | inr code => strictEqStr code "InvalidParameter"
      | inl _ => false
      end
  | None => false
  end.

(** What an adapter checks in its [try] block before it builds the
    request: Doubao looks the model up in its catalog and chooses the
    ability, and either may throw; Qwen checks nothing. *)
Definition precheck (v : Vendor) (request : GenerateRequest) : JsError + unit :=
  match v with
  | DoubaoV =>
      match findModel DoubaoAdapter.Doubao (req_modelId request) with
      | inl e => inl e
      | inr model =>
          match chooseAblility request (ability model) with
          | inl e => inl e
          | inr _ => inr tt
          end
      end
  | QwenV => inr tt
  end.

(** No image was decoded or fetched during the run. *)
Definition quiet {A} (m : M A) : Prop := existsb imageWork (trace m) = false.

(** An error the adapters raise themselves: no [status], no [GenError]. *)
Definition homemade (e : JsError) : Prop :=
  err_status e = undefined /\ instanceofGenError e = None.

(** A quiet run of [m] throws only homemade errors and returns only values
    in [P]. *)
Definition tame {A} (P : A -> Prop) (m : M A) : Prop :=
  quiet m ->
  match outcome m with
  | inl e => homemade e
  | inr a => P a
  end.

Definition notUri (r : slot) : Prop :=
  match r with
  | Uri _ => False
  | _ => True
  end.

(** The callback of [imageData.map] of an adapter. *)
Definition resolveImageBy (v : Vendor) (W : World) : value -> M slot :=
  match v with
  | DoubaoV => DoubaoAdapter.resolveImage W
  | QwenV => QwenAdapter.resolveImage W
  end.

(** The image entries an adapter finds in a parsed response. *)
Definition entriesBy (v : Vendor) (generateResult : value) : M (list json) :=
  match v with
  | DoubaoV => DoubaoAdapter.imageData generateResult
  | QwenV => data <- QwenAdapter.imageData generateResult ;; QwenAdapter.entriesOf data
  end.

Definition catalog (v : Vendor) : AiProvider :=
  match v with
  | DoubaoV => DoubaoAdapter.Doubao
  | QwenV => QwenAdapter.Qwen
  end.

(** The [aspectRatioSizes] table of an adapter. *)
Definition sizeTable (v : Vendor) : list (string * string) :=
  match v with
  | DoubaoV => DoubaoAdapter.aspectRatioSizes
  | QwenV => QwenAdapter.aspectRatioSizes
  end.

(** Where the size sits in the request body: [size] for Doubao,
    [parameters.size] for Qwen. *)
Definition sizeField (v : Vendor) (requestBody : json) : value :=
  match v with
  | DoubaoV => getOpt (Some requestBody) "size"
  | QwenV => getOpt (getOpt (Some requestBody) "parameters") "size"
  end.

(** The size an adapter sends when the request has no aspect ratio. *)
Definition defaultSize (v : Vendor) : json :=
  match v with
  | DoubaoV => JNull
  | QwenV => JStr "1024*1024"
  end.

(** [e.status === 401 || e.status === 404] *)
Definition statusMarker (e : JsError) : bool :=
  strictEqNum (err_status e) 401 || strictEqNum (err_status e) 404.

(* ===================================================================== *)
(** ** What an image entry contributes, stated on its own *)
(* ===================================================================== *)

(** A helper's answer as images: one image, or none when the helper threw
    or gave the empty string. *)
Definition keep (r : JsError + string) : list string :=
  match r with
  | inr s => if (s =? "")%string then [] else [s]
  | inl _ => []
  end.

(** What a returned slot leaves after [filter(Boolean)]. *)
Definition kept (r : slot) : list string := filterBoolean [r].

Definition decoded (W : World) (payload : value) : list string :=
  keep (base64ToDataURI W payload).

Definition downloaded (W : World) (src : value) : list string :=
  keep (fetchUrlToDataURI W src).

(** The first non-empty field of an entry in the order [b64_json], [url],
    [image_url], [base64] decides: a base64 field is decoded, a URL field
    is fetched; an entry with none of them gives nothing. *)
Definition pickDirect (W : World) (entry : value) : list string :=
  if truthy (getOpt entry "b64_json") then decoded W (getOpt entry "b64_json")
  else if truthy (getOpt entry "url") then downloaded W (getOpt entry "url")
  else if truthy (getOpt entry "image_url") then downloaded W (getOpt entry "image_url")
  else if truthy (getOpt entry "base64") then decoded W (getOpt entry "base64")
  else [].

Definition startsHttp (v : value) : bool :=
  match v with
  | Some (JStr s) => String.prefix "http" s
  | _ => false
  end.

(** Qwen's [choices] format: the first item of [message.content] with an
    [image] (fetched when it starts with [http], decoded otherwise) or an
    [image_url] (fetched) decides; [None] when no item has either. *)
Fixpoint pickContent (W : World) (content : list json) : option (list string) :=
  match content with
  | [] => None
  | item :: rest =>
      if truthy (getOpt (Some item) "image") then
        Some (if startsHttp (getOpt (Some item) "image")
              then downloaded W (getOpt (Some item) "image")
              else decoded W (getOpt (Some item) "image"))
      else if truthy (getOpt (Some item) "image_url") then
        Some (downloaded W (getOpt (Some item) "image_url"))
      else pickContent W rest
  end.

(** [image.message.content] of an entry, [undefined] when there is none. *)
Definition contentOf (entry : json) : value :=
  getOpt (getOpt (Some entry) "message") "content".

Definition pickBy (v : Vendor) (W : World) (entry : json) : list string :=
  match v with
  | DoubaoV => pickDirect W (Some entry)
  | QwenV =>
      match (if truthy (contentOf entry)
             then pickContent W (arrayItems (contentOf entry))
             else None) with
      | Some imgs => imgs
      | None => pickDirect W (Some entry)
      end
  end.

(** [base64ToDataURI] returns on [payload]. *)
Definition decodes (W : World) (payload : value) : bool :=
  match base64ToDataURI W payload with
  | inr _ => true
  | inl _ => false
  end.

Definition notNull (j : json) : bool :=
  match j with
  | JNull => false
  | _ => true
  end.

(** An entry the direct reading does not throw on: it is not [null], and
    the base64 field that decides, if one does, decodes. *)
Definition wfDirect (W : World) (entry : json) : bool :=
  notNull entry
  && (if truthy (getOpt (Some entry) "b64_json") then decodes W (getOpt (Some entry) "b64_json")
      else if truthy (getOpt (Some entry) "url") then true
      else if truthy (getOpt (Some entry) "image_url") then true
      else if truthy (getOpt (Some entry) "base64") then decodes W (getOpt (Some entry) "base64")
      else true).

(** Content items the loop does not throw on, up to the item that
    decides: none is [null], an [image] is a string, and one that does not
    start with [http] decodes. *)
Fixpoint wfContent (W : World) (content : list json) : bool :=
  match content with
  | [] => true
  | item :: rest =>
      notNull item
      && (if truthy (getOpt (Some item) "image") then
            match getOpt (Some item) "image" with
            | Some (JStr s) =>
                String.prefix "http" s || decodes W (getOpt (Some item) "image")
            | _ => false
            end
          else if truthy (getOpt (Some item) "image_url") then true
          else wfContent W rest)
  end.

(** The entries on which the image callback of an adapter returns. *)
Definition wellFormed (v : Vendor) (W : World) (entry : json) : bool :=
  match v with
  | DoubaoV => wfDirect W entry
  | QwenV =>
      notNull entry
      && (if truthy (contentOf entry) then
            isArray (contentOf entry)
            && wfContent W (arrayItems (contentOf entry))
            && match pickContent W (arrayItems (contentOf entry)) with
               | Some _ => true
               | None => wfDirect W entry
               end
          else wfDirect W entry)
  end.

(** How many times the run called one of the two image helpers. *)
Definition work {A} (m : M A) : nat := List.length (filter imageWork (trace m)).

(** An entry in the direct format: not [null], and without
    [message.content]. *)
Definition plain (entry : json) : bool :=
  notNull entry && negb (truthy (contentOf entry)).

(* ===================================================================== *)
(** ** The account page ([src/app/routes/settings/account.tsx]) *)
(* ===================================================================== *)

Module AccountPage.

Import AuthService.

(** The state [passwordForm] of the page. *)
Record PasswordForm : Type := mkForm {
  form_currentPassword : string;
  form_newPassword : string;
  form_confirmPassword : string
}.

Inductive Variant : Type := Destructive | Default.

(** What [handlePasswordChange] does to the outside, in program order. *)
Inductive PageEvent : Type :=
| Toast (title : json) (variant : Variant)          (* toast({ title, variant }) *)
| SetIsSubmitting (b : bool)                        (* setIsSubmitting(b) *)
| ApiPost (url : string) (req : UpdatePasswordRequest)   (* fetch(url, { body }) *)
| SetPasswordForm (f : PasswordForm)                (* setPasswordForm(f) *)
| ConsoleErr (label : string) (e : JsError).        (* console.error(label, e) *)

(** What [fetch] resolves to: the status, and the body as
    [response.json()] parses it ([None] when it is not JSON). *)
Record ApiResponse : Type := mkApiResponse {
  api_status : Z;
  api_json : option json
}.

(** [response.ok] *)
Definition api_ok (r : ApiResponse) : bool :=
  (200 <=? api_status r) && (api_status r <=? 299).

(** What the page calls and is not in its file: the translation function
    of [useTranslation] and the network. *)
Record Browser : Type := mkBrowser {
  t : string -> string;
  api : string -> UpdatePasswordRequest -> JsError + ApiResponse
}.

(** The checks before the request: the key of the message of the first
    check that fails, [None] when all pass. *)
Definition validate (f : PasswordForm) : option string :=
  if (form_currentPassword f =? "")%string then Some "auth.currentPasswordRequired"
  else if (form_newPassword f =? "")%string then Some "auth.newPasswordRequired"
  else if negb (form_newPassword f =? form_confirmPassword f)%string
       then Some "auth.passwordsDoNotMatch"
  else if (String.length (form_newPassword f) <? 6)%nat then Some "auth.passwordTooShort"
  else if (72 <? String.length (form_newPassword f))%nat then Some "auth.passwordTooLong"
  else None.

Section Page.

Variable B : Browser.

(** [error.message || t("auth.networkError")] *)
Definition errorTitle (e : JsError) : json :=
  JStr (if (err_message e =? "")%string then t B "auth.networkError" else err_message e).

(** The title of the toast of a failed update: the translation of
    [auth.<errorCode>] when there is a code and a translation, else the
    message of the reply, else a fixed text. *)
Definition failureTitle (result : value) : JsError + json :=
  match get result "errorCode" with
  | inl e => inl e
  | inr errorCode =>
      let key := "auth." ++ match errorCode with
                            | Some j => toString j
                            | None => "undefined"
                            end in
      if truthy errorCode && negb (t B key =? "")%string then inr (JStr (t B key))
      else
        match get result "message" with
        | inl e => inl e
        | inr message =>
            inr (match message with
                 | Some m => if truthy message then m
                             else JStr (t B "auth.passwordUpdateFailed")
                 | None => JStr (t B "auth.passwordUpdateFailed")
                 end)
        end
  end.

(** [!response.ok || result.code === "error"] *)
Definition isFailure (response : ApiResponse) (result : value) : JsError + bool :=
  if negb (api_ok response) then inr true
  else
    match get result "code" with
    | inl e => inl e
    | inr code => inr (strictEqStr code "error")
    end.

(** The [catch (error)] block. *)
Definition caught (e : JsError) : list PageEvent :=
  [ConsoleErr "Password update error:" e; Toast (errorTitle e) Destructive].

(** The [try] block after [setIsSubmitting(true)], with its [catch]. *)
Definition submit (f : PasswordForm) : list PageEvent :=
  let req := mkPwRequest (form_currentPassword f) (form_newPassword f) in
  ApiPost "/api/settings/updatePassword" req ::
  match api B "/api/settings/updatePassword" req with
  | inl e => caught e
  | inr response =>
      match api_json response with
      | None => caught (SyntaxError "Unexpected token in JSON")
      | Some result =>
          match isFailure response (Some result) with
          | inl e => caught e
          | inr true =>
              match failureTitle (Some result) with
              | inl e => caught e
              | inr title => [Toast title Destructive]
              end
          | inr false =>
              [Toast (JStr (t B "auth.passwordUpdatedSuccessfully")) Default;
               SetPasswordForm (mkForm "" "" "")]
          end
      end
  end.

(** [handlePasswordChange] on the form [f]: everything it does. *)
Definition handlePasswordChange (f : PasswordForm) : list PageEvent :=
  match validate f with
  | Some key => [Toast (JStr (t B key)) Destructive]
  | None => (SetIsSubmitting true :: submit f ++ [SetIsSubmitting false])%list
  end.

End Page.

Definition isToast (ev : PageEvent) : bool :=
  match ev with
  | Toast _ _ => true
  | _ => false
  end.

(** The form after the events: the last [setPasswordForm] wins. *)
Fixpoint formAfter (f : PasswordForm) (evs : list PageEvent) : PasswordForm :=
  match evs with
  | [] => f
  | SetPasswordForm f' :: rest => formAfter f' rest
  | _ :: rest => formAfter f rest
  end.

(** [isSubmitting] after the events: the last [setIsSubmitting] wins. *)
Fixpoint submittingAfter (b : bool) (evs : list PageEvent) : bool :=
  match evs with
  | [] => b
  | SetIsSubmitting b' :: rest => submittingAfter b' rest
  | _ :: rest => submittingAfter b rest
  end.

(** The browser whose network is the [/updatePassword] route of a server
    with the table [db], called for the user [uid]: a reply arrives with
    its status and its JSON body. *)
Definition wired (translate : string -> string) (E : Env) (uid : string) (db : Db)
  : Browser :=
  {| t := translate;
     api := fun _ req =>
       let reply := fst (updatePasswordRoute E uid req db) in
       inr {| api_status := reply_status reply; api_json := Some (reply_body reply) |} |}.

(** The title the page shows for a refusal of the service. *)
Definition refusalTitle (translate : string -> string) (result : UpdatePasswordResult)
  : json :=
  let fallback :=
    match error result with
    | Some m => if (m =? "")%string then translate "auth.passwordUpdateFailed" else m
    | None => translate "auth.passwordUpdateFailed"
    end in
  JStr (match errorCode result with
        | Some c =>
            if negb (c =? "")%string && negb (translate ("auth." ++ c) =? "")%string
            then translate ("auth." ++ c)
            else fallback
        | None => fallback
        end).

(** The state [showPasswords] of the page. *)
Record ShowPasswords : Type := mkShow {
  show_current : bool;
  show_new : bool;
  show_confirm : bool
}.

(** [keyof typeof showPasswords] *)
Inductive Field : Type := FieldCurrent | FieldNew | FieldConfirm.

(** [togglePasswordVisibility(field)], as the update of the state:
    [{ ...prev, [field]: !prev[field] }]. *)
Definition togglePasswordVisibility (field : Field) (prev : ShowPasswords)
  : ShowPasswords :=
  match field with
  | FieldCurrent => mkShow (negb (show_current prev)) (show_new prev) (show_confirm prev)
  | FieldNew => mkShow (show_current prev) (negb (show_new prev)) (show_confirm prev)
  | FieldConfirm => mkShow (show_current prev) (show_new prev) (negb (show_confirm prev))
  end.

(** [prev[field]] *)
Definition shown (field : Field) (s : ShowPasswords) : bool :=
  match field with
  | FieldCurrent => show_current s
  | FieldNew => show_new s
  | FieldConfirm => show_confirm s
  end.

End AccountPage.

(* ===================================================================== *)
(** ** The session hook ([useAuthWrap]) and the navigation bar *)
(* ===================================================================== *)

Module UseAuth.

(** What [authClient.useSession()] gives, as far as the hook reads it. *)
Record Session : Type := mkSession {
  data : value;
  isPending : bool;
  session_error : value
}.

(** The fields of the hook's result that are computed. *)
Record Auth : Type := mkAuth {
  user : json;
  isLogin : bool;
  isLoading : bool;
  error : value
}.

Definition useAuthWrap (session : Session) : Auth :=
  {| user := match getOpt (data session) "user" with
             | Some u => if truthy (Some u) then u else JNull
             | None => JNull
             end;
     isLogin := truthy (getOpt (data session) "user");
     isLoading := isPending session;
     error := session_error session |}.

(** [useAuth] *)
Definition useAuth (session : Session) : Auth := useAuthWrap session.

End UseAuth.

Module Navigation.

(** The [href]s of [navigationItems], with their ids. *)
Definition navigationItems : list (string * string) :=
  [("chat", "/chat"); ("settings", "/settings")].

(** [isActive(href)] at the location [pathname]. *)
Definition isActive (pathname href : string) : bool :=
  if (href =? "/")%string then (pathname =? "/")%string
  else (pathname =? href)%string || String.prefix (href ++ "/") pathname.

(** The button at the bottom of the bar: what a click on it calls. *)
Inductive Action : Type := HandleLogout | HandleLogin.

Definition sessionButton (auth : UseAuth.Auth) : Action :=
  if UseAuth.isLogin auth then HandleLogout else HandleLogin.

End Navigation.

(* ===================================================================== *)
(** ** Sample worlds, requests and responses *)
(* ===================================================================== *)

Module Sample.

Definition parsed : ParsedSettings :=
  {| baseURL := "https://vendor.test/api"; apiKey := "sk-test" |}.

(** [data:image/png;base64,<payload>] for a string payload. *)
Definition dataURI (payload : value) : JsError + string :=
  match payload with
  | Some (JStr s) => inr ("data:image/png;base64," ++ s)
  | _ => inl (TypeError "payload is not a string")
  end.

(** Only [https://cdn.test/a.png] can be fetched. *)
Definition reach (src : value) : JsError + string :=
  if strictEqStr src "https://cdn.test/a.png"
  then inr "data:image/png;base64,QUJD"
  else inl (Error "fetch failed").

(** A world whose network always answers [response], whose body parses to
    [parsed_body]. *)
Definition world (response : Response) (parsed_body : option json) : World :=
  {| doParseSettings := fun _ _ => inr parsed;
     fetch := fun _ _ => inr response;
     JSON_parse := fun _ => parsed_body;
     base64ToDataURI := dataURI;
     fetchUrlToDataURI := reach |}.

(** A world whose network throws [e]. *)
Definition offline (e : JsError) : World :=
  {| doParseSettings := fun _ _ => inr parsed;
     fetch := fun _ _ => inl e;
     JSON_parse := fun _ => None;
     base64ToDataURI := dataURI;
     fetchUrlToDataURI := reach |}.

Definition request : GenerateRequest :=
  {| req_modelId := "doubao-seedream-4-5-251128";
     req_prompt := "a cat";
     req_aspectRatio := Some "16:9";
     req_images := None;
     req_n := Some 4 |}.

Definition unauthorized : Response :=
  {| status := 401; statusText := "Unauthorized"; text := "" |}.

Definition success : Response :=
  {| status := 200; statusText := "OK"; text := "{...}" |}.

(** The world in which every request is answered 401. *)
Definition refusing : World := world unauthorized None.

(** What Doubao posts for [request] in these worlds. *)
Definition doubaoUrl : string := "https://vendor.test/api/images/generations".
Definition doubaoInit : RequestInit :=
  postInit parsed (DoubaoAdapter.requestBody request).

Definition empty : GenerateResult := {| images := []; errorReason := None |}.

(** A 2xx body whose only entry has none of the known fields. *)
Definition unknownShape : json :=
  JObj [("data", JArr [JObj [("revised_prompt", JStr "a cat")]])].

Definition puzzled : World := world success (Some unknownShape).

Definition tooMany : Response :=
  {| status := 429; statusText := "Too Many Requests"; text := "" |}.

(** The world in which every request is answered 429. *)
Definition throttling : World := world tooMany None.

Definition badRequest : Response :=
  {| status := 400; statusText := "Bad Request"; text := "{}" |}.

(** The world in which every request is answered 400, without any code
    in the body. *)
Definition rejecting : World := world badRequest (Some (JObj [])).

(** The world in which every request is answered 400, with the
    content-policy code in the body. *)
Definition censoring : World :=
  world badRequest (Some (JObj [("code", JStr "InvalidParameter")])).

Definition qwenInit : RequestInit :=
  postInit parsed (QwenAdapter.requestBody request).

(** A request without an aspect ratio. *)
Definition plainRequest : GenerateRequest :=
  {| req_modelId := "qwen-image";
     req_prompt := "a cat";
     req_aspectRatio := None;
     req_images := None;
     req_n := None |}.

(** The right new password with the wrong current one. *)
Definition wrongChange : AuthService.UpdatePasswordRequest :=
  AuthService.mkPwRequest "not-my-secret" "new-secret".

(** A 2xx body with a reachable and an unreachable URL. *)
Definition mixed : json :=
  JObj [("data", JArr [JObj [("url", JStr "https://cdn.test/a.png")];
                       JObj [("url", JStr "https://cdn.test/gone.png")]])].

Definition halfReachable : World := world success (Some mixed).

(** A 2xx body whose entry has an unreachable [image_url] and a [base64]. *)
Definition shadowed : json :=
  JObj [("data", JArr [JObj [("image_url", JStr "https://cdn.test/gone.png");
                             ("base64", JStr "QUJD")]])].

Definition shadowing : World := world success (Some shadowed).

(** A 2xx body whose entry has an unreachable [url] and a [base64]. *)
Definition detour : json :=
  JObj [("data", JArr [JObj [("url", JStr "https://cdn.test/gone.png");
                             ("base64", JStr "QUJD")]])].

Definition detouring : World := world success (Some detour).

(** A 2xx body with one [b64_json] entry. *)
Definition inline : json :=
  JObj [("data", JArr [JObj [("b64_json", JStr "QUJD")]])].

Definition inlining : World := world success (Some inline).

(** An account with a password, and the table that holds it. *)
Definition alice : AuthService.Account :=
  AuthService.mkAccount "acc-1" "u-1" (Some "hash:old-secret").

Definition table : AuthService.Db := [alice].

Definition change : AuthService.UpdatePasswordRequest :=
  AuthService.mkPwRequest "old-secret" "new-secret".

(** A server whose password functions work ([hash:] in front). *)
Definition server : AuthService.Env :=
  {| AuthService.getContext := None;
     AuthService.selectFault := None;
     AuthService.updateFault := None;
     AuthService.verifyPassword :=
       fun stored given => inr (stored =? "hash:" ++ given)%string;
     AuthService.hashPassword := fun p => inr ("hash:" ++ p);
     AuthService.okEnvelope := JObj [("code", JStr "ok")] |}.

(** A server whose [verifyPassword] throws. *)
Definition brokenServer : AuthService.Env :=
  {| AuthService.getContext := None;
     AuthService.selectFault := None;
     AuthService.updateFault := None;
     AuthService.verifyPassword := fun _ _ => inl (Error "hash backend down");
     AuthService.hashPassword := fun p => inr ("hash:" ++ p);
     AuthService.okEnvelope := JObj [("code", JStr "ok")] |}.

(** An image-to-image request for Qwen's [i2i] model. *)
Definition editRequest : GenerateRequest :=
  {| req_modelId := "qwen-image";
     req_prompt := "make the sky red";
     req_aspectRatio := None;
     req_images := Some ["data:image/png;base64,QUJD"];
     req_n := None |}.

(** A request for a model no catalog lists. *)
Definition strayRequest : GenerateRequest :=
  {| req_modelId := "no-such-model";
     req_prompt := "a cat";
     req_aspectRatio := None;
     req_images := None;
     req_n := None |}.

(** Input images for Qwen's text-to-image model. *)
Definition misfitRequest : GenerateRequest :=
  {| req_modelId := "qwen-image-max";
     req_prompt := "make the sky red";
     req_aspectRatio := None;
     req_images := Some ["data:image/png;base64,QUJD"];
     req_n := None |}.

Definition qwenUrl : string :=
  "https://vendor.test/api/services/aigc/multimodal-generation/generation".

(** An error object with [status: 401], as an HTTP client library throws. *)
Definition denied : JsError := mkError ErrorC "Unauthorized" (Some (JNum 401)).

(** A network failure without any status. *)
Definition unreachable : JsError := mkError TypeErrorC "fetch failed" undefined.


(** The settings parser's complaint about a missing API key, here with a
    [status] of 401. *)
Definition missingKey : JsError :=
  mkError ErrorC "Missing required setting: apiKey" (Some (JNum 401)).

(** A world whose settings parser throws [missingKey]. *)
Definition keyless : World :=
  {| doParseSettings := fun _ _ => inl missingKey;
     fetch := fun _ _ => inr success;
     JSON_parse := fun _ => None;
     base64ToDataURI := dataURI;
     fetchUrlToDataURI := reach |}.


(** A 2xx body in Qwen's shape whose [output.images] is one URL, not an
    array. *)
Definition loneImage : json :=
  JObj [("output", JObj [("images", JStr "https://cdn.test/a.png")])].

Definition loneImageWorld : World := world success (Some loneImage).

(** A 2xx body whose second entry is [null]. *)
Definition holed : json :=
  JObj [("data", JArr [JObj [("b64_json", JStr "QUJD")]; JNull;
                       JObj [("url", JStr "https://cdn.test/a.png")]])].

Definition holedWorld : World := world success (Some holed).

(** A world whose 2xx body is the JSON text [null]. *)
Definition nullBody : World := world success (Some JNull).


(** A request with an aspect ratio no table lists. *)
Definition wideRequest : GenerateRequest :=
  {| req_modelId := "qwen-image";
     req_prompt := "a panorama";
     req_aspectRatio := Some "21:9";
     req_images := None;
     req_n := None |}.

Definition qwenWideInit : RequestInit :=
  postInit parsed (QwenAdapter.requestBody wideRequest).

(** A user with two account rows: a social login first, then one with a
    password. *)
Definition bob : list AuthService.Account :=
  [ AuthService.mkAccount "acc-7" "u-2" None;
    AuthService.mkAccount "acc-8" "u-2" (Some "hash:old-secret") ].

(** A table with two users. *)
Definition shared : AuthService.Db :=
  [ AuthService.mkAccount "acc-0" "u-0" (Some "hash:other");
    alice ].


(** A form that passes the checks of the page. *)
Definition filled : AccountPage.PasswordForm :=
  AccountPage.mkForm "old-secret" "new-secret" "new-secret".

(** The same with the wrong current password. *)
Definition mistaken : AccountPage.PasswordForm :=
  AccountPage.mkForm "not-my-secret" "new-secret" "new-secret".

(** A translation table with an entry for one error code only. *)
Definition translate (key : string) : string :=
  if (key =? "auth.currentPasswordIncorrect")%string then "Wrong password"
  else if (key =? "auth.passwordUpdatedSuccessfully")%string then "Password updated"
  else key.

End Sample.

(* ===================================================================== *)
(** ** Properties of traces *)
(* ===================================================================== *)

(** The image [s] was made by one of the two helpers, called during the
    events [t]. *)
Definition made (W : World) (t : list event) (s : string) : Prop :=
  exists p,
    (In (Base64Decode p) t /\ base64ToDataURI W p = inr s)
    \/ (In (UrlFetch p) t /\ fetchUrlToDataURI W p = inr s).

(** The data URI a slot holds. *)
Definition uriOf (r : slot) : option string :=
  match r with
  | Uri s => Some s
  | _ => None
  end.

(** The data URI the content loop returned, if it returned one. *)
Definition earlyUri (r : option slot) : option string :=
  match r with
  | Some (Uri s) => Some s
  | _ => None
  end.

(** Every data URI that [m] returns (seen through [proj]) was made during
    the run of [m]. *)
Definition sourced (W : World) {A} (proj : A -> option string) (m : M A) : Prop :=
  forall a s, outcome m = inr a -> proj a = Some s -> made W (trace m) s.

Definition isLog (ev : event) : bool :=
  match ev with
  | ConsoleError _ _ => true
  | _ => false
  end.

(** The events [t] hold no [console.error]. *)
Definition unlogged (t : list event) : Prop :=
  forall ev, In ev t -> isLog ev = false.

(** In the events [t] every failed [fetchUrlToDataURI] is logged with
    Qwen's label, and nothing else is logged. *)
Definition logsFailures (W : World) (t : list event) : Prop :=
  (forall src e,
      In (UrlFetch src) t -> fetchUrlToDataURI W src = inl e ->
      In (ConsoleError "Qwen image fetch error:" e) t)
  /\ (forall label e,
        In (ConsoleError label e) t ->
        label = "Qwen image fetch error:"
        /\ exists src, In (UrlFetch src) t /\ fetchUrlToDataURI W src = inl e).

(** The property [Q] of traces holds of the trace of [m]. *)
Definition along (Q : list event -> Prop) {A} (m : M A) : Prop := Q (trace m).

(** The path under [baseURL] an adapter posts to. *)
Definition endpoint (v : Vendor) : string :=
  match v with
  | DoubaoV => "/images/generations"
  | QwenV => "/services/aigc/multimodal-generation/generation"
  end.

(** The settings schema of an adapter. *)
Definition schemaOf (v : Vendor) : list ApiProviderSettingsItem :=
  match v with
  | DoubaoV => DoubaoAdapter.doubaoSettingsSchema
  | QwenV => QwenAdapter.qwenSettingsSchema
  end.

(** The property the image callback of an adapter reads first: reading it
    on [null] is what throws. *)
Definition firstRead (v : Vendor) : string :=
  match v with
  | DoubaoV => "b64_json"
  | QwenV => "message"
  end.

(** The property of the parsed response an adapter reads first: reading it
    on [null] is what throws. *)
Definition firstProbe (v : Vendor) : string :=
  match v with
  | DoubaoV => "data"
  | QwenV => "output"
  end.

(* ===================================================================== *)
(** ** Laws of the effect monad *)
(* ===================================================================== *)

Section MonadLaws.

Context {A B : Type}.

Lemma bind_ret (a : A) (k : A -> M B) : bind (ret a) k = k a.
Proof. unfold bind, ret. destruct (k a); reflexivity. Qed.

Lemma bind_lift_inr (a : A) (k : A -> M B) : bind (lift (inr a)) k = k a.
Proof. apply bind_ret. Qed.

Lemma bind_lift_inl (e : JsError) (k : A -> M B) : bind (lift (inl e)) k = throw e.
Proof. reflexivity. Qed.

Lemma bind_prepend (t : list event) (m : M A) (k : A -> M B) :
  bind (prepend t m) k = prepend t (bind m k).
Proof.
  destruct m as [t0 [e | a]]; unfold prepend, bind; simpl.
  - reflexivity.
  - destruct (k a) as [t1 r]; simpl. now rewrite app_assoc.
Qed.

Lemma try_catch_prepend (t : list event) (m : M A) (h : JsError -> M A) :
  try_catch (prepend t m) h = prepend t (try_catch m h).
Proof.
  destruct m as [t0 [e | a]]; unfold prepend, try_catch; simpl.
  - destruct (h e) as [t1 r]; simpl. now rewrite app_assoc.
  - reflexivity.
Qed.

Lemma try_catch_throw (e : JsError) (h : JsError -> M A) :
  try_catch (throw e) h = h e.
Proof. unfold try_catch, throw. destruct (h e); reflexivity. Qed.

End MonadLaws.

Lemma bind_tell {B} (ev : event) (k : unit -> M B) :
  bind (tell ev) k = prepend [ev] (k tt).
Proof. unfold bind, tell, prepend. destruct (k tt); reflexivity. Qed.

Lemma callFetch_run (W : World) (url : string) (init : RequestInit) :
  callFetch W url init = ([HttpPost url init], fetch W url init).
Proof.
  unfold callFetch. rewrite bind_tell. unfold prepend, lift. simpl. reflexivity.
Qed.

(** The run of [Doubao.generate], stage by stage. *)
Lemma doubao_stages (W : World) (self : AiProvider)
      (request : GenerateRequest) (st : ApiProviderSettings) :
  DoubaoAdapter.generateOf W self request st =
  match doParseSettings W st DoubaoAdapter.doubaoSettingsSchema with
  | inl e => throw e
  | inr parsed =>
      match findModel self (req_modelId request) with
      | inl e => DoubaoAdapter.rescue e
      | inr m =>
          match chooseAblility request (ability m) with
          | inl e => DoubaoAdapter.rescue e
          | inr _ =>
              let url := baseURL parsed ++ "/images/generations" in
              let init := postInit parsed (DoubaoAdapter.requestBody request) in
              prepend [HttpPost url init]
                (match fetch W url init with
                 | inl e => DoubaoAdapter.rescue e
                 | inr response =>
                     try_catch (DoubaoAdapter.respond W response) DoubaoAdapter.rescue
                 end)
          end
      end
  end.
Proof.
  unfold DoubaoAdapter.generateOf, DoubaoAdapter.parseSettings.
  destruct (doParseSettings W st _) as [e | parsed].
  - reflexivity.
  - rewrite bind_lift_inr. unfold DoubaoAdapter.attempt.
    destruct (findModel self _) as [e | m].
    + rewrite bind_lift_inl. apply try_catch_throw.
    + rewrite bind_lift_inr.
      destruct (chooseAblility request _) as [e | a].
      * rewrite bind_lift_inl. apply try_catch_throw.
      * rewrite bind_lift_inr. cbv zeta.
        rewrite callFetch_run.
        change ([HttpPost ?u ?i], ?r) with (prepend [HttpPost u i] (lift r)).
        rewrite bind_prepend, try_catch_prepend. f_equal.
        destruct (fetch W _ _) as [e | response].
        -- rewrite bind_lift_inl. apply try_catch_throw.
        -- now rewrite bind_lift_inr.
Qed.

(** The run of [Qwen.generate], stage by stage. *)
Lemma qwen_stages (W : World) (request : GenerateRequest) (st : ApiProviderSettings) :
  QwenAdapter.generate W request st =
  match doParseSettings W st QwenAdapter.qwenSettingsSchema with
  | inl e => QwenAdapter.rescue e
  | inr parsed =>
      let url := baseURL parsed ++ "/services/aigc/multimodal-generation/generation" in
      let init := postInit parsed (QwenAdapter.requestBody request) in
      prepend [HttpPost url init]
        (match fetch W url init with
         | inl e => QwenAdapter.rescue e
         | inr response =>
             try_catch (QwenAdapter.respond W response) QwenAdapter.rescue
         end)
  end.
Proof.
  unfold QwenAdapter.generate, QwenAdapter.attempt, QwenAdapter.parseSettings.
  destruct (doParseSettings W st _) as [e | parsed].
  - rewrite bind_lift_inl. apply try_catch_throw.
  - rewrite bind_lift_inr. cbv zeta. rewrite callFetch_run.
    change ([HttpPost ?u ?i], ?r) with (prepend [HttpPost u i] (lift r)).
    rewrite bind_prepend, try_catch_prepend. f_equal.
    destruct (fetch W _ _) as [e | response].
    + rewrite bind_lift_inl. apply try_catch_throw.
    + now rewrite bind_lift_inr.
Qed.

(* ===================================================================== *)
(** ** What a run that posted looks like *)
(* ===================================================================== *)

Lemma doubao_rescue_silent (e : JsError) : trace (DoubaoAdapter.rescue e) = [].
Proof.
  unfold DoubaoAdapter.rescue.
  destruct (strictEqNum (err_status e) 401 || strictEqNum (err_status e) 404); reflexivity.
Qed.

Lemma qwen_rescue_silent (e : JsError) : trace (QwenAdapter.rescue e) = [].
Proof.
  unfold QwenAdapter.rescue. destruct (instanceofGenError e); reflexivity.
Qed.

Lemma rescueBy_silent (v : Vendor) (e : JsError) : trace (rescueBy v e) = [].
Proof. destruct v; [apply doubao_rescue_silent | apply qwen_rescue_silent]. Qed.

Lemma posted_silent {A} (m : M A) : trace m = [] -> posted m = None.
Proof. unfold posted. now intros ->. Qed.

Lemma posted_prepend {A} (url : string) (init : RequestInit) (m : M A) :
  posted (prepend [HttpPost url init] m) = Some (url, init).
Proof. reflexivity. Qed.

(** A run that posted: the body is the adapter's request body, and the
    rest of the run is decided by what [fetch] did. *)
Lemma posted_inv (v : Vendor) (W : World) (request : GenerateRequest)
      (st : ApiProviderSettings) (url : string) (init : RequestInit) :
  posted (generateBy v W request st) = Some (url, init) ->
  body init = requestBodyBy v request
  /\ generateBy v W request st =
     prepend [HttpPost url init]
       (match fetch W url init with
        | inl e => rescueBy v e
        | inr response => try_catch (respondBy v W response) (rescueBy v)
        end).
Proof.
  destruct v; simpl; unfold DoubaoAdapter.generate.
  - rewrite doubao_stages.
    destruct (doParseSettings W st _) as [e | parsed]; [discriminate |].
    destruct (findModel _ _) as [e | m].
    { now rewrite (posted_silent _ (doubao_rescue_silent e)). }
    destruct (chooseAblility _ _) as [e | a].
    { now rewrite (posted_silent _ (doubao_rescue_silent e)). }
    cbv zeta. rewrite posted_prepend. intros [= <- <-]. now split.
  - rewrite qwen_stages.
    destruct (doParseSettings W st _) as [e | parsed].
    { now rewrite (posted_silent _ (qwen_rescue_silent e)). }
    cbv zeta. rewrite posted_prepend. intros [= <- <-]. now split.
Qed.

Lemma answered_inv (v : Vendor) (W : World) (request : GenerateRequest)
      (st : ApiProviderSettings) (response : Response) :
  answered W (generateBy v W request st) response ->
  exists url init,
    body init = requestBodyBy v request
    /\ generateBy v W request st =
       prepend [HttpPost url init] (try_catch (respondBy v W response) (rescueBy v)).
Proof.
  intros (url & init & Hpost & Hfetch).
  destruct (posted_inv _ _ _ _ _ _ Hpost) as [Hbody Hrun].
  rewrite Hfetch in Hrun. now exists url, init.
Qed.

(* ===================================================================== *)
(** ** C1: classification of a non-2xx response *)
(* ===================================================================== *)

(** What a non-2xx response makes of the whole [try ... catch] of an
    adapter: nothing happens besides, and the result depends on the status
    (and, for Qwen, on the code in the body). *)
Lemma rejected_silent (v : Vendor) (W : World) (response : Response) :
  ok response = false ->
  trace (try_catch (respondBy v W response) (rescueBy v)) = [].
Proof.
  intros Hok. destruct v; simpl.
  - unfold DoubaoAdapter.respond, DoubaoAdapter.rejected. rewrite Hok. simpl.
    destruct ((status response =? 401) || (status response =? 404)); [reflexivity |].
    destruct (status response =? 429); [reflexivity |].
    destruct (status response =? 400); reflexivity.
  - unfold QwenAdapter.respond, QwenAdapter.rejected. rewrite Hok. simpl.
    destruct ((status response =? 401) || (status response =? 404)); [reflexivity |].
    destruct (status response =? 429); [reflexivity |].
    destruct (status response =? 400); [| reflexivity].
    unfold jsonParse. destruct (JSON_parse W (text response)) as [j |]; [| reflexivity].
    rewrite bind_ret.
    destruct (get (Some j) "code") as [e | code].
    + cbn. pose proof (qwen_rescue_silent e) as Hs.
      destruct (QwenAdapter.rescue e); simpl in *. now subst.
    + cbn. destruct (strictEqStr code "InvalidParameter"); reflexivity.
Qed.

Lemma outcome_prepend {A} (t : list event) (m : M A) :
  outcome (prepend t m) = outcome m.
Proof. reflexivity. Qed.

Lemma trace_prepend {A} (t : list event) (m : M A) :
  trace (prepend t m) = (t ++ trace m)%list.
Proof. reflexivity. Qed.

(** A call whose settings parse and whose checks pass sends its request:
    the run is the POST, followed by what the answer makes of it. *)
Lemma generate_sends (v : Vendor) (W : World) (request : GenerateRequest)
      (st : ApiProviderSettings) (parsed : ParsedSettings) :
  doParseSettings W st (schemaOf v) = inr parsed ->
  precheck v request = inr tt ->
  generateBy v W request st =
  prepend [HttpPost (baseURL parsed ++ endpoint v)
             (postInit parsed (requestBodyBy v request))]
    (match fetch W (baseURL parsed ++ endpoint v)
             (postInit parsed (requestBodyBy v request)) with
     | inl e => rescueBy v e
     | inr response => try_catch (respondBy v W response) (rescueBy v)
     end).
Proof.
  intros Hparse Hcheck. destruct v; simpl in *.
  - unfold DoubaoAdapter.generate. rewrite doubao_stages, Hparse.
    destruct (findModel _ _) as [e | m]; [discriminate |].
    destruct (chooseAblility _ _) as [e | a]; [discriminate |].
    reflexivity.
  - rewrite qwen_stages, Hparse. reflexivity.
Qed.

(** C1 fails as stated: Doubao is answered 400 with a body that carries no
    content-policy code. The claim has the call throw an unclassified
    error; it returns [PROMPT_FLAGGED]. *)
Lemma C1_counterexample :
  answered Sample.rejecting (generateBy DoubaoV Sample.rejecting Sample.request [])
    Sample.badRequest
  /\ ok Sample.badRequest = false
  /\ status Sample.badRequest = 400
  /\ carriesPolicyCode Sample.rejecting Sample.badRequest = false
  /\ outcome (generateBy DoubaoV Sample.rejecting Sample.request [])
     = inr (failed PROMPT_FLAGGED).
Proof.
  split; [| repeat split].
  exists Sample.doubaoUrl, Sample.doubaoInit. split; reflexivity.
Qed.

(** C1, amended. A call of either adapter whose settings parse and whose
    checks before the request pass posts its request; when the answer is
    not 2xx, status 401 or 404 returns [CONFIG_ERROR] with no images and
    429 returns [TOO_MANY_REQUESTS]. Status 400 returns [PROMPT_FLAGGED]
    from Doubao whatever the body, and from Qwen exactly when the body
    carries the content-policy code: without it Qwen throws an error that
    has no status and is no [GenError]. Any other status throws a plain
    [Error] that is not turned into a result. In all these cases the POST
    is the only thing the call did: no image is decoded or fetched. *)
Theorem C1_error_classification
        (v : Vendor) (W : World) (request : GenerateRequest)
        (st : ApiProviderSettings) (parsed : ParsedSettings) (response : Response) :
  doParseSettings W st (schemaOf v) = inr parsed ->
  precheck v request = inr tt ->
  fetch W (baseURL parsed ++ endpoint v) (postInit parsed (requestBodyBy v request))
  = inr response ->
  ok response = false ->
  let run := generateBy v W request st in
  (status response = 401 \/ status response = 404 ->
     outcome run = inr (failed CONFIG_ERROR))
  /\ (status response = 429 -> outcome run = inr (failed TOO_MANY_REQUESTS))
  /\ (status response = 400 ->
      match v with
      | DoubaoV => outcome run = inr (failed PROMPT_FLAGGED)
      | QwenV =>
          if carriesPolicyCode W response
          then outcome run = inr (failed PROMPT_FLAGGED)
          else exists e, outcome run = inl e
                         /\ err_status e = undefined /\ instanceofGenError e = None
      end)
  /\ (status response <> 400 -> status response <> 401 ->
      status response <> 404 -> status response <> 429 ->
        exists e, outcome run = inl e
                  /\ err_class e = ErrorC /\ instanceofGenError e = None)
  /\ trace run = [HttpPost (baseURL parsed ++ endpoint v)
                    (postInit parsed (requestBodyBy v request))]
  /\ existsb imageWork (trace run) = false.
Proof.
  intros Hparse Hcheck Hfetch Hok run.
  assert (Hrun : run = prepend [HttpPost (baseURL parsed ++ endpoint v)
                                  (postInit parsed (requestBodyBy v request))]
                         (try_catch (respondBy v W response) (rescueBy v))).
  { unfold run. rewrite (generate_sends _ _ _ _ _ Hparse Hcheck), Hfetch. reflexivity. }
  assert (Htrace : trace run = [HttpPost (baseURL parsed ++ endpoint v)
                                  (postInit parsed (requestBodyBy v request))]).
  { rewrite Hrun, trace_prepend, (rejected_silent _ _ _ Hok). reflexivity. }
  assert (Hout : outcome run
                 = outcome (try_catch (respondBy v W response) (rescueBy v))).
  { now rewrite Hrun, outcome_prepend. }
  rewrite Hout.
  split; [| split; [| split; [| split; [| split]]]].
  - (* 401, 404 *)
    intros Hs. destruct v; simpl.
    + unfold DoubaoAdapter.respond, DoubaoAdapter.rejected. rewrite Hok. simpl.
      destruct Hs as [-> | ->]; reflexivity.
    + unfold QwenAdapter.respond, QwenAdapter.rejected. rewrite Hok. simpl.
      destruct Hs as [-> | ->]; reflexivity.
  - (* 429 *)
    intros Hs. destruct v; simpl.
    + unfold DoubaoAdapter.respond, DoubaoAdapter.rejected. rewrite Hok, Hs. reflexivity.
    + unfold QwenAdapter.respond, QwenAdapter.rejected. rewrite Hok, Hs. reflexivity.
  - (* 400 *)
    intros Hs. destruct v.
    + simpl. unfold DoubaoAdapter.respond, DoubaoAdapter.rejected.
      rewrite Hok, Hs. reflexivity.
    + unfold carriesPolicyCode. cbn [respondBy rescueBy].
      unfold QwenAdapter.respond, QwenAdapter.rejected. rewrite Hok, Hs.
      change (negb false) with true. cbv iota.
      change ((400 =? 401) || (400 =? 404)) with false.
      change (400 =? 429) with false. change (400 =? 400) with true. cbv iota.
      unfold jsonParse.
      destruct (JSON_parse W (text response)) as [j |].
      2:{ eexists. split; [reflexivity | split; reflexivity]. }
      rewrite bind_ret.
      destruct (get (Some j) "code") as [e | code] eqn:Hcode.
      { rewrite bind_lift_inl.
        assert (He : err_status e = undefined /\ instanceofGenError e = None).
        { unfold get in Hcode. destruct j; try discriminate.
          injection Hcode as <-. split; reflexivity. }
        destruct He as [He1 He2]. exists e.
        unfold try_catch, throw, bind, QwenAdapter.rescue. cbn.
        rewrite He2. cbn. now repeat split. }
      rewrite bind_lift_inr.
      destruct (strictEqStr code "InvalidParameter"); [reflexivity |].
      eexists. split; [reflexivity | split; reflexivity].
  - (* any other status *)
    intros H400 H401 H404 H429.
    apply Z.eqb_neq in H400, H401, H404, H429.
    clear Hout. destruct v; simpl.
    + unfold DoubaoAdapter.respond, DoubaoAdapter.rejected.
      rewrite Hok, H400, H401, H404, H429. simpl.
      eexists. repeat split.
    + unfold QwenAdapter.respond, QwenAdapter.rejected.
      rewrite Hok, H400, H401, H404, H429. simpl.
      eexists. repeat split.
  - exact Htrace.
  - now rewrite Htrace.
Qed.

(** C1 at work: Doubao is answered 401; Qwen is answered 400 with the
    content-policy code, and 400 without it. *)
Lemma C1_witness :
  (doParseSettings Sample.refusing [] (schemaOf DoubaoV) = inr Sample.parsed
   /\ precheck DoubaoV Sample.request = inr tt
   /\ fetch Sample.refusing Sample.doubaoUrl Sample.doubaoInit = inr Sample.unauthorized
   /\ ok Sample.unauthorized = false
   /\ outcome (generateBy DoubaoV Sample.refusing Sample.request [])
      = inr (failed CONFIG_ERROR)
   /\ trace (generateBy DoubaoV Sample.refusing Sample.request [])
      = [HttpPost Sample.doubaoUrl Sample.doubaoInit])
  /\ (doParseSettings Sample.censoring [] (schemaOf QwenV) = inr Sample.parsed
      /\ precheck QwenV Sample.request = inr tt
      /\ fetch Sample.censoring Sample.qwenUrl Sample.qwenInit = inr Sample.badRequest
      /\ ok Sample.badRequest = false
      /\ outcome (generateBy QwenV Sample.censoring Sample.request [])
         = inr (failed PROMPT_FLAGGED)
      /\ trace (generateBy QwenV Sample.censoring Sample.request [])
         = [HttpPost Sample.qwenUrl Sample.qwenInit])
  /\ (carriesPolicyCode Sample.rejecting Sample.badRequest = false
      /\ exists e, outcome (generateBy QwenV Sample.rejecting Sample.request []) = inl e
                   /\ err_status e = undefined /\ instanceofGenError e = None).
Proof.
  split; [| split].
  - split; [reflexivity |]. split; [reflexivity |]. split; [reflexivity |].
    split; [reflexivity |].
    split.
    + apply (C1_error_classification DoubaoV Sample.refusing Sample.request []
               Sample.parsed Sample.unauthorized eq_refl eq_refl eq_refl eq_refl).
      left; reflexivity.
    + apply (C1_error_classification DoubaoV Sample.refusing Sample.request []
               Sample.parsed Sample.unauthorized eq_refl eq_refl eq_refl eq_refl).
  - split; [reflexivity |]. split; [reflexivity |]. split; [reflexivity |].
    split; [reflexivity |].
    split.
    + exact (proj1 (proj2 (proj2
               (C1_error_classification QwenV Sample.censoring Sample.request []
                  Sample.parsed Sample.badRequest eq_refl eq_refl eq_refl eq_refl)))
               eq_refl).
    + apply (C1_error_classification QwenV Sample.censoring Sample.request []
               Sample.parsed Sample.badRequest eq_refl eq_refl eq_refl eq_refl).
  - split; [reflexivity |].
    exact (proj1 (proj2 (proj2
             (C1_error_classification QwenV Sample.rejecting Sample.request []
                Sample.parsed Sample.badRequest eq_refl eq_refl eq_refl eq_refl)))
             eq_refl).
Defined.

(* ===================================================================== *)
(** ** Quiet runs *)
(* ===================================================================== *)

Lemma trace_bind {A B} (m : M A) (k : A -> M B) :
  trace (bind m k)
  = match outcome m with
    | inl _ => trace m
    | inr a => (trace m ++ trace (k a))%list
    end.
Proof.
  destruct m as [t [e | a]]; simpl; [reflexivity |].
  unfold bind. destruct (k a); reflexivity.
Qed.

Lemma outcome_bind {A B} (m : M A) (k : A -> M B) :
  outcome (bind m k)
  = match outcome m with
    | inl e => inl e
    | inr a => outcome (k a)
    end.
Proof.
  destruct m as [t [e | a]]; simpl; [reflexivity |].
  unfold bind. destruct (k a); reflexivity.
Qed.

Lemma trace_try_catch {A} (m : M A) (h : JsError -> M A) :
  trace (try_catch m h)
  = match outcome m with
    | inl e => (trace m ++ trace (h e))%list
    | inr _ => trace m
    end.
Proof.
  destruct m as [t [e | a]]; simpl; [| reflexivity].
  unfold try_catch. destruct (h e); reflexivity.
Qed.

Lemma outcome_try_catch {A} (m : M A) (h : JsError -> M A) :
  outcome (try_catch m h)
  = match outcome m with
    | inl e => outcome (h e)
    | inr a => inr a
    end.
Proof.
  destruct m as [t [e | a]]; simpl; [| reflexivity].
  unfold try_catch. destruct (h e); reflexivity.
Qed.

Lemma get_homemade (v : value) (k : string) (e : JsError) :
  get v k = inl e -> homemade e.
Proof.
  destruct v as [[ | | | | | ] |]; simpl; intros [= <-]; split; reflexivity.
Qed.

Lemma startsWith_homemade (v : value) (p : string) (e : JsError) :
  startsWith v p = inl e -> homemade e.
Proof.
  destruct v as [[ | | | | | ] |]; simpl; intros [= <-]; split; reflexivity.
Qed.

Lemma iterate_homemade (v : value) (e : JsError) :
  iterate v = inl e -> homemade e.
Proof.
  destruct v as [[ | | | | | ] |]; simpl; intros [= <-]; split; reflexivity.
Qed.

Section Tame.

Context {A B : Type}.

Lemma tame_ret (P : A -> Prop) (a : A) : P a -> tame P (ret a).
Proof. intros H _. exact H. Qed.

Lemma tame_throw (P : A -> Prop) (e : JsError) : homemade e -> tame P (throw e).
Proof. intros H _. exact H. Qed.

Lemma tame_loud (P : A -> Prop) (m : M A) :
  existsb imageWork (trace m) = true -> tame P m.
Proof. intros H Hq. unfold quiet in Hq. congruence. Qed.

Lemma tame_lift (P : A -> Prop) (r : JsError + A) :
  (forall e, r = inl e -> homemade e) -> (forall a, r = inr a -> P a) ->
  tame P (lift r).
Proof. intros He Ha _. destruct r; simpl; auto. Qed.

Lemma tame_bind (Q : A -> Prop) (P : B -> Prop) (m : M A) (k : A -> M B) :
  tame Q m -> (forall a, Q a -> tame P (k a)) -> tame P (bind m k).
Proof.
  intros Hm Hk Hq. unfold quiet in Hq. rewrite trace_bind in Hq.
  rewrite outcome_bind. unfold tame, quiet in Hm.
  destruct (outcome m) as [e | a].
  - now apply Hm.
  - rewrite existsb_app in Hq. apply orb_false_iff in Hq as [Hq1 Hq2].
    apply (Hk a); [now apply Hm | exact Hq2].
Qed.

End Tame.

Lemma tame_get {B} (P : B -> Prop) (v : value) (key : string) (k : value -> M B) :
  (forall x, tame P (k x)) -> tame P (bind (lift (get v key)) k).
Proof.
  intros Hk. apply (tame_bind (fun _ => True)); [| intros; apply Hk].
  apply tame_lift; [apply get_homemade | trivial].
Qed.

Lemma callBase64_loud (W : World) (P : slot -> Prop) (payload : value) :
  tame P (callBase64 W payload).
Proof.
  apply tame_loud. unfold callBase64. rewrite bind_tell, trace_prepend. reflexivity.
Qed.

Lemma callFetchUrl_loud (W : World) (src : value) :
  existsb imageWork (trace (callFetchUrl W src)) = true.
Proof. unfold callFetchUrl. rewrite bind_tell, trace_prepend. reflexivity. Qed.

Lemma try_fetch_loud (W : World) (P : slot -> Prop) (src : value)
      (h : JsError -> M slot) :
  tame P (try_catch (callFetchUrl W src) h).
Proof.
  apply tame_loud. rewrite trace_try_catch.
  destruct (outcome (callFetchUrl W src)).
  - rewrite existsb_app, callFetchUrl_loud. reflexivity.
  - apply callFetchUrl_loud.
Qed.

Lemma doubao_resolveImage_tame (W : World) (image : value) :
  tame notUri (DoubaoAdapter.resolveImage W image).
Proof.
  unfold DoubaoAdapter.resolveImage.
  apply tame_get; intros b64_json.
  destruct (truthy b64_json); [apply callBase64_loud |].
  apply tame_get; intros url.
  destruct (truthy url); [apply try_fetch_loud |].
  apply tame_get; intros image_url.
  destruct (truthy image_url); [apply try_fetch_loud |].
  apply tame_get; intros base64.
  destruct (truthy base64); [apply callBase64_loud |].
  now apply tame_ret.
Qed.

Lemma contentLoop_cons (W : World) (item : json) (rest : list json) :
  QwenAdapter.contentLoop W (item :: rest) =
  (img <- lift (get (Some item) "image") ;;
   if truthy img then
     http <- lift (startsWith img "http") ;;
     if (http : bool)
     then (r <- QwenAdapter.fetchOrNull W img ;; ret (Some r))
     else (r <- callBase64 W img ;; ret (Some r))
   else
     image_url <- lift (get (Some item) "image_url") ;;
     if truthy image_url
     then (r <- QwenAdapter.fetchOrNull W image_url ;; ret (Some r))
     else QwenAdapter.contentLoop W rest)%js.
Proof. reflexivity. Qed.

Lemma qwen_contentLoop_tame (W : World) (content : list json) :
  tame (fun r => r = None) (QwenAdapter.contentLoop W content).
Proof.
  induction content as [| item rest IH].
  - now apply tame_ret.
  - rewrite contentLoop_cons.
    apply tame_get; intros img.
    destruct (truthy img).
    + apply (tame_bind (fun _ => True)).
      * apply tame_lift; [apply startsWith_homemade | trivial].
      * intros [|] _.
        -- apply (tame_bind (fun _ => False)); [apply try_fetch_loud | intros ? []].
        -- apply (tame_bind (fun _ => False)); [apply callBase64_loud | intros ? []].
    + apply tame_get; intros image_url.
      destruct (truthy image_url); [| exact IH].
      apply (tame_bind (fun _ => False)); [apply try_fetch_loud | intros ? []].
Qed.

Lemma qwen_resolveImage_tame (W : World) (image : value) :
  tame notUri (QwenAdapter.resolveImage W image).
Proof.
  unfold QwenAdapter.resolveImage.
  apply tame_get; intros message.
  apply (tame_bind (fun _ => True)).
  { destruct (truthy message); [| now apply tame_ret].
    apply tame_lift; [apply get_homemade | trivial]. }
  intros content _.
  apply (tame_bind (fun r => r = None)).
  { destruct (truthy message && truthy content); [| now apply tame_ret].
    apply (tame_bind (fun _ => True)).
    - apply tame_lift; [apply iterate_homemade | trivial].
    - intros items _. apply qwen_contentLoop_tame. }
  intros early ->.
  apply tame_get; intros b64_json.
  destruct (truthy b64_json); [apply callBase64_loud |].
  apply tame_get; intros url.
  destruct (truthy url); [apply try_fetch_loud |].
  apply tame_get; intros image_url.
  destruct (truthy image_url); [apply try_fetch_loud |].
  apply tame_get; intros base64.
  destruct (truthy base64); [apply callBase64_loud |].
  now apply tame_ret.
Qed.

Lemma resolveImageBy_tame (v : Vendor) (W : World) (image : value) :
  tame notUri (resolveImageBy v W image).
Proof. destruct v; [apply doubao_resolveImage_tame | apply qwen_resolveImage_tame]. Qed.

Lemma promise_all_cons {A} (p : M A) (rest : list (M A)) :
  trace (promise_all (p :: rest)) = (trace p ++ trace (promise_all rest))%list
  /\ outcome (promise_all (p :: rest))
     = match outcome p, outcome (promise_all rest) with
       | inl e, _ => inl e
       | inr _, inl e => inl e
       | inr a, inr l => inr (a :: l)
       end.
Proof.
  destruct p as [t r]. simpl. destruct (promise_all rest) as [t' rs]. now split.
Qed.

Lemma promise_all_tame (ps : list (M slot)) :
  (forall p, In p ps -> tame notUri p) ->
  tame (fun results => filterBoolean results = []) (promise_all ps).
Proof.
  induction ps as [| p rest IH]; intros Hps.
  - now apply tame_ret.
  - intros Hq. unfold quiet in Hq.
    destruct (promise_all_cons p rest) as [Ht Ho]. rewrite Ht in Hq. rewrite Ho.
    rewrite existsb_app in Hq. apply orb_false_iff in Hq as [Hq1 Hq2].
    assert (Hp := Hps p (or_introl eq_refl) Hq1).
    assert (Hrest := IH (fun q Hin => Hps q (or_intror Hin)) Hq2).
    destruct (outcome p) as [e | a]; [exact Hp |].
    destruct (outcome (promise_all rest)) as [e | l]; [exact Hrest |].
    destruct a; simpl in *; [contradiction | exact Hrest | exact Hrest].
Qed.

Lemma responseJson_tame (W : World) (response : Response) :
  tame (fun _ => True) (responseJson W response).
Proof.
  unfold responseJson. destruct (JSON_parse W (text response)).
  - now apply tame_ret.
  - apply tame_throw. split; reflexivity.
Qed.

Lemma doubao_imageData_tame (generateResult : value) :
  tame (fun _ => True) (DoubaoAdapter.imageData generateResult).
Proof.
  unfold DoubaoAdapter.imageData.
  destruct (isArray generateResult); [now apply tame_ret |].
  apply tame_get; intros data.
  destruct (truthy data && isArray data); [now apply tame_ret |].
  apply tame_get; intros imgs.
  destruct (truthy imgs && isArray imgs); [now apply tame_ret |].
  apply tame_get; intros output.
  destruct (truthy output && isArray output); now apply tame_ret.
Qed.

Lemma qwen_entries_tame (generateResult : value) :
  tame (fun _ => True) (entriesBy QwenV generateResult).
Proof.
  assert (Hmap : forall data, tame (fun _ : list json => True) (QwenAdapter.entriesOf data)).
  { intros [[ | | | | | ] |]; first [now apply tame_ret | apply tame_throw; split; reflexivity]. }
  simpl. unfold QwenAdapter.imageData.
  assert (Hsub : forall output key, tame (fun _ : value => True)
            (if truthy output then lift (get output key) else ret undefined)).
  { intros output key. destruct (truthy output); [| now apply tame_ret].
    apply tame_lift; [apply get_homemade | trivial]. }
  apply (tame_bind (fun _ => True)); [| intros data _; apply Hmap].
  apply tame_get; intros output.
  apply (tame_bind (fun _ => True)); [apply Hsub | intros choices _].
  destruct (truthy output && truthy choices && isArray choices); [now apply tame_ret |].
  apply (tame_bind (fun _ => True)); [apply Hsub | intros outputImages _].
  destruct (truthy output && truthy outputImages); [now apply tame_ret |].
  apply tame_get; intros data.
  destruct (truthy data && isArray data); [now apply tame_ret |].
  apply tame_get; intros imgs.
  destruct (truthy imgs && isArray imgs); now apply tame_ret.
Qed.

Lemma entriesBy_tame (v : Vendor) (generateResult : value) :
  tame (fun _ => True) (entriesBy v generateResult).
Proof. destruct v; [apply doubao_imageData_tame | apply qwen_entries_tame]. Qed.

Lemma bind_assoc {A B C} (m : M A) (k : A -> M B) (h : B -> M C) :
  bind (bind m k) h = bind m (fun a => bind (k a) h).
Proof.
  destruct m as [t [e | a]]; [reflexivity |].
  unfold bind. destruct (k a) as [t1 [e | b]]; [reflexivity |].
  destruct (h b) as [t2 r]. now rewrite app_assoc.
Qed.

(** The 2xx branch of both adapters, in one shape. *)
Lemma normalize_shape (v : Vendor) (W : World) (response : Response) :
  ok response = true ->
  respondBy v W response =
  (generateResult <- responseJson W response ;;
   entries <- entriesBy v generateResult ;;
   results <- promise_all (map (fun image => resolveImageBy v W (Some image)) entries) ;;
   ret {| images := filterBoolean results; errorReason := None |})%js.
Proof.
  intros Hok. destruct v; simpl.
  - unfold DoubaoAdapter.respond. rewrite Hok. reflexivity.
  - unfold QwenAdapter.respond. rewrite Hok. unfold QwenAdapter.normalize. simpl.
    assert (E : forall k1 k2 : value -> M GenerateResult,
               (forall x, k1 x = k2 x) ->
               forall m, bind m k1 = bind m k2).
    { intros k1 k2 Hk [t [e | a]]; simpl; [reflexivity | now rewrite Hk]. }
    apply E. intros gr. now rewrite bind_assoc.
Qed.

(* ===================================================================== *)
(** ** What a call can return *)
(* ===================================================================== *)

Lemma normalize_tame (v : Vendor) (W : World) (response : Response) :
  ok response = true ->
  tame (fun r => r = {| images := []; errorReason := None |}) (respondBy v W response).
Proof.
  intros Hok. rewrite (normalize_shape _ _ _ Hok).
  apply (tame_bind (fun _ => True)); [apply responseJson_tame | intros gr _].
  apply (tame_bind (fun _ => True)); [apply entriesBy_tame | intros entries _].
  apply (tame_bind (fun results => filterBoolean results = [])).
  - apply promise_all_tame. intros p Hin. apply in_map_iff in Hin as (x & <- & _).
    apply resolveImageBy_tame.
  - intros results Hres. apply tame_ret. now rewrite Hres.
Qed.

Lemma rescue_homemade (v : Vendor) (e : JsError) :
  homemade e -> rescueBy v e = throw e.
Proof.
  intros [Hs Hg]. destruct v; simpl.
  - unfold DoubaoAdapter.rescue. now rewrite Hs.
  - unfold QwenAdapter.rescue. now rewrite Hg.
Qed.

(** Whatever the [catch] block returns has no images. *)
Lemma rescue_returns (v : Vendor) (e : JsError) (r : GenerateResult) :
  outcome (rescueBy v e) = inr r -> images r = [].
Proof.
  destruct v; simpl.
  - unfold DoubaoAdapter.rescue.
    destruct (strictEqNum (err_status e) 401 || strictEqNum (err_status e) 404);
      simpl; [now intros [= <-] | discriminate].
  - unfold QwenAdapter.rescue.
    destruct (instanceofGenError e); simpl; [now intros [= <-] | discriminate].
Qed.

Lemma bind_returns {A B} (m : M A) (k : A -> M B) (b : B) :
  outcome (bind m k) = inr b ->
  exists a, outcome m = inr a /\ outcome (k a) = inr b.
Proof.
  rewrite outcome_bind. destruct (outcome m) as [e | a]; [discriminate |].
  intros H. now exists a.
Qed.

(** Whatever the [try] block returns after the response has no images or
    no error reason. *)
Lemma respond_returns (v : Vendor) (W : World) (response : Response)
      (r : GenerateResult) :
  outcome (respondBy v W response) = inr r ->
  images r = [] \/ errorReason r = None.
Proof.
  destruct (ok response) eqn:Hok.
  - rewrite (normalize_shape _ _ _ Hok). intros H.
    apply bind_returns in H as (gr & _ & H).
    apply bind_returns in H as (entries & _ & H).
    apply bind_returns in H as (results & _ & H).
    injection H as <-. now right.
  - intros H. left. revert H. destruct v; simpl.
    + unfold DoubaoAdapter.respond, DoubaoAdapter.rejected. rewrite Hok. simpl.
      destruct ((status response =? 401) || (status response =? 404));
        [now intros [= <-] |].
      destruct (status response =? 429); [now intros [= <-] |].
      destruct (status response =? 400); [now intros [= <-] | discriminate].
    + unfold QwenAdapter.respond, QwenAdapter.rejected. rewrite Hok. simpl.
      destruct ((status response =? 401) || (status response =? 404)); [discriminate |].
      destruct (status response =? 429); [discriminate |].
      rewrite outcome_bind.
      destruct (outcome _) as [e | []]; discriminate.
Qed.

(** Every result a call returns has no images or no error reason. *)
Lemma generate_returns (v : Vendor) (W : World) (request : GenerateRequest)
      (st : ApiProviderSettings) (r : GenerateResult) :
  outcome (generateBy v W request st) = inr r ->
  images r = [] \/ errorReason r = None.
Proof.
  assert (Hafter : forall url init,
            outcome (prepend [HttpPost url init]
                       (match fetch W url init with
                        | inl e => rescueBy v e
                        | inr response =>
                            try_catch (respondBy v W response) (rescueBy v)
                        end)) = inr r ->
            images r = [] \/ errorReason r = None).
  { intros url init. rewrite outcome_prepend.
    destruct (fetch W url init) as [e | response].
    - intros H. left. now apply rescue_returns in H.
    - rewrite outcome_try_catch.
      destruct (outcome (respondBy v W response)) as [e | a] eqn:Hresp.
      + intros H. left. now apply rescue_returns in H.
      + intros [= <-]. now apply respond_returns in Hresp. }
  destruct v; simpl; unfold DoubaoAdapter.generate.
  - rewrite doubao_stages.
    destruct (doParseSettings W st _) as [e | parsed]; [discriminate |].
    destruct (findModel _ _) as [e | m].
    { intros H. left. now apply (rescue_returns DoubaoV) in H. }
    destruct (chooseAblility _ _) as [e | a].
    { intros H. left. now apply (rescue_returns DoubaoV) in H. }
    apply (Hafter _ _).
  - rewrite qwen_stages.
    destruct (doParseSettings W st _) as [e | parsed].
    { intros H. left. now apply (rescue_returns QwenV) in H. }
    apply (Hafter _ _).
Qed.


(* ===================================================================== *)
(** ** C7, C8, C5: the request body *)
(* ===================================================================== *)

Lemma lookup_app (key : string) (l1 l2 : list (string * json)) :
  lookup key (l1 ++ l2)
  = match lookup key l1 with
    | Some j => Some j
    | None => lookup key l2
    end.
Proof.
  induction l1 as [| [k j] l1 IH]; simpl; [reflexivity |].
  destruct (k =? key)%string; [reflexivity | exact IH].
Qed.

Lemma lookup_prop (key k : string) (v : value) :
  lookup key (prop k v) = if (k =? key)%string then v else None.
Proof.
  destruct v as [j |]; simpl; destruct (k =? key)%string; reflexivity.
Qed.

(** The fields of the Doubao request body that depend on the request. *)
Lemma doubao_body_fields (request : GenerateRequest) :
  let b := Some (DoubaoAdapter.requestBody request) in
  getOpt b "size" = DoubaoAdapter.requestSize request
  /\ getOpt b "sequential_image_generation"
     = Some (JStr (if manyRequested request then "auto" else "disabled"))
  /\ getOpt b "sequential_image_generation_options" = DoubaoAdapter.batchOptions request
  /\ getOpt b "image" = DoubaoAdapter.inputImages request.
Proof.
  unfold DoubaoAdapter.requestBody, getOpt.
  repeat split; rewrite !lookup_app, !lookup_prop; simpl.
  - now destruct (DoubaoAdapter.requestSize request).
  - reflexivity.
  - now destruct (DoubaoAdapter.batchOptions request).
  - reflexivity.
Qed.

Lemma qwen_body_size (request : GenerateRequest) :
  sizeField QwenV (QwenAdapter.requestBody request) = QwenAdapter.requestSize request.
Proof.
  unfold sizeField, QwenAdapter.requestBody, getOpt.
  rewrite !lookup_app, !lookup_prop. simpl.
  now destruct (QwenAdapter.requestSize request).
Qed.

Lemma sizeField_requestBody (v : Vendor) (request : GenerateRequest) :
  sizeField v (requestBodyBy v request)
  = match aspectRatioGiven request with
    | Some ar => sizeOf (sizeTable v) ar
    | None => Some (defaultSize v)
    end.
Proof.
  destruct v.
  - exact (proj1 (doubao_body_fields request)).
  - apply qwen_body_size.
Qed.

Lemma sizeOf_table (v : Vendor) (ar s : string) :
  In (ar, s) (sizeTable v) -> ar <> "" /\ sizeOf (sizeTable v) ar = Some (JStr s).
Proof.
  destruct v; simpl; intros H;
    repeat (destruct H as [[= <- <-] | H]; [split; [discriminate | reflexivity] |]);
    contradiction.
Qed.

(** C7. A call whose settings parse and whose checks pass posts a body
    whose size is the table's string for every aspect ratio of the
    adapter's table (Doubao 16:9 gives 2560x1440, Qwen 16:9 gives
    1792*1024); every aspect ratio a model of the catalog supports is in
    the table; and without an aspect ratio Doubao sends [null] and Qwen
    sends 1024*1024. *)
Theorem C7_size_from_table
        (v : Vendor) (W : World) (request : GenerateRequest)
        (st : ApiProviderSettings) (parsed : ParsedSettings) :
  doParseSettings W st (schemaOf v) = inr parsed ->
  precheck v request = inr tt ->
  exists init,
    posted (generateBy v W request st) = Some (baseURL parsed ++ endpoint v, init)
    /\ (forall ar s,
          req_aspectRatio request = Some ar -> In (ar, s) (sizeTable v) ->
          sizeField v (body init) = Some (JStr s))
    /\ (req_aspectRatio request = None ->
        sizeField v (body init) = Some (defaultSize v))
    /\ (forall m ar,
          In m (models (catalog v)) -> In ar (supportedAspectRatios m) ->
          exists s, In (ar, s) (sizeTable v))
    /\ In ("16:9", "2560x1440") (sizeTable DoubaoV)
    /\ In ("16:9", "1792*1024") (sizeTable QwenV).
Proof.
  intros Hparse Hcheck.
  exists (postInit parsed (requestBodyBy v request)).
  split.
  { rewrite (generate_sends _ _ _ _ _ Hparse Hcheck). apply posted_prepend. }
  cbn [body postInit]. rewrite sizeField_requestBody. unfold aspectRatioGiven.
  split; [| split; [| split; [| split]]].
  - intros ar s Har Hin. rewrite Har.
    destruct (sizeOf_table _ _ _ Hin) as [Hne Hsize].
    apply String.eqb_neq in Hne. now rewrite Hne.
  - now intros ->.
  - intros m ar Hm Har.
    destruct v; simpl in Hm;
      repeat (destruct Hm as [<- | Hm]; simpl in Har;
              [ repeat (destruct Har as [<- | Har];
                        [eexists; simpl; eauto 10 |]); contradiction |]);
      contradiction.
  - simpl; auto.
  - simpl; auto.
Qed.

(** C7 at work: the sample request asks for 16:9, from Doubao and from
    Qwen; the plain request asks Qwen for no aspect ratio. *)
Lemma C7_witness :
  (doParseSettings Sample.refusing [] (schemaOf DoubaoV) = inr Sample.parsed
   /\ precheck DoubaoV Sample.request = inr tt
   /\ exists init,
        posted (generateBy DoubaoV Sample.refusing Sample.request [])
        = Some (Sample.doubaoUrl, init)
        /\ sizeField DoubaoV (body init) = Some (JStr "2560x1440"))
  /\ (doParseSettings Sample.refusing [] (schemaOf QwenV) = inr Sample.parsed
      /\ precheck QwenV Sample.request = inr tt
      /\ exists init,
           posted (generateBy QwenV Sample.refusing Sample.request [])
           = Some (Sample.qwenUrl, init)
           /\ sizeField QwenV (body init) = Some (JStr "1792*1024"))
  /\ (precheck QwenV Sample.plainRequest = inr tt
      /\ exists init,
           posted (generateBy QwenV Sample.refusing Sample.plainRequest [])
           = Some (Sample.qwenUrl, init)
           /\ sizeField QwenV (body init) = Some (JStr "1024*1024")).
Proof.
  split; [| split].
  - split; [reflexivity |]. split; [reflexivity |].
    destruct (C7_size_from_table DoubaoV Sample.refusing Sample.request []
                Sample.parsed eq_refl eq_refl) as (init & Hpost & Htable & _).
    exists init. split; [exact Hpost |].
    apply (Htable "16:9"); [reflexivity | simpl; auto].
  - split; [reflexivity |]. split; [reflexivity |].
    destruct (C7_size_from_table QwenV Sample.refusing Sample.request []
                Sample.parsed eq_refl eq_refl) as (init & Hpost & Htable & _).
    exists init. split; [exact Hpost |].
    apply (Htable "16:9"); [reflexivity | simpl; auto].
  - split; [reflexivity |].
    destruct (C7_size_from_table QwenV Sample.refusing Sample.plainRequest []
                Sample.parsed eq_refl eq_refl) as (init & Hpost & _ & Hdefault & _).
    exists init. split; [exact Hpost |].
    exact (Hdefault eq_refl).
Defined.

(** C8. Doubao with [n] absent, 0 or 1 sends
    [sequential_image_generation: "disabled"] and no options field; with
    [n > 1] it sends ["auto"] and [max_images = min(n, 15)]. *)
Theorem C8_doubao_batching
        (W : World) (request : GenerateRequest)
        (st : ApiProviderSettings) (url : string) (init : RequestInit) :
  posted (DoubaoAdapter.generate W request st) = Some (url, init) ->
  (req_n request = None \/ req_n request = Some 0 \/ req_n request = Some 1 ->
     getOpt (Some (body init)) "sequential_image_generation" = Some (JStr "disabled")
     /\ getOpt (Some (body init)) "sequential_image_generation_options" = undefined)
  /\ (forall k, req_n request = Some k -> 1 < k ->
        getOpt (Some (body init)) "sequential_image_generation" = Some (JStr "auto")
        /\ getOpt (Some (body init)) "sequential_image_generation_options"
           = Some (JObj [("max_images", JNum (Z.min k 15))])).
Proof.
  intros Hpost. destruct (posted_inv DoubaoV _ _ _ _ _ Hpost) as [Hbody _].
  simpl in Hbody. rewrite Hbody.
  destruct (doubao_body_fields request) as (_ & Hseq & Hopt & _).
  cbv zeta in Hseq, Hopt. rewrite Hseq, Hopt.
  unfold DoubaoAdapter.batchOptions, manyRequested. split.
  - intros [-> | [-> | ->]]; split; reflexivity.
  - intros k -> Hk.
    assert (Hnz : (k =? 0) = false) by (apply Z.eqb_neq; lia).
    assert (Hgt : (1 <? k) = true) by (apply Z.ltb_lt; lia).
    rewrite Hnz, Hgt. split; reflexivity.
Qed.

(** C8 at work: the sample request asks Doubao for four images. *)
Lemma C8_witness :
  (posted (DoubaoAdapter.generate Sample.refusing Sample.request [])
   = Some (Sample.doubaoUrl, Sample.doubaoInit)
   /\ req_n Sample.request = Some 4 /\ 1 < 4)
  /\ getOpt (Some (body Sample.doubaoInit)) "sequential_image_generation" = Some (JStr "auto")
  /\ getOpt (Some (body Sample.doubaoInit)) "sequential_image_generation_options"
     = Some (JObj [("max_images", JNum 4)]).
Proof.
  split; [split; [reflexivity | split; [reflexivity | lia]] |].
  apply (proj2 (C8_doubao_batching Sample.refusing Sample.request []
                  Sample.doubaoUrl Sample.doubaoInit eq_refl) 4).
  - reflexivity.
  - lia.
Defined.

(** Doubao attaches the input images as [image], and only when there are
    some. *)
Lemma doubao_attaches_images
      (W : World) (request : GenerateRequest)
      (st : ApiProviderSettings) (url : string) (init : RequestInit) :
  posted (DoubaoAdapter.generate W request st) = Some (url, init) ->
  (forall imgs, req_images request = Some imgs -> imgs <> [] ->
     getOpt (Some (body init)) "image" = Some (JArr (map JStr imgs)))
  /\ (hasImages request = false -> getOpt (Some (body init)) "image" = undefined).
Proof.
  intros Hpost. destruct (posted_inv DoubaoV _ _ _ _ _ Hpost) as [Hbody _].
  simpl in Hbody. rewrite Hbody.
  destruct (doubao_body_fields request) as (_ & _ & _ & Himg).
  cbv zeta in Himg. rewrite Himg. unfold DoubaoAdapter.inputImages, hasImages. split.
  - intros imgs -> Hne. now destruct imgs.
  - destruct (req_images request) as [[| i imgs] |]; [reflexivity | discriminate | reflexivity].
Qed.

(** The body Qwen posts does not depend on the input images. *)
Lemma qwen_body_ignores_images (request : GenerateRequest) (imgs : option (list string)) :
  QwenAdapter.requestBody
    (mkRequest (req_modelId request) (req_prompt request) (req_aspectRatio request)
       imgs (req_n request))
  = QwenAdapter.requestBody request.
Proof. reflexivity. Qed.

(** C5, at the failing input. Qwen is given one input image for its
    image-to-image model [qwen-image]; the body it posts carries the model,
    the prompt and the size, and the image nowhere. *)
Theorem C5_qwen_drops_input_images :
  hasImages Sample.editRequest = true
  /\ posted (QwenAdapter.generate Sample.refusing Sample.editRequest [])
     = Some (Sample.qwenUrl,
             postInit Sample.parsed
               (JObj [("model", JStr "qwen-image");
                      ("input",
                       JObj [("messages",
                              JArr [JObj [("role", JStr "user");
                                          ("content",
                                           JArr [JObj [("text", JStr "make the sky red")]])]])]);
                      ("parameters",
                       JObj [("watermark", JBool false); ("size", JStr "1024*1024")])])).
Proof. split; reflexivity. Qed.

(* ===================================================================== *)
(** ** C6: the catalog is consulted before the request is sent *)
(* ===================================================================== *)

(** Doubao: an unknown model or an unsupported ability ends the call
    before anything is sent. *)
Lemma doubao_checks_before_post
      (W : World) (self : AiProvider) (request : GenerateRequest)
      (st : ApiProviderSettings) (parsed : ParsedSettings) :
  doParseSettings W st DoubaoAdapter.doubaoSettingsSchema = inr parsed ->
  (forall e, findModel self (req_modelId request) = inl e ->
     DoubaoAdapter.generateOf W self request st = ([], inl e)
     /\ err_class e = NotFoundErrorC)
  /\ (forall m e, findModel self (req_modelId request) = inr m ->
        chooseAblility request (ability m) = inl e ->
        DoubaoAdapter.generateOf W self request st = ([], inl e)
        /\ err_class e = UnsupportedAbilityErrorC).
Proof.
  intros Hparse. split.
  - intros e Hfind. rewrite doubao_stages, Hparse, Hfind.
    unfold findModel in Hfind. destruct (find _ _); [discriminate |].
    injection Hfind as <-. split; reflexivity.
  - intros m e Hfind Hab. rewrite doubao_stages, Hparse, Hfind, Hab.
    unfold chooseAblility in Hab.
    destruct (hasImages request); [| discriminate].
    destruct (ability m); [| discriminate].
    injection Hab as <-. split; reflexivity.
Qed.

(** C6, at the failing inputs. Qwen is asked for a model its catalog does
    not list, and is given input images for its text-to-image model: the
    lookup and the ability check would fail, yet the request is sent and
    the call ends with what the vendor answered. *)
Theorem C6_qwen_skips_catalog :
  (exists e, findModel QwenAdapter.Qwen (req_modelId Sample.strayRequest) = inl e
             /\ err_class e = NotFoundErrorC)
  /\ QwenAdapter.generate Sample.refusing Sample.strayRequest []
     = ([HttpPost Sample.qwenUrl
           (postInit Sample.parsed (QwenAdapter.requestBody Sample.strayRequest))],
        inr (failed CONFIG_ERROR))
  /\ (exists m e, findModel QwenAdapter.Qwen (req_modelId Sample.misfitRequest) = inr m
                  /\ chooseAblility Sample.misfitRequest (ability m) = inl e
                  /\ err_class e = UnsupportedAbilityErrorC)
  /\ QwenAdapter.generate Sample.refusing Sample.misfitRequest []
     = ([HttpPost Sample.qwenUrl
           (postInit Sample.parsed (QwenAdapter.requestBody Sample.misfitRequest))],
        inr (failed CONFIG_ERROR)).
Proof.
  split; [eexists; split; reflexivity |].
  split; [reflexivity |].
  split; [eexists _, _; repeat split; reflexivity |].
  reflexivity.
Qed.

(* ===================================================================== *)
(** ** C4: the outer catch *)
(* ===================================================================== *)

(** C4 fails as stated: [fetch] throws an error with [status: 401] inside
    Qwen's [try]; the call throws that error on instead of returning
    [CONFIG_ERROR]. And an error without any such status, the [GenError]
    that Qwen throws on a 429, is not thrown on: it comes back as a
    result. *)
Lemma C4_counterexample :
  statusMarker Sample.denied = true
  /\ outcome (QwenAdapter.attempt (Sample.offline Sample.denied) Sample.request [])
     = inl Sample.denied
  /\ outcome (generateBy QwenV (Sample.offline Sample.denied) Sample.request [])
     = inl Sample.denied
  /\ outcome (generateBy QwenV (Sample.offline Sample.denied) Sample.request [])
     <> inr (failed CONFIG_ERROR)
  /\ statusMarker (GenError TOO_MANY_REQUESTS) = false
  /\ outcome (QwenAdapter.attempt Sample.throttling Sample.request [])
     = inl (GenError TOO_MANY_REQUESTS)
  /\ outcome (generateBy QwenV Sample.throttling Sample.request [])
     = inr (failed TOO_MANY_REQUESTS).
Proof. repeat split; try reflexivity. discriminate. Qed.

(** C4, amended. Doubao: an error thrown inside the [try] block that has
    [status] 401 or 404 becomes the result [CONFIG_ERROR] with no images,
    any other error thrown there is thrown on unchanged, and so is an
    error of the settings parser, which runs outside the [try]. Qwen: a
    thrown [GenError] becomes the result with its reason and no images;
    any other thrown error, also one with [status] 401 or 404, is thrown on
    unchanged. *)
Theorem C4_outer_catch
        (W : World) (request : GenerateRequest) (st : ApiProviderSettings)
        (e : JsError) :
  (forall self parsed,
      doParseSettings W st DoubaoAdapter.doubaoSettingsSchema = inr parsed ->
      outcome (DoubaoAdapter.attempt W self parsed request) = inl e ->
      outcome (DoubaoAdapter.generateOf W self request st)
      = if statusMarker e then inr (failed CONFIG_ERROR) else inl e)
  /\ (forall self,
        doParseSettings W st DoubaoAdapter.doubaoSettingsSchema = inl e ->
        outcome (DoubaoAdapter.generateOf W self request st) = inl e)
  /\ (outcome (QwenAdapter.attempt W request st) = inl e ->
      outcome (QwenAdapter.generate W request st)
      = match instanceofGenError e with
        | Some reason => inr {| images := []; errorReason := Some reason |}
        | None => inl e
        end).
Proof.
  split; [| split].
  - intros self parsed Hparse Hthrown.
    unfold DoubaoAdapter.generateOf, DoubaoAdapter.parseSettings.
    rewrite Hparse, bind_lift_inr, outcome_try_catch, Hthrown.
    unfold DoubaoAdapter.rescue. fold (statusMarker e).
    now destruct (statusMarker e).
  - intros self Hparse.
    unfold DoubaoAdapter.generateOf, DoubaoAdapter.parseSettings.
    now rewrite Hparse.
  - intros Hthrown. unfold QwenAdapter.generate.
    rewrite outcome_try_catch, Hthrown. unfold QwenAdapter.rescue.
    now destruct (instanceofGenError e).
Qed.

(** C4 at work: Doubao's [fetch] throws an error with [status: 401]. *)
Lemma C4_witness :
  (doParseSettings (Sample.offline Sample.denied) [] DoubaoAdapter.doubaoSettingsSchema
   = inr Sample.parsed
   /\ outcome (DoubaoAdapter.attempt (Sample.offline Sample.denied) DoubaoAdapter.Doubao
                 Sample.parsed Sample.request)
      = inl Sample.denied)
  /\ outcome (DoubaoAdapter.generateOf (Sample.offline Sample.denied) DoubaoAdapter.Doubao
                Sample.request [])
     = inr (failed CONFIG_ERROR).
Proof.
  split; [split; reflexivity |].
  apply (proj1 (C4_outer_catch (Sample.offline Sample.denied) Sample.request []
                  Sample.denied) DoubaoAdapter.Doubao Sample.parsed);
    reflexivity.
Defined.

(* ===================================================================== *)
(** ** The image callbacks against [pickBy] *)
(* ===================================================================== *)

Lemma get_getOpt (j : json) (key : string) :
  notNull j = true -> get (Some j) key = inr (getOpt (Some j) key).
Proof. destruct j; simpl; intros H; try reflexivity; discriminate. Qed.

Lemma getOpt_falsy (v : value) (key : string) :
  truthy v = false -> getOpt v key = undefined.
Proof. destruct v as [[ | | | | | ] |]; simpl; intros H; try reflexivity; discriminate. Qed.

Lemma get_truthy (v : value) (key : string) :
  truthy v = true -> get v key = inr (getOpt v key).
Proof. destruct v as [[ | | | | | ] |]; simpl; intros H; try reflexivity; discriminate. Qed.

Lemma outcome_callBase64 (W : World) (payload : value) :
  outcome (callBase64 W payload)
  = match base64ToDataURI W payload with
    | inl e => inl e
    | inr s => inr (Uri s)
    end.
Proof.
  unfold callBase64. rewrite bind_tell, outcome_prepend, outcome_bind. simpl.
  now destruct (base64ToDataURI W payload).
Qed.

Lemma outcome_callFetchUrl (W : World) (src : value) :
  outcome (callFetchUrl W src)
  = match fetchUrlToDataURI W src with
    | inl e => inl e
    | inr s => inr (Uri s)
    end.
Proof.
  unfold callFetchUrl. rewrite bind_tell, outcome_prepend, outcome_bind. simpl.
  now destruct (fetchUrlToDataURI W src).
Qed.

(** A fetch inside [try ... catch] never throws: a failure gives [null]. *)
Lemma outcome_fetch_guarded (W : World) (src : value) (h : JsError -> M slot) :
  (forall e, outcome (h e) = inr Null) ->
  outcome (try_catch (callFetchUrl W src) h)
  = inr (match fetchUrlToDataURI W src with
         | inl _ => Null
         | inr s => Uri s
         end).
Proof.
  intros Hh. rewrite outcome_try_catch, outcome_callFetchUrl.
  destruct (fetchUrlToDataURI W src); [apply Hh | reflexivity].
Qed.

Lemma outcome_fetchOrNull (W : World) (src : value) :
  outcome (QwenAdapter.fetchOrNull W src)
  = inr (match fetchUrlToDataURI W src with
         | inl _ => Null
         | inr s => Uri s
         end).
Proof.
  apply outcome_fetch_guarded. intros e. now rewrite bind_tell, outcome_prepend.
Qed.

Lemma kept_fetch (W : World) (src : value) :
  kept (match fetchUrlToDataURI W src with
        | inl _ => Null
        | inr s => Uri s
        end) = downloaded W src.
Proof.
  unfold kept, downloaded, keep. destruct (fetchUrlToDataURI W src) as [e | s]; simpl;
    [reflexivity |]. now destruct (s =? "")%string.
Qed.

Lemma decodes_kept (W : World) (payload : value) :
  decodes W payload = true ->
  exists s, base64ToDataURI W payload = inr s /\ kept (Uri s) = decoded W payload.
Proof.
  unfold decodes, decoded, keep, kept. destruct (base64ToDataURI W payload) as [e | s];
    [discriminate |]. intros _. exists s. split; [reflexivity |].
  simpl. now destruct (s =? "")%string.
Qed.

Ltac decode_case W p H :=
  destruct (decodes_kept W p H) as (?s & ?Hdec & ?Hkept);
  eexists; split; [rewrite outcome_callBase64, Hdec; reflexivity | assumption].

Lemma doubao_resolve_spec (W : World) (entry : json) :
  wfDirect W entry = true ->
  exists r, outcome (DoubaoAdapter.resolveImage W (Some entry)) = inr r
            /\ kept r = pickDirect W (Some entry).
Proof.
  unfold wfDirect, pickDirect, DoubaoAdapter.resolveImage.
  intros H. apply andb_true_iff in H as [Hnn H].
  rewrite (get_getOpt _ "b64_json" Hnn), bind_lift_inr.
  destruct (truthy (getOpt (Some entry) "b64_json")).
  { decode_case W (getOpt (Some entry) "b64_json") H. }
  rewrite (get_getOpt _ "url" Hnn), bind_lift_inr.
  destruct (truthy (getOpt (Some entry) "url")).
  { eexists; split; [now apply outcome_fetch_guarded | apply kept_fetch]. }
  rewrite (get_getOpt _ "image_url" Hnn), bind_lift_inr.
  destruct (truthy (getOpt (Some entry) "image_url")).
  { eexists; split; [now apply outcome_fetch_guarded | apply kept_fetch]. }
  rewrite (get_getOpt _ "base64" Hnn), bind_lift_inr.
  destruct (truthy (getOpt (Some entry) "base64")).
  { decode_case W (getOpt (Some entry) "base64") H. }
  now exists Undefined.
Qed.

Lemma qwen_direct_spec (W : World) (entry : json) :
  wfDirect W entry = true ->
  exists r,
    outcome
      (b64_json <- lift (get (Some entry) "b64_json") ;;
       if truthy b64_json then callBase64 W b64_json else
       url <- lift (get (Some entry) "url") ;;
       if truthy url then QwenAdapter.fetchOrNull W url else
       image_url <- lift (get (Some entry) "image_url") ;;
       if truthy image_url then QwenAdapter.fetchOrNull W image_url else
       base64 <- lift (get (Some entry) "base64") ;;
       if truthy base64 then callBase64 W base64 else
       ret Undefined)%js = inr r
    /\ kept r = pickDirect W (Some entry).
Proof.
  unfold wfDirect, pickDirect.
  intros H. apply andb_true_iff in H as [Hnn H].
  rewrite (get_getOpt _ "b64_json" Hnn), bind_lift_inr.
  destruct (truthy (getOpt (Some entry) "b64_json")).
  { decode_case W (getOpt (Some entry) "b64_json") H. }
  rewrite (get_getOpt _ "url" Hnn), bind_lift_inr.
  destruct (truthy (getOpt (Some entry) "url")).
  { eexists; split; [apply outcome_fetchOrNull | apply kept_fetch]. }
  rewrite (get_getOpt _ "image_url" Hnn), bind_lift_inr.
  destruct (truthy (getOpt (Some entry) "image_url")).
  { eexists; split; [apply outcome_fetchOrNull | apply kept_fetch]. }
  rewrite (get_getOpt _ "base64" Hnn), bind_lift_inr.
  destruct (truthy (getOpt (Some entry) "base64")).
  { decode_case W (getOpt (Some entry) "base64") H. }
  now exists Undefined.
Qed.

Lemma qwen_contentLoop_spec (W : World) (content : list json) :
  wfContent W content = true ->
  exists r, outcome (QwenAdapter.contentLoop W content) = inr r
            /\ option_map kept r = pickContent W content.
Proof.
  induction content as [| item rest IH].
  - intros _. now exists None.
  - intros H. rewrite contentLoop_cons. cbn [wfContent] in H. cbn [pickContent].
    apply andb_true_iff in H as [Hnn H].
    rewrite (get_getOpt _ "image" Hnn), bind_lift_inr.
    destruct (truthy (getOpt (Some item) "image")) eqn:Himg.
    + destruct (getOpt (Some item) "image") as [[ | | | s | | ] |] eqn:Hval;
        try discriminate H.
      simpl startsWith. rewrite bind_lift_inr. simpl startsHttp.
      destruct (String.prefix "http" s).
      * exists (Some (match fetchUrlToDataURI W (Some (JStr s)) with
                      | inl _ => Null
                      | inr u => Uri u
                      end)).
        split; [now rewrite outcome_bind, outcome_fetchOrNull |].
        simpl option_map. now rewrite kept_fetch.
      * destruct (decodes_kept W _ H) as (u & Hdec & Hkept).
        exists (Some (Uri u)).
        split; [now rewrite outcome_bind, outcome_callBase64, Hdec |].
        simpl option_map. now rewrite Hkept.
    + rewrite (get_getOpt _ "image_url" Hnn), bind_lift_inr.
      destruct (truthy (getOpt (Some item) "image_url")).
      * exists (Some (match fetchUrlToDataURI W (getOpt (Some item) "image_url") with
                      | inl _ => Null
                      | inr u => Uri u
                      end)).
        split; [now rewrite outcome_bind, outcome_fetchOrNull |].
        simpl option_map. now rewrite kept_fetch.
      * now apply IH.
Qed.

Lemma content_truthy (entry : json) :
  truthy (contentOf entry) = true ->
  truthy (getOpt (Some entry) "message") = true.
Proof.
  unfold contentOf.
  destruct (truthy (getOpt (Some entry) "message")) eqn:Hm; [reflexivity |].
  now rewrite (getOpt_falsy _ "content" Hm).
Qed.

Lemma qwen_resolve_spec (W : World) (entry : json) :
  wellFormed QwenV W entry = true ->
  exists r, outcome (QwenAdapter.resolveImage W (Some entry)) = inr r
            /\ kept r = pickBy QwenV W entry.
Proof.
  unfold wellFormed, pickBy, QwenAdapter.resolveImage.
  intros H. apply andb_true_iff in H as [Hnn H].
  rewrite (get_getOpt _ "message" Hnn), bind_lift_inr.
  assert (Hcontent :
            (if truthy (getOpt (Some entry) "message")
             then lift (get (getOpt (Some entry) "message") "content")
             else ret undefined) = ret (contentOf entry)).
  { unfold contentOf. destruct (truthy (getOpt (Some entry) "message")) eqn:Hm.
    - now rewrite (get_truthy _ "content" Hm).
    - now rewrite (getOpt_falsy _ "content" Hm). }
  rewrite Hcontent, bind_ret.
  destruct (truthy (contentOf entry)) eqn:Hc.
  - rewrite (content_truthy _ Hc). cbn [andb].
    apply andb_true_iff in H as [H Hrest]. apply andb_true_iff in H as [Harr Hwf].
    destruct (contentOf entry) as [[ | | | | items | ] |]; try discriminate Harr.
    cbn [iterate arrayItems] in *. rewrite bind_lift_inr.
    destruct (qwen_contentLoop_spec W items Hwf) as (early & Hloop & Hpick).
    rewrite outcome_bind, Hloop. rewrite <- Hpick in Hrest |- *.
    destruct early as [r |]; simpl option_map in *.
    + now exists r.
    + now apply qwen_direct_spec.
  - rewrite andb_false_r, bind_ret. now apply qwen_direct_spec.
Qed.

Lemma resolveImageBy_spec (v : Vendor) (W : World) (entry : json) :
  wellFormed v W entry = true ->
  exists r, outcome (resolveImageBy v W (Some entry)) = inr r
            /\ kept r = pickBy v W entry.
Proof.
  destruct v; [apply doubao_resolve_spec | apply qwen_resolve_spec].
Qed.

Lemma filterBoolean_cons (r : slot) (rs : list slot) :
  filterBoolean (r :: rs) = (kept r ++ filterBoolean rs)%list.
Proof. unfold kept, filterBoolean. simpl. now rewrite app_nil_r. Qed.

(** [Promise.all] over well-formed entries returns, and after
    [filter(Boolean)] the images are those of the entries, in order. *)
Lemma promise_all_spec (v : Vendor) (W : World) (entries : list json) :
  forallb (wellFormed v W) entries = true ->
  exists rs,
    outcome (promise_all (map (fun image => resolveImageBy v W (Some image)) entries))
    = inr rs
    /\ filterBoolean rs = flat_map (pickBy v W) entries.
Proof.
  induction entries as [| entry rest IH]; intros Hwf.
  - now exists [].
  - simpl in Hwf. apply andb_true_iff in Hwf as [Hentry Hrest].
    destruct (resolveImageBy_spec v W entry Hentry) as (r & Hr & Hkept).
    destruct (IH Hrest) as (rs & Hrs & Hfilter).
    exists (r :: rs). split.
    + cbn [map]. rewrite (proj2 (promise_all_cons _ _)), Hr, Hrs. reflexivity.
    + rewrite filterBoolean_cons, Hkept, Hfilter. reflexivity.
Qed.

(** A 2xx response whose entries are well formed: the call returns the
    images of the entries, in order, and no error reason. *)
Lemma generate_spec
      (v : Vendor) (W : World) (request : GenerateRequest)
      (st : ApiProviderSettings) (response : Response)
      (generateResult : json) (entries : list json) :
  answered W (generateBy v W request st) response ->
  ok response = true ->
  JSON_parse W (text response) = Some generateResult ->
  outcome (entriesBy v (Some generateResult)) = inr entries ->
  forallb (wellFormed v W) entries = true ->
  outcome (generateBy v W request st)
  = inr {| images := flat_map (pickBy v W) entries; errorReason := None |}.
Proof.
  intros Hans Hok Hparse Hentries Hwf.
  destruct (answered_inv _ _ _ _ _ Hans) as (url & init & _ & Hrun).
  rewrite Hrun, outcome_prepend, outcome_try_catch, (normalize_shape _ _ _ Hok).
  unfold responseJson. rewrite Hparse, bind_ret, outcome_bind, Hentries.
  destruct (promise_all_spec v W entries Hwf) as (rs & Hrs & Hfilter).
  rewrite outcome_bind, Hrs. simpl. now rewrite Hfilter.
Qed.

(* ===================================================================== *)
(** ** C2: images and errorReason exclude each other *)
(* ===================================================================== *)

(** C2. A result returned by either adapter never has both images and an
    error reason: when [errorReason] is set, [images] is the empty list;
    and a 2xx response in which no entry is recognised gives
    [{ images: [], errorReason: undefined }]: whenever the call returns
    and nothing was decoded or fetched, and, as a result the call does
    return, whenever the entries are well formed and none has a field
    that gives an image. *)
Theorem C2_result_invariant
        (v : Vendor) (W : World) (request : GenerateRequest)
        (st : ApiProviderSettings) :
  (forall r,
      outcome (generateBy v W request st) = inr r ->
      (errorReason r <> None -> images r = [])
      /\ (images r <> [] -> errorReason r = None)
      /\ (forall response,
            answered W (generateBy v W request st) response ->
            ok response = true ->
            quiet (generateBy v W request st) ->
            r = {| images := []; errorReason := None |}))
  /\ (forall response generateResult entries,
        answered W (generateBy v W request st) response ->
        ok response = true ->
        JSON_parse W (text response) = Some generateResult ->
        outcome (entriesBy v (Some generateResult)) = inr entries ->
        forallb (wellFormed v W) entries = true ->
        (forall entry, In entry entries -> pickBy v W entry = []) ->
        outcome (generateBy v W request st)
        = inr {| images := []; errorReason := None |}).
Proof.
  split.
  - intros r Hret.
    destruct (generate_returns _ _ _ _ _ Hret) as [Himg | Herr].
    all: split; [| split]; try congruence.
    all: intros response Hans Hok Hquiet.
    all: destruct (answered_inv _ _ _ _ _ Hans) as (url & init & _ & Hrun).
    all: unfold quiet in Hquiet; rewrite Hrun in Hret, Hquiet.
    all: rewrite outcome_prepend, outcome_try_catch in Hret.
    all: rewrite trace_prepend, trace_try_catch in Hquiet; simpl in Hquiet.
    all: pose proof (normalize_tame v W response Hok) as Htame.
    all: unfold tame, quiet in Htame.
    all: destruct (outcome (respondBy v W response)) as [e | a];
      [ rewrite existsb_app in Hquiet; apply orb_false_iff in Hquiet as [Hq _];
        rewrite (rescue_homemade v e (Htame Hq)) in Hret; discriminate
      | injection Hret as <-; now apply Htame ].
  - intros response generateResult entries Hans Hok Hparse Hentries Hwf Hnone.
    rewrite (generate_spec _ _ _ _ _ _ _ Hans Hok Hparse Hentries Hwf).
    do 2 f_equal.
    clear Hentries Hwf. induction entries as [| entry rest IH]; [reflexivity |].
    cbn [flat_map]. rewrite (Hnone entry (or_introl eq_refl)). apply IH.
    intros x Hx. apply Hnone. now right.
Qed.

(** C2 at work: Doubao receives a 2xx body with one unknown entry. *)
Lemma C2_witness :
  (answered Sample.puzzled (generateBy DoubaoV Sample.puzzled Sample.request [])
     Sample.success
   /\ ok Sample.success = true
   /\ JSON_parse Sample.puzzled (text Sample.success) = Some Sample.unknownShape
   /\ outcome (entriesBy DoubaoV (Some Sample.unknownShape))
      = inr [JObj [("revised_prompt", JStr "a cat")]]
   /\ forallb (wellFormed DoubaoV Sample.puzzled)
        [JObj [("revised_prompt", JStr "a cat")]] = true)
  /\ outcome (generateBy DoubaoV Sample.puzzled Sample.request []) = inr Sample.empty.
Proof.
  assert (Hans : answered Sample.puzzled
            (generateBy DoubaoV Sample.puzzled Sample.request []) Sample.success).
  { exists Sample.doubaoUrl, Sample.doubaoInit. split; reflexivity. }
  split; [repeat split; [exact Hans | reflexivity ..] |].
  apply (proj2 (C2_result_invariant DoubaoV Sample.puzzled Sample.request [])
           Sample.success Sample.unknownShape
           [JObj [("revised_prompt", JStr "a cat")]]
           Hans eq_refl eq_refl eq_refl eq_refl).
  intros entry [<- | []]. reflexivity.
Defined.

(* ===================================================================== *)
(** ** C3: how the entries of a response become images *)
(* ===================================================================== *)

(** C3 fails as stated: the entry has a valid [base64] field and an
    [image_url] that cannot be fetched. Doubao fetches the URL, never
    decodes the base64 field, and returns no image. *)
Lemma C3_counterexample :
  base64ToDataURI Sample.shadowing (Some (JStr "QUJD"))
  = inr "data:image/png;base64,QUJD"
  /\ generateBy DoubaoV Sample.shadowing Sample.request []
     = ([HttpPost Sample.doubaoUrl Sample.doubaoInit;
         UrlFetch (Some (JStr "https://cdn.test/gone.png"))],
        inr {| images := []; errorReason := None |}).
Proof. split; reflexivity. Qed.

(** C3, amended. For a 2xx response whose entries are well formed (none is
    [null], the base64 payloads that get decoded are accepted by the
    decoder, and in Qwen's [choices] format [message.content] is an array
    of items whose [image] is a string), the call returns, without error
    reason, the images of the entries in their order, where an entry gives
    the image of its first non-empty field in the order [b64_json], [url],
    [image_url], [base64] (Qwen looks into [message.content] first), gives
    nothing when the fetch of its URL fails, and gives nothing when it has
    none of the fields. In particular a reachable and an unreachable URL
    give exactly one image. *)
Theorem C3_entries_resolved
        (v : Vendor) (W : World) (request : GenerateRequest)
        (st : ApiProviderSettings) (response : Response)
        (generateResult : json) (entries : list json) :
  answered W (generateBy v W request st) response ->
  ok response = true ->
  JSON_parse W (text response) = Some generateResult ->
  outcome (entriesBy v (Some generateResult)) = inr entries ->
  forallb (wellFormed v W) entries = true ->
  outcome (generateBy v W request st)
  = inr {| images := flat_map (pickBy v W) entries; errorReason := None |}
  /\ (forall u1 u2 uri e,
        entries = [JObj [("url", JStr u1)]; JObj [("url", JStr u2)]] ->
        u1 <> "" -> u2 <> "" ->
        fetchUrlToDataURI W (Some (JStr u1)) = inr uri -> uri <> "" ->
        fetchUrlToDataURI W (Some (JStr u2)) = inl e ->
        outcome (generateBy v W request st)
        = inr {| images := [uri]; errorReason := None |}).
Proof.
  intros Hans Hok Hparse Hentries Hwf.
  assert (Hspec := generate_spec _ _ _ _ _ _ _ Hans Hok Hparse Hentries Hwf).
  split; [exact Hspec |].
  intros u1 u2 uri e -> Hu1 Hu2 Hget1 Huri Hget2. rewrite Hspec. do 2 f_equal.
  apply String.eqb_neq in Hu1, Hu2, Huri.
  assert (Hpick : forall u, (u =? "")%string = false ->
            pickBy v W (JObj [("url", JStr u)]) = downloaded W (Some (JStr u))).
  { intros u Hu. destruct v; unfold pickBy, pickDirect, contentOf; simpl; now rewrite Hu. }
  cbn [flat_map]. rewrite (Hpick u1 Hu1), (Hpick u2 Hu2).
  unfold downloaded, keep. now rewrite Hget1, Hget2, Huri.
Qed.

(** C3 at work: Doubao receives a reachable and an unreachable URL. *)
Lemma C3_witness :
  (answered Sample.halfReachable
     (generateBy DoubaoV Sample.halfReachable Sample.request []) Sample.success
   /\ ok Sample.success = true
   /\ JSON_parse Sample.halfReachable (text Sample.success) = Some Sample.mixed
   /\ outcome (entriesBy DoubaoV (Some Sample.mixed))
      = inr [JObj [("url", JStr "https://cdn.test/a.png")];
             JObj [("url", JStr "https://cdn.test/gone.png")]]
   /\ forallb (wellFormed DoubaoV Sample.halfReachable)
        [JObj [("url", JStr "https://cdn.test/a.png")];
         JObj [("url", JStr "https://cdn.test/gone.png")]] = true)
  /\ outcome (generateBy DoubaoV Sample.halfReachable Sample.request [])
     = inr {| images := ["data:image/png;base64,QUJD"]; errorReason := None |}.
Proof.
  assert (Hans : answered Sample.halfReachable
            (generateBy DoubaoV Sample.halfReachable Sample.request []) Sample.success).
  { exists Sample.doubaoUrl, Sample.doubaoInit. split; reflexivity. }
  split; [repeat split; [exact Hans | reflexivity ..] |].
  apply (C3_entries_resolved DoubaoV Sample.halfReachable Sample.request []
           Sample.success Sample.mixed _ Hans eq_refl eq_refl eq_refl eq_refl).
Defined.

(* ===================================================================== *)
(** ** C9: one base64 entry gives its data URI *)
(* ===================================================================== *)

(** C9 fails as stated: the only entry has a valid [base64] field, and a
    [url] that cannot be fetched. Doubao returns no image. *)
Lemma C9_counterexample :
  base64ToDataURI Sample.detouring (Some (JStr "QUJD"))
  = inr "data:image/png;base64,QUJD"
  /\ outcome (entriesBy DoubaoV (Some Sample.detour))
     = inr [JObj [("url", JStr "https://cdn.test/gone.png"); ("base64", JStr "QUJD")]]
  /\ outcome (generateBy DoubaoV Sample.detouring Sample.request [])
     = inr {| images := []; errorReason := None |}.
Proof. repeat split; reflexivity. Qed.

(** The entry whose base64 payload is the one the callback decodes. *)
Lemma payload_decides (v : Vendor) (W : World) (fields : list (string * json))
      (payload : value) (uri : string) :
  (v = QwenV -> truthy (contentOf (JObj fields)) = false) ->
  truthy payload = true ->
  (lookup "b64_json" fields = payload
   \/ (truthy (lookup "b64_json" fields) = false
       /\ truthy (lookup "url" fields) = false
       /\ truthy (lookup "image_url" fields) = false
       /\ lookup "base64" fields = payload)) ->
  base64ToDataURI W payload = inr uri ->
  uri <> "" ->
  wellFormed v W (JObj fields) = true /\ pickBy v W (JObj fields) = [uri].
Proof.
  intros Hdirect Htruthy Hfield Hdecode Huri.
  apply String.eqb_neq in Huri.
  assert (Hd : wfDirect W (JObj fields) = true
               /\ pickDirect W (Some (JObj fields)) = [uri]).
  { unfold wfDirect, pickDirect, decoded, decodes, keep. cbn [notNull getOpt andb].
    destruct Hfield as [Hb | (Hb & Hu & Hi & Hbase)].
    - rewrite Hb, Htruthy, Hdecode, Huri. now split.
    - rewrite Hb, Hu, Hi, Hbase, Htruthy, Hdecode, Huri. now split. }
  destruct v; [exact Hd |].
  unfold wellFormed, pickBy. rewrite (Hdirect eq_refl). exact Hd.
Qed.

(** C9, amended. A 2xx response with exactly one entry whose [b64_json] is
    non-empty, or whose [base64] is non-empty while [b64_json], [url] and
    [image_url] are empty or absent (and, for Qwen, without
    [message.content]), and whose payload the decoder turns into a
    non-empty data URI: the call returns exactly one image, that data
    URI. *)
Theorem C9_base64_roundtrip
        (v : Vendor) (W : World) (request : GenerateRequest)
        (st : ApiProviderSettings) (response : Response)
        (generateResult : json) (fields : list (string * json))
        (payload : value) (uri : string) :
  answered W (generateBy v W request st) response ->
  ok response = true ->
  JSON_parse W (text response) = Some generateResult ->
  outcome (entriesBy v (Some generateResult)) = inr [JObj fields] ->
  (v = QwenV -> truthy (contentOf (JObj fields)) = false) ->
  truthy payload = true ->
  (lookup "b64_json" fields = payload
   \/ (truthy (lookup "b64_json" fields) = false
       /\ truthy (lookup "url" fields) = false
       /\ truthy (lookup "image_url" fields) = false
       /\ lookup "base64" fields = payload)) ->
  base64ToDataURI W payload = inr uri ->
  uri <> "" ->
  outcome (generateBy v W request st)
  = inr {| images := [uri]; errorReason := None |}.
Proof.
  intros Hans Hok Hparse Hentries Hdirect Htruthy Hfield Hdecode Huri.
  destruct (payload_decides v W fields payload uri Hdirect Htruthy Hfield Hdecode Huri)
    as [Hwf Hpick].
  rewrite (generate_spec _ _ _ _ _ _ _ Hans Hok Hparse Hentries).
  - cbn [flat_map]. now rewrite Hpick.
  - cbn [forallb]. now rewrite Hwf.
Qed.

(** C9 at work: Doubao receives one [b64_json] entry. *)
Lemma C9_witness :
  (answered Sample.inlining
     (generateBy DoubaoV Sample.inlining Sample.request []) Sample.success
   /\ ok Sample.success = true
   /\ JSON_parse Sample.inlining (text Sample.success) = Some Sample.inline
   /\ outcome (entriesBy DoubaoV (Some Sample.inline))
      = inr [JObj [("b64_json", JStr "QUJD")]]
   /\ truthy (Some (JStr "QUJD")) = true
   /\ base64ToDataURI Sample.inlining (Some (JStr "QUJD"))
      = inr "data:image/png;base64,QUJD")
  /\ outcome (generateBy DoubaoV Sample.inlining Sample.request [])
     = inr {| images := ["data:image/png;base64,QUJD"]; errorReason := None |}.
Proof.
  assert (Hans : answered Sample.inlining
            (generateBy DoubaoV Sample.inlining Sample.request []) Sample.success).
  { exists Sample.doubaoUrl, Sample.doubaoInit. split; reflexivity. }
  split; [repeat split; [exact Hans | reflexivity ..] |].
  apply (C9_base64_roundtrip DoubaoV Sample.inlining Sample.request []
           Sample.success Sample.inline [("b64_json", JStr "QUJD")]
           (Some (JStr "QUJD")) "data:image/png;base64,QUJD"
           Hans eq_refl eq_refl eq_refl).
  - discriminate.
  - reflexivity.
  - left; reflexivity.
  - reflexivity.
  - discriminate.
Defined.

(* ===================================================================== *)
(** ** C10: the password update *)
(* ===================================================================== *)

Module AuthFacts.

Import AuthService.

(** C10 fails as stated: [verifyPassword] throws; the service returns
    [success: false] with the message and without any [errorCode]. *)
Lemma C10_counterexample :
  updatePassword Sample.brokenServer Sample.change "u-1" Sample.table
  = (inr {| success := false; error := Some "hash backend down"; errorCode := None |},
     Sample.table)
  /\ getOpt (Some (reply_body
                     (fst (updatePasswordRoute Sample.brokenServer "u-1" Sample.change
                             Sample.table)))) "errorCode" = undefined.
Proof. split; reflexivity. Qed.

Lemma selectAccounts_short (E : Env) (db : Db) (uid : string) (a : Account)
      (rest : list Account) :
  selectAccounts E db uid = inr (a :: rest) -> rest = [] /\ userId a = uid.
Proof.
  unfold selectAccounts. destruct (selectFault E); [discriminate |].
  intros [= H].
  assert (Hin : In a (filter (fun a => (userId a =? uid)%string) db)).
  { destruct (filter _ db) as [| x l]; [discriminate |].
    simpl in H. injection H as -> _. now left. }
  apply filter_In in Hin as [_ Heq]. apply String.eqb_eq in Heq.
  split; [| exact Heq].
  destruct (filter _ db) as [| x l]; [discriminate |]. simpl in H. now injection H.
Qed.

(** When the context cannot be had, the service throws and the route
    answers 500. *)
Lemma route_without_context (E : Env) (e : JsError) (uid : string)
      (req : UpdatePasswordRequest) (db : Db) :
  getContext E = Some e ->
  updatePassword E req uid db = (inl e, db)
  /\ reply_status (fst (updatePasswordRoute E uid req db)) = 500
  /\ snd (updatePasswordRoute E uid req db) = db.
Proof.
  intros H. unfold updatePasswordRoute, updatePassword. rewrite H. now repeat split.
Qed.

(** C10, amended. With the context at hand, [updatePassword] always returns
    a result. It writes the password only when the account was found, has a
    password, [verifyPassword] accepted the current password, and the new
    one was hashed; it then returns [success: true]. Otherwise it returns
    [success: false] and leaves the table as it was: with [errorCode]
    [accountNotFound], [socialLoginCannotChangePassword] or
    [currentPasswordIncorrect] on the three checks, and, exactly when one
    of its steps threw (the query, [verifyPassword], [hashPassword] or the
    update), with the message of that error and no [errorCode]. The route
    answers every such failure with status 400 and [code: "error"]. *)
Theorem C10_update_password
        (E : Env) (req : UpdatePasswordRequest) (uid : string) (db : Db) :
  getContext E = None ->
  exists result db',
    updatePassword E req uid db = (inr result, db')
    /\ ((success result = true
         /\ exists a p hashed,
              selectAccounts E db uid = inr [a]
              /\ password a = Some p /\ p <> ""
              /\ verifyPassword E p (currentPassword req) = inr true
              /\ hashPassword E (newPassword req) = inr hashed
              /\ updateAccount E db (account_id a) hashed = inr db')
        \/ (success result = false
            /\ db' = db
            /\ ((selectAccounts E db uid = inr []
                 /\ result = refused "Account not found" "accountNotFound"
                 /\ errorCode result = Some "accountNotFound")
                \/ (exists a, selectAccounts E db uid = inr [a]
                              /\ noPassword a = true
                              /\ result
                                 = refused "This account uses social login and cannot change password"
                                           "socialLoginCannotChangePassword"
                              /\ errorCode result = Some "socialLoginCannotChangePassword")
                \/ (exists a p, selectAccounts E db uid = inr [a]
                                /\ password a = Some p /\ p <> ""
                                /\ verifyPassword E p (currentPassword req) = inr false
                                /\ result = refused "Current password is incorrect"
                                                    "currentPasswordIncorrect"
                                /\ errorCode result = Some "currentPasswordIncorrect")
                \/ (exists e,
                      (selectAccounts E db uid = inl e
                       \/ exists a p,
                            selectAccounts E db uid = inr [a]
                            /\ password a = Some p /\ p <> ""
                            /\ (verifyPassword E p (currentPassword req) = inl e
                                \/ (verifyPassword E p (currentPassword req) = inr true
                                    /\ (hashPassword E (newPassword req) = inl e
                                        \/ exists hashed,
                                             hashPassword E (newPassword req) = inr hashed
                                             /\ updateAccount E db (account_id a) hashed
                                                = inl e))))
                      /\ result = caught e
                      /\ errorCode result = None))
            /\ updatePasswordRoute E uid req db
               = ({| reply_body :=
                       JObj (prop "code" (Some (JStr "error"))
                             ++ prop "errorCode" (option_map JStr (errorCode result))
                             ++ prop "message" (option_map JStr (error result)))%list;
                     reply_status := 400 |}, db)
            /\ getOpt (Some (reply_body (fst (updatePasswordRoute E uid req db)))) "code"
               = Some (JStr "error"))).
Proof.
  intros Hctx.
  assert (Hfail : forall result,
            updatePassword E req uid db = (inr result, db) ->
            success result = false ->
            updatePasswordRoute E uid req db
            = ({| reply_body :=
                    JObj (prop "code" (Some (JStr "error"))
                          ++ prop "errorCode" (option_map JStr (errorCode result))
                          ++ prop "message" (option_map JStr (error result)))%list;
                  reply_status := 400 |}, db)
            /\ getOpt (Some (reply_body (fst (updatePasswordRoute E uid req db)))) "code"
               = Some (JStr "error")).
  { intros result Hrun Hs. unfold updatePasswordRoute. rewrite Hrun, Hs. now split. }
  destruct (selectAccounts E db uid) as [e | accounts] eqn:Hsel.
  { assert (Hrun : updatePassword E req uid db = (inr (caught e), db))
      by (unfold updatePassword; now rewrite Hctx, Hsel).
    exists (caught e), db. split; [exact Hrun |]. right.
    split; [reflexivity |]. split; [reflexivity |].
    split; [| now apply Hfail].
    right; right; right. exists e. split; [now left | now split]. }
  destruct accounts as [| a rest].
  { eexists _, db. split; [unfold updatePassword; rewrite Hctx, Hsel; reflexivity |].
    right. split; [reflexivity |]. split; [reflexivity |].
    split; [left; now repeat split |].
    apply Hfail; [| reflexivity]. unfold updatePassword. now rewrite Hctx, Hsel. }
  destruct (selectAccounts_short _ _ _ _ _ Hsel) as [-> _].
  destruct (noPassword a) eqn:Hnp.
  { eexists _, db.
    split; [unfold updatePassword; rewrite Hctx, Hsel, Hnp; reflexivity |].
    right. split; [reflexivity |]. split; [reflexivity |].
    split; [right; left; exists a; now repeat split |].
    apply Hfail; [| reflexivity]. unfold updatePassword. now rewrite Hctx, Hsel, Hnp. }
  assert (Hpw : exists p, password a = Some p /\ p <> "").
  { unfold noPassword in Hnp. destruct (password a) as [p |]; [| discriminate].
    exists p. split; [reflexivity |]. now apply String.eqb_neq. }
  destruct Hpw as (p & Hp & Hpne).
  destruct (verifyPassword E p (currentPassword req)) as [e | [|]] eqn:Hver.
  { assert (Hrun : updatePassword E req uid db = (inr (caught e), db))
      by (unfold updatePassword; now rewrite Hctx, Hsel, Hnp, Hp, Hver).
    exists (caught e), db. split; [exact Hrun |]. right.
    split; [reflexivity |]. split; [reflexivity |].
    split; [| now apply Hfail].
    right; right; right. exists e. split; [| now split].
    right. exists a, p. split; [reflexivity |]. split; [exact Hp |].
    split; [exact Hpne |]. now left. }
  2:{ eexists _, db.
      split; [unfold updatePassword; rewrite Hctx, Hsel, Hnp, Hp, Hver; reflexivity |].
      right. split; [reflexivity |]. split; [reflexivity |].
      split; [right; right; left; exists a, p; now repeat split |].
      apply Hfail; [| reflexivity].
      unfold updatePassword. now rewrite Hctx, Hsel, Hnp, Hp, Hver. }
  destruct (hashPassword E (newPassword req)) as [e | hashed] eqn:Hhash.
  { assert (Hrun : updatePassword E req uid db = (inr (caught e), db))
      by (unfold updatePassword; now rewrite Hctx, Hsel, Hnp, Hp, Hver, Hhash).
    exists (caught e), db. split; [exact Hrun |]. right.
    split; [reflexivity |]. split; [reflexivity |].
    split; [| now apply Hfail].
    right; right; right. exists e. split; [| now split].
    right. exists a, p. split; [reflexivity |]. split; [exact Hp |].
    split; [exact Hpne |]. right. split; [exact Hver |]. now left. }
  destruct (updateAccount E db (account_id a) hashed) as [e | db'] eqn:Hupd.
  { assert (Hrun : updatePassword E req uid db = (inr (caught e), db))
      by (unfold updatePassword; now rewrite Hctx, Hsel, Hnp, Hp, Hver, Hhash, Hupd).
    exists (caught e), db. split; [exact Hrun |]. right.
    split; [reflexivity |]. split; [reflexivity |].
    split; [| now apply Hfail].
    right; right; right. exists e. split; [| now split].
    right. exists a, p. split; [reflexivity |]. split; [exact Hp |].
    split; [exact Hpne |]. right. split; [exact Hver |].
    right. exists hashed. now split. }
  eexists _, db'.
  split; [unfold updatePassword; rewrite Hctx, Hsel, Hnp, Hp, Hver, Hhash, Hupd;
          reflexivity |].
  left. split; [reflexivity |]. now exists a, p, hashed.
Qed.

(** C10 at work: the right current password changes the stored one; the
    wrong one is refused with [currentPasswordIncorrect] and changes
    nothing. *)
Lemma C10_witness :
  getContext Sample.server = None
  /\ (exists result db',
        updatePassword Sample.server Sample.change "u-1" Sample.table = (inr result, db')
        /\ success result = true
        /\ db' = [mkAccount "acc-1" "u-1" (Some "hash:new-secret")])
  /\ (exists result db',
        updatePassword Sample.server Sample.wrongChange "u-1" Sample.table
        = (inr result, db')
        /\ success result = false
        /\ errorCode result = Some "currentPasswordIncorrect"
        /\ db' = Sample.table).
Proof.
  split; [reflexivity |]. split.
  - destruct (C10_update_password Sample.server Sample.change "u-1" Sample.table eq_refl)
      as (result & db' & Hrun & _).
    exists result, db'. split; [exact Hrun |].
    injection Hrun as <- <-. split; reflexivity.
  - destruct (C10_update_password Sample.server Sample.wrongChange "u-1" Sample.table
                eq_refl) as (result & db' & Hrun & _).
    exists result, db'. split; [exact Hrun |].
    injection Hrun as <- <-. repeat split.
Defined.

End AuthFacts.

(* ===================================================================== *)
(** ** One request per call *)
(* ===================================================================== *)

Section Postless.

Context {A B : Type}.

Lemma postless_ret (a : A) : postless (ret a).
Proof. reflexivity. Qed.

Lemma postless_throw (e : JsError) : postless (@throw A e).
Proof. reflexivity. Qed.

Lemma postless_lift (r : JsError + A) : postless (lift r).
Proof. reflexivity. Qed.

Lemma postless_bind (m : M A) (k : A -> M B) :
  postless m -> (forall a, postless (k a)) -> postless (bind m k).
Proof.
  unfold postless. intros Hm Hk. rewrite trace_bind.
  destruct (outcome m) as [e | a]; [exact Hm |].
  now rewrite existsb_app, Hm, Hk.
Qed.

Lemma postless_try_catch (m : M A) (h : JsError -> M A) :
  postless m -> (forall e, postless (h e)) -> postless (try_catch m h).
Proof.
  unfold postless. intros Hm Hh. rewrite trace_try_catch.
  destruct (outcome m) as [e | a]; [| exact Hm].
  now rewrite existsb_app, Hm, Hh.
Qed.

End Postless.

Lemma postless_tell (ev : event) : isPost ev = false -> postless (tell ev).
Proof. unfold postless. simpl. now intros ->. Qed.

Lemma postless_promise_all {A} (ps : list (M A)) :
  (forall p, In p ps -> postless p) -> postless (promise_all ps).
Proof.
  unfold postless. induction ps as [| p rest IH]; intros Hps; [reflexivity |].
  rewrite (proj1 (promise_all_cons p rest)), existsb_app.
  rewrite (Hps p (or_introl eq_refl)), IH; [reflexivity |].
  intros q Hq. apply Hps. now right.
Qed.

(** Takes apart a computation built from the monad's operations. *)
Ltac no_post :=
  repeat first
    [ apply postless_ret
    | apply postless_throw
    | apply postless_lift
    | apply postless_tell; reflexivity
    | apply postless_bind; [| intros ?]
    | apply postless_try_catch; [| intros ?]
    | match goal with
      | |- postless (if ?c then _ else _) => destruct c
      | |- postless (match ?x with _ => _ end) => destruct x
      end ].

Lemma postless_contentLoop (W : World) (content : list json) :
  postless (QwenAdapter.contentLoop W content).
Proof.
  induction content as [| item rest IH]; [apply postless_ret |].
  rewrite contentLoop_cons.
  unfold QwenAdapter.fetchOrNull, callFetchUrl, callBase64. no_post. exact IH.
Qed.

Lemma postless_resolveImage (v : Vendor) (W : World) (image : value) :
  postless (resolveImageBy v W image).
Proof.
  destruct v; simpl.
  - unfold DoubaoAdapter.resolveImage, callFetchUrl, callBase64. no_post.
  - unfold QwenAdapter.resolveImage.
    apply postless_bind; [apply postless_lift | intros message].
    apply postless_bind; [no_post | intros content].
    apply postless_bind.
    + destruct (truthy message && truthy content); [| apply postless_ret].
      apply postless_bind; [apply postless_lift | intros items].
      apply postless_contentLoop.
    + intros early. unfold QwenAdapter.fetchOrNull, callFetchUrl, callBase64. no_post.
Qed.

(** After [fetch] has answered, no further request is sent. *)
Lemma postless_respond (v : Vendor) (W : World) (response : Response) :
  postless (try_catch (respondBy v W response) (rescueBy v)).
Proof.
  apply postless_try_catch.
  2:{ intros e. unfold postless. now rewrite rescueBy_silent. }
  destruct (ok response) eqn:Hok.
  - rewrite (normalize_shape _ _ _ Hok).
    apply postless_bind; [unfold responseJson; no_post | intros gr].
    apply postless_bind.
    { destruct v; simpl;
        unfold DoubaoAdapter.imageData, QwenAdapter.imageData, QwenAdapter.entriesOf;
        no_post. }
    intros entries. apply postless_bind; [| intros; apply postless_ret].
    apply postless_promise_all. intros p Hin.
    apply in_map_iff in Hin as (x & <- & _). apply postless_resolveImage.
  - destruct v; simpl.
    + unfold DoubaoAdapter.respond, DoubaoAdapter.rejected. rewrite Hok.
      change (negb false) with true. cbv iota. no_post.
    + unfold QwenAdapter.respond, QwenAdapter.rejected, jsonParse. rewrite Hok.
      change (negb false) with true. cbv iota. no_post.
Qed.

(** A call sends at most one request: any request in its trace is the
    first event. *)
Lemma posts_once (v : Vendor) (W : World) (request : GenerateRequest)
      (st : ApiProviderSettings) (url : string) (init : RequestInit) :
  In (HttpPost url init) (trace (generateBy v W request st)) ->
  posted (generateBy v W request st) = Some (url, init)
  /\ List.length (filter isPost (trace (generateBy v W request st))) = 1%nat.
Proof.
  intros Hin.
  assert (Hnone : forall t, existsb isPost t = false -> filter isPost t = []).
  { induction t as [| ev t IH]; simpl; [reflexivity |].
    destruct (isPost ev); [discriminate | exact IH]. }
  assert (Hsilent : forall m : M GenerateResult,
            trace m = [] -> In (HttpPost url init) (trace m) -> False).
  { intros m ->. now intros []. }
  assert (Hafter : forall url' init' (m : M GenerateResult),
            postless m ->
            In (HttpPost url init) (trace (prepend [HttpPost url' init'] m)) ->
            posted (prepend [HttpPost url' init'] m) = Some (url, init)
            /\ List.length (filter isPost (trace (prepend [HttpPost url' init'] m))) = 1%nat).
  { intros url' init' m Hm [Heq | Hrest].
    - injection Heq as -> ->. split; [reflexivity |].
      rewrite trace_prepend. simpl. now rewrite (Hnone _ Hm).
    - exfalso. unfold postless in Hm.
      assert (Hex : existsb isPost (trace m) = true).
      { apply existsb_exists. exists (HttpPost url init). now split. }
      congruence. }
  assert (Hrest : forall url' init',
            postless (match fetch W url' init' with
                      | inl e => rescueBy v e
                      | inr response => try_catch (respondBy v W response) (rescueBy v)
                      end)).
  { intros url' init'. destruct (fetch W url' init') as [e | response].
    - unfold postless. now rewrite rescueBy_silent.
    - apply postless_respond. }
  revert Hin. destruct v; simpl; unfold DoubaoAdapter.generate.
  - rewrite doubao_stages.
    destruct (doParseSettings W st _) as [e | parsed]; [now intros [] |].
    destruct (findModel _ _) as [e | m].
    { intros H. exfalso. revert H. apply Hsilent, doubao_rescue_silent. }
    destruct (chooseAblility _ _) as [e | a].
    { intros H. exfalso. revert H. apply Hsilent, doubao_rescue_silent. }
    apply Hafter, (Hrest _ _).
  - rewrite qwen_stages.
    destruct (doParseSettings W st _) as [e | parsed].
    { intros H. exfalso. revert H. apply Hsilent, qwen_rescue_silent. }
    apply Hafter, (Hrest _ _).
Qed.

(** One request per call, at work: Doubao's request in the sample world. *)
Lemma posts_once_witness :
  In (HttpPost Sample.doubaoUrl Sample.doubaoInit)
     (trace (generateBy DoubaoV Sample.refusing Sample.request []))
  /\ posted (generateBy DoubaoV Sample.refusing Sample.request [])
     = Some (Sample.doubaoUrl, Sample.doubaoInit)
  /\ List.length (filter isPost (trace (generateBy DoubaoV Sample.refusing Sample.request [])))
     = 1%nat.
Proof.
  assert (Hin : In (HttpPost Sample.doubaoUrl Sample.doubaoInit)
                   (trace (generateBy DoubaoV Sample.refusing Sample.request []))).
  { left; reflexivity. }
  split; [exact Hin |].
  exact (posts_once DoubaoV Sample.refusing Sample.request []
           Sample.doubaoUrl Sample.doubaoInit Hin).
Defined.

(* ===================================================================== *)
(** ** Settings and the request that is sent *)
(* ===================================================================== *)

(** The request an adapter sends is built from the parsed settings: the
    URL is [baseURL] followed by the adapter's path, the method is POST,
    the API key goes into the [Authorization] header as a bearer token,
    and the body is the adapter's request body. *)
Theorem request_from_settings
        (v : Vendor) (W : World) (request : GenerateRequest)
        (st : ApiProviderSettings) (url : string) (init : RequestInit) :
  posted (generateBy v W request st) = Some (url, init) ->
  exists parsed,
    doParseSettings W st (schemaOf v) = inr parsed
    /\ url = baseURL parsed ++ endpoint v
    /\ method init = "POST"
    /\ headers init = [("Content-Type", "application/json");
                       ("Authorization", "Bearer " ++ apiKey parsed)]
    /\ body init = requestBodyBy v request.
Proof.
  destruct v; simpl; unfold DoubaoAdapter.generate.
  - rewrite doubao_stages.
    destruct (doParseSettings W st _) as [e | parsed]; [discriminate |].
    destruct (findModel _ _) as [e | m].
    { now rewrite (posted_silent _ (doubao_rescue_silent e)). }
    destruct (chooseAblility _ _) as [e | a].
    { now rewrite (posted_silent _ (doubao_rescue_silent e)). }
    cbv zeta. rewrite posted_prepend. intros [= <- <-]. exists parsed. now repeat split.
  - rewrite qwen_stages.
    destruct (doParseSettings W st _) as [e | parsed].
    { now rewrite (posted_silent _ (qwen_rescue_silent e)). }
    cbv zeta. rewrite posted_prepend. intros [= <- <-]. exists parsed. now repeat split.
Qed.

Lemma request_from_settings_witness :
  posted (generateBy DoubaoV Sample.refusing Sample.request [])
  = Some (Sample.doubaoUrl, Sample.doubaoInit)
  /\ exists parsed,
       doParseSettings Sample.refusing [] (schemaOf DoubaoV) = inr parsed
       /\ Sample.doubaoUrl = baseURL parsed ++ endpoint DoubaoV
       /\ method Sample.doubaoInit = "POST"
       /\ headers Sample.doubaoInit
          = [("Content-Type", "application/json");
             ("Authorization", "Bearer " ++ apiKey parsed)]
       /\ body Sample.doubaoInit = requestBodyBy DoubaoV Sample.request.
Proof.
  split; [reflexivity |].
  exact (request_from_settings DoubaoV Sample.refusing Sample.request []
           Sample.doubaoUrl Sample.doubaoInit eq_refl).
Defined.

(** When the settings do not parse, nothing is sent. Doubao parses outside
    its [try]: the parser's error is thrown on as it is, whatever its
    status. Qwen parses inside its [try]: a [GenError] of the parser comes
    back as a result, any other error is thrown on. *)
Theorem settings_failure_sends_nothing
        (v : Vendor) (W : World) (request : GenerateRequest)
        (st : ApiProviderSettings) (e : JsError) :
  doParseSettings W st (schemaOf v) = inl e ->
  trace (generateBy v W request st) = []
  /\ outcome (generateBy v W request st)
     = match v with
       | DoubaoV => inl e
       | QwenV =>
           match instanceofGenError e with
           | Some reason => inr {| images := []; errorReason := Some reason |}
           | None => inl e
           end
       end.
Proof.
  intros Hparse. destruct v; simpl in *; unfold DoubaoAdapter.generate.
  - rewrite doubao_stages, Hparse. now split.
  - rewrite qwen_stages, Hparse. unfold QwenAdapter.rescue.
    destruct (instanceofGenError e); now split.
Qed.

Lemma settings_failure_sends_nothing_witness :
  doParseSettings Sample.keyless [] (schemaOf DoubaoV) = inl Sample.missingKey
  /\ trace (generateBy DoubaoV Sample.keyless Sample.request []) = []
  /\ outcome (generateBy DoubaoV Sample.keyless Sample.request [])
     = inl Sample.missingKey.
Proof.
  split; [reflexivity |].
  exact (settings_failure_sends_nothing DoubaoV Sample.keyless Sample.request []
           Sample.missingKey eq_refl).
Defined.

(* ===================================================================== *)
(** ** 2xx responses that make the call throw *)
(* ===================================================================== *)

Lemma bind_thrown {A B} (e : JsError) (k : A -> M B) : bind (throw e) k = throw e.
Proof. reflexivity. Qed.

(** A call that was answered 2xx, unfolded up to the reading of the
    response. *)
Lemma answered_ok_run
      (v : Vendor) (W : World) (request : GenerateRequest)
      (st : ApiProviderSettings) (response : Response) :
  answered W (generateBy v W request st) response ->
  ok response = true ->
  exists url init,
    generateBy v W request st
    = prepend [HttpPost url init]
        (try_catch
           (generateResult <- responseJson W response ;;
            entries <- entriesBy v generateResult ;;
            results <- promise_all
                         (map (fun image => resolveImageBy v W (Some image)) entries) ;;
            ret {| images := filterBoolean results; errorReason := None |})
           (rescueBy v)).
Proof.
  intros Hans Hok.
  destruct (answered_inv _ _ _ _ _ Hans) as (url & init & _ & Hrun).
  exists url, init. now rewrite Hrun, (normalize_shape _ _ _ Hok).
Qed.

(** A 2xx response whose body is not JSON, or is the JSON value [null],
    makes either adapter throw: a [SyntaxError] from the parser, a
    [TypeError] from reading the first property of [null]. The error has no
    status and goes to the caller; no image is decoded or fetched. *)
Theorem broken_body_throws
        (v : Vendor) (W : World) (request : GenerateRequest)
        (st : ApiProviderSettings) (response : Response) :
  answered W (generateBy v W request st) response ->
  ok response = true ->
  (JSON_parse W (text response) = None ->
     exists e, outcome (generateBy v W request st) = inl e
               /\ err_class e = SyntaxErrorC /\ err_status e = undefined)
  /\ (JSON_parse W (text response) = Some JNull ->
        outcome (generateBy v W request st)
        = inl (TypeError ("Cannot read properties of null (reading '"
                          ++ firstProbe v ++ "')")))
  /\ (JSON_parse W (text response) = None \/ JSON_parse W (text response) = Some JNull ->
        quiet (generateBy v W request st)).
Proof.
  intros Hans Hok.
  destruct (answered_ok_run _ _ _ _ _ Hans Hok) as (url & init & Hrun).
  rewrite Hrun. unfold quiet. rewrite outcome_prepend, trace_prepend. unfold responseJson.
  split; [| split].
  - intros Hp. rewrite Hp. cbv iota. rewrite bind_thrown.
    destruct v; (eexists; split; [reflexivity | split; reflexivity]).
  - intros Hp. rewrite Hp. cbv iota. rewrite bind_ret. destruct v; reflexivity.
  - intros [Hp | Hp]; rewrite Hp; cbv iota; [rewrite bind_thrown | rewrite bind_ret];
      destruct v; reflexivity.
Qed.

Lemma broken_body_throws_witness :
  (answered Sample.nullBody (generateBy QwenV Sample.nullBody Sample.request [])
     Sample.success
   /\ ok Sample.success = true
   /\ JSON_parse Sample.nullBody (text Sample.success) = Some JNull)
  /\ outcome (generateBy QwenV Sample.nullBody Sample.request [])
     = inl (TypeError "Cannot read properties of null (reading 'output')").
Proof.
  assert (Hans : answered Sample.nullBody
            (generateBy QwenV Sample.nullBody Sample.request []) Sample.success).
  { eexists _, _. split; reflexivity. }
  split; [repeat split; [exact Hans | reflexivity ..] |].
  exact (proj1 (proj2 (broken_body_throws QwenV Sample.nullBody Sample.request []
                         Sample.success Hans eq_refl)) eq_refl).
Defined.

(** Qwen takes [output.images] without testing that it is an array: when
    [output.choices] is not an array and [output.images] is any other
    non-empty value (a single URL, an object), the call throws a
    [TypeError] instead of returning images, and fetches nothing. *)
Theorem qwen_output_images_not_array
        (W : World) (request : GenerateRequest) (st : ApiProviderSettings)
        (response : Response) (generateResult : json) :
  answered W (generateBy QwenV W request st) response ->
  ok response = true ->
  JSON_parse W (text response) = Some generateResult ->
  truthy (getOpt (Some generateResult) "output") = true ->
  truthy (getOpt (getOpt (Some generateResult) "output") "choices")
  && isArray (getOpt (getOpt (Some generateResult) "output") "choices") = false ->
  truthy (getOpt (getOpt (Some generateResult) "output") "images") = true ->
  isArray (getOpt (getOpt (Some generateResult) "output") "images") = false ->
  outcome (generateBy QwenV W request st)
  = inl (TypeError "imageData.map is not a function")
  /\ quiet (generateBy QwenV W request st).
Proof.
  intros Hans Hok Hparse Hout Hchoices Himgs Harr.
  destruct (answered_ok_run _ _ _ _ _ Hans Hok) as (url & init & Hrun).
  rewrite Hrun. unfold quiet. rewrite outcome_prepend, trace_prepend.
  unfold responseJson. rewrite Hparse, bind_ret.
  assert (Hentries : entriesBy QwenV (Some generateResult)
                     = throw (TypeError "imageData.map is not a function")).
  { simpl. unfold QwenAdapter.imageData.
    rewrite (get_truthy _ "output"), bind_lift_inr, Hout.
    2:{ destruct generateResult; simpl in *; try discriminate; reflexivity. }
    rewrite (get_truthy _ "choices" Hout), bind_lift_inr.
    cbn [andb]. rewrite Hchoices.
    rewrite (get_truthy _ "images" Hout), bind_lift_inr, Himgs, bind_ret.
    destruct (getOpt (getOpt (Some generateResult) "output") "images")
      as [[ | | | | | ] |]; try discriminate; reflexivity. }
  rewrite Hentries, bind_thrown. split; reflexivity.
Qed.

Lemma qwen_output_images_not_array_witness :
  (answered Sample.loneImageWorld
     (generateBy QwenV Sample.loneImageWorld Sample.request []) Sample.success
   /\ ok Sample.success = true
   /\ JSON_parse Sample.loneImageWorld (text Sample.success) = Some Sample.loneImage)
  /\ outcome (generateBy QwenV Sample.loneImageWorld Sample.request [])
     = inl (TypeError "imageData.map is not a function")
  /\ quiet (generateBy QwenV Sample.loneImageWorld Sample.request []).
Proof.
  assert (Hans : answered Sample.loneImageWorld
            (generateBy QwenV Sample.loneImageWorld Sample.request []) Sample.success).
  { eexists _, _. split; reflexivity. }
  split; [repeat split; [exact Hans | reflexivity ..] |].
  exact (qwen_output_images_not_array Sample.loneImageWorld Sample.request []
           Sample.success Sample.loneImage Hans eq_refl eq_refl
           eq_refl eq_refl eq_refl eq_refl).
Defined.

(* ===================================================================== *)
(** ** Where the adapters look for the entries *)
(* ===================================================================== *)

Lemma entriesOf_array (data : value) :
  isArray data = true -> QwenAdapter.entriesOf data = ret (arrayItems data).
Proof. destruct data as [[ | | | | | ] |]; simpl; intros H; try discriminate; reflexivity. Qed.

(** The entries both adapters find on a parsed body that is not [null],
    not an array and has no [output]. *)
Lemma entries_common (v : Vendor) (generateResult : json) :
  notNull generateResult = true ->
  isArray (Some generateResult) = false ->
  truthy (getOpt (Some generateResult) "output") = false ->
  entriesBy v (Some generateResult)
  = ret (if truthy (getOpt (Some generateResult) "data")
            && isArray (getOpt (Some generateResult) "data")
         then arrayItems (getOpt (Some generateResult) "data")
         else if truthy (getOpt (Some generateResult) "images")
                 && isArray (getOpt (Some generateResult) "images")
              then arrayItems (getOpt (Some generateResult) "images")
              else []).
Proof.
  intros Hnn Harr Hout. destruct v.
  - unfold entriesBy, DoubaoAdapter.imageData. rewrite Harr.
    rewrite (get_getOpt _ "data" Hnn), bind_lift_inr.
    destruct (truthy (getOpt (Some generateResult) "data")
              && isArray (getOpt (Some generateResult) "data")); [reflexivity |].
    rewrite (get_getOpt _ "images" Hnn), bind_lift_inr.
    destruct (truthy (getOpt (Some generateResult) "images")
              && isArray (getOpt (Some generateResult) "images")); [reflexivity |].
    rewrite (get_getOpt _ "output" Hnn), bind_lift_inr, Hout. reflexivity.
  - unfold entriesBy, QwenAdapter.imageData.
    rewrite (get_getOpt _ "output" Hnn), bind_lift_inr, Hout, !bind_ret.
    cbn [andb]. cbv iota.
    rewrite (get_getOpt _ "data" Hnn), bind_lift_inr.
    destruct (truthy (getOpt (Some generateResult) "data")
              && isArray (getOpt (Some generateResult) "data")) eqn:Hdata.
    { apply andb_true_iff in Hdata as [_ Hdata].
      now rewrite bind_ret, (entriesOf_array _ Hdata). }
    rewrite (get_getOpt _ "images" Hnn), bind_lift_inr.
    destruct (truthy (getOpt (Some generateResult) "images")
              && isArray (getOpt (Some generateResult) "images")) eqn:Himgs.
    { apply andb_true_iff in Himgs as [_ Himgs].
      now rewrite bind_ret, (entriesOf_array _ Himgs). }
    now rewrite bind_ret.
Qed.

(** On a parsed body that is not [null], not an array and has no [output],
    the two adapters find the same entries: those of [data] if it is an
    array, else those of [images] if it is an array, else none. On a body
    that is itself an array they differ: Doubao takes its items, Qwen
    finds nothing. *)
Theorem probing_agrees (generateResult : json) :
  (notNull generateResult = true ->
   isArray (Some generateResult) = false ->
   truthy (getOpt (Some generateResult) "output") = false ->
   entriesBy DoubaoV (Some generateResult) = entriesBy QwenV (Some generateResult)
   /\ entriesBy QwenV (Some generateResult)
      = ret (if truthy (getOpt (Some generateResult) "data")
                && isArray (getOpt (Some generateResult) "data")
             then arrayItems (getOpt (Some generateResult) "data")
             else if truthy (getOpt (Some generateResult) "images")
                     && isArray (getOpt (Some generateResult) "images")
                  then arrayItems (getOpt (Some generateResult) "images")
                  else []))
  /\ (forall items,
        generateResult = JArr items ->
        entriesBy DoubaoV (Some generateResult) = ret items
        /\ entriesBy QwenV (Some generateResult) = ret []).
Proof.
  split.
  - intros Hnn Harr Hout.
    now rewrite !(entries_common _ _ Hnn Harr Hout).
  - intros items ->. split; reflexivity.
Qed.

Lemma probing_agrees_witness :
  (notNull Sample.mixed = true
   /\ isArray (Some Sample.mixed) = false
   /\ truthy (getOpt (Some Sample.mixed) "output") = false)
  /\ entriesBy DoubaoV (Some Sample.mixed) = entriesBy QwenV (Some Sample.mixed).
Proof.
  split; [repeat split |].
  exact (proj1 (proj1 (probing_agrees Sample.mixed) eq_refl eq_refl eq_refl)).
Defined.

(* ===================================================================== *)
(** ** A [null] among the entries *)
(* ===================================================================== *)

Lemma promise_all_trace {A} (ps : list (M A)) :
  trace (promise_all ps) = List.concat (map trace ps).
Proof.
  induction ps as [| p rest IH]; [reflexivity |].
  rewrite (proj1 (promise_all_cons p rest)), IH. reflexivity.
Qed.

Lemma promise_all_rejects {A} (pre : list (M A)) (q : M A) (post : list (M A))
      (e : JsError) :
  (forall p, In p pre -> exists a, outcome p = inr a) ->
  outcome q = inl e ->
  outcome (promise_all (pre ++ q :: post)) = inl e.
Proof.
  intros Hpre Hq. induction pre as [| p pre IH]; simpl app.
  - rewrite (proj2 (promise_all_cons q post)), Hq. reflexivity.
  - rewrite (proj2 (promise_all_cons p _)).
    destruct (Hpre p (or_introl eq_refl)) as (a & ->).
    rewrite IH; [reflexivity |]. intros x Hx. apply Hpre. now right.
Qed.

(** A [null] among the entries of a 2xx response, after entries that are
    well formed, makes either adapter throw the [TypeError] of reading a
    property of [null], whatever the entries after it are: the whole call
    fails and no image is returned, not even those of the well-formed
    entries. *)
Theorem null_entry_throws
        (v : Vendor) (W : World) (request : GenerateRequest)
        (st : ApiProviderSettings) (response : Response)
        (generateResult : json) (pre post : list json) :
  answered W (generateBy v W request st) response ->
  ok response = true ->
  JSON_parse W (text response) = Some generateResult ->
  outcome (entriesBy v (Some generateResult)) = inr (pre ++ JNull :: post)%list ->
  forallb (wellFormed v W) pre = true ->
  outcome (generateBy v W request st)
  = inl (TypeError ("Cannot read properties of null (reading '" ++ firstRead v ++ "')")).
Proof.
  intros Hans Hok Hparse Hentries Hwf.
  destruct (answered_ok_run _ _ _ _ _ Hans Hok) as (url & init & Hrun).
  rewrite Hrun, outcome_prepend.
  unfold responseJson. rewrite Hparse, bind_ret.
  set (ps := map (fun image => resolveImageBy v W (Some image)) (pre ++ JNull :: post)%list).
  assert (Hthrow : outcome (promise_all ps)
                   = inl (TypeError ("Cannot read properties of null (reading '"
                                     ++ firstRead v ++ "')"))).
  { unfold ps. rewrite map_app. cbn [map]. apply promise_all_rejects.
    - intros p Hin. apply in_map_iff in Hin as (x & <- & Hx).
      rewrite forallb_forall in Hwf.
      destruct (resolveImageBy_spec v W x (Hwf x Hx)) as (r & Hr & _). now exists r.
    - destruct v; reflexivity. }
  rewrite outcome_try_catch, outcome_bind, Hentries, outcome_bind. fold ps.
  rewrite Hthrow. destruct v; reflexivity.
Qed.

Lemma null_entry_throws_witness :
  (answered Sample.holedWorld (generateBy DoubaoV Sample.holedWorld Sample.request [])
     Sample.success
   /\ answered Sample.holedWorld (generateBy QwenV Sample.holedWorld Sample.request [])
        Sample.success
   /\ ok Sample.success = true
   /\ JSON_parse Sample.holedWorld (text Sample.success) = Some Sample.holed
   /\ outcome (entriesBy DoubaoV (Some Sample.holed))
      = inr ([JObj [("b64_json", JStr "QUJD")]]
               ++ JNull :: [JObj [("url", JStr "https://cdn.test/a.png")]])%list
   /\ outcome (entriesBy QwenV (Some Sample.holed))
      = inr ([JObj [("b64_json", JStr "QUJD")]]
               ++ JNull :: [JObj [("url", JStr "https://cdn.test/a.png")]])%list
   /\ forallb (wellFormed DoubaoV Sample.holedWorld)
        [JObj [("b64_json", JStr "QUJD")]] = true
   /\ forallb (wellFormed QwenV Sample.holedWorld)
        [JObj [("b64_json", JStr "QUJD")]] = true)
  /\ outcome (generateBy DoubaoV Sample.holedWorld Sample.request [])
     = inl (TypeError "Cannot read properties of null (reading 'b64_json')")
  /\ outcome (generateBy QwenV Sample.holedWorld Sample.request [])
     = inl (TypeError "Cannot read properties of null (reading 'message')").
Proof.
  assert (Hd : answered Sample.holedWorld
            (generateBy DoubaoV Sample.holedWorld Sample.request []) Sample.success).
  { eexists _, _. split; reflexivity. }
  assert (Hq : answered Sample.holedWorld
            (generateBy QwenV Sample.holedWorld Sample.request []) Sample.success).
  { eexists _, _. split; reflexivity. }
  split; [repeat split; [exact Hd | exact Hq | reflexivity ..] |].
  split.
  - exact (null_entry_throws DoubaoV Sample.holedWorld Sample.request []
             Sample.success Sample.holed
             [JObj [("b64_json", JStr "QUJD")]]
             [JObj [("url", JStr "https://cdn.test/a.png")]]
             Hd eq_refl eq_refl eq_refl eq_refl).
  - exact (null_entry_throws QwenV Sample.holedWorld Sample.request []
             Sample.success Sample.holed
             [JObj [("b64_json", JStr "QUJD")]]
             [JObj [("url", JStr "https://cdn.test/a.png")]]
             Hq eq_refl eq_refl eq_refl eq_refl).
Defined.

(* ===================================================================== *)
(** ** Where the returned images come from *)
(* ===================================================================== *)

Lemma made_mono (W : World) (t t' : list event) (s : string) :
  (forall ev, In ev t -> In ev t') -> made W t s -> made W t' s.
Proof.
  intros Hsub (p & [[Hin Hp] | [Hin Hp]]); exists p; [left | right]; split; auto.
Qed.

Section Sourced.

Variable W : World.
Context {A B : Type}.
Variable proj : B -> option string.

Lemma sourced_ret (b : B) : proj b = None -> sourced W proj (ret b).
Proof. intros Hb a s [= <-] Hs. congruence. Qed.

Lemma sourced_throw (e : JsError) : sourced W proj (throw e).
Proof. intros a s H. discriminate. Qed.

Lemma sourced_bind (m : M A) (k : A -> M B) :
  (forall a, sourced W proj (k a)) -> sourced W proj (bind m k).
Proof.
  intros Hk b s Hout Hs. rewrite outcome_bind in Hout. rewrite trace_bind.
  destruct (outcome m) as [e | a]; [discriminate |].
  apply (made_mono W (trace (k a))); [| now apply (Hk a b)].
  intros ev Hev. apply in_app_iff. now right.
Qed.

Lemma sourced_bind_ret (projA : A -> option string) (m : M A) (f : A -> B) :
  sourced W projA m -> (forall a, proj (f a) = projA a) ->
  sourced W proj (bind m (fun a => ret (f a))).
Proof.
  intros Hm Hf b s Hout Hs. rewrite outcome_bind in Hout. rewrite trace_bind.
  destruct (outcome m) as [e | a] eqn:Hma; [discriminate |].
  injection Hout as <-. rewrite Hf in Hs.
  apply (made_mono W (trace m)); [| now apply (Hm a)].
  intros ev Hev. apply in_app_iff. now left.
Qed.

End Sourced.

Lemma trace_callFetchUrl (W : World) (src : value) :
  trace (callFetchUrl W src) = [UrlFetch src].
Proof.
  unfold callFetchUrl. rewrite bind_tell, trace_prepend.
  now destruct (fetchUrlToDataURI W src).
Qed.

Lemma trace_callBase64 (W : World) (payload : value) :
  trace (callBase64 W payload) = [Base64Decode payload].
Proof.
  unfold callBase64. rewrite bind_tell, trace_prepend.
  now destruct (base64ToDataURI W payload).
Qed.

Lemma sourced_callBase64 (W : World) (payload : value) :
  sourced W uriOf (callBase64 W payload).
Proof.
  intros r s Hout Hs. rewrite outcome_callBase64 in Hout.
  destruct (base64ToDataURI W payload) as [e | u] eqn:Hdec; [discriminate |].
  injection Hout as <-. injection Hs as <-.
  exists payload. left. split; [| exact Hdec].
  rewrite trace_callBase64. now left.
Qed.

Lemma sourced_guarded (W : World) (src : value) (h : JsError -> M slot) :
  (forall e, outcome (h e) = inr Null) ->
  sourced W uriOf (try_catch (callFetchUrl W src) h).
Proof.
  intros Hh r s Hout Hs. rewrite (outcome_fetch_guarded W src h Hh) in Hout.
  injection Hout as <-.
  destruct (fetchUrlToDataURI W src) as [e | u] eqn:Hget; [discriminate |].
  injection Hs as <-.
  exists src. right. split; [| exact Hget].
  rewrite trace_try_catch, trace_callFetchUrl.
  destruct (outcome (callFetchUrl W src)); [apply in_app_iff; left |]; now left.
Qed.

Lemma sourced_fetchOrNull (W : World) (src : value) :
  sourced W uriOf (QwenAdapter.fetchOrNull W src).
Proof.
  apply sourced_guarded. intros e. now rewrite bind_tell, outcome_prepend.
Qed.

Lemma doubao_resolveImage_sourced (W : World) (image : value) :
  sourced W uriOf (DoubaoAdapter.resolveImage W image).
Proof.
  unfold DoubaoAdapter.resolveImage.
  apply sourced_bind; intros b64_json.
  destruct (truthy b64_json); [apply sourced_callBase64 |].
  apply sourced_bind; intros url.
  destruct (truthy url); [now apply sourced_guarded |].
  apply sourced_bind; intros image_url.
  destruct (truthy image_url); [now apply sourced_guarded |].
  apply sourced_bind; intros base64.
  destruct (truthy base64); [apply sourced_callBase64 |].
  now apply sourced_ret.
Qed.

Lemma qwen_contentLoop_sourced (W : World) (content : list json) :
  sourced W earlyUri (QwenAdapter.contentLoop W content).
Proof.
  induction content as [| item rest IH]; [now apply sourced_ret |].
  rewrite contentLoop_cons.
  apply sourced_bind; intros img.
  destruct (truthy img).
  - apply sourced_bind; intros [|].
    + apply (sourced_bind_ret W earlyUri uriOf); [apply sourced_fetchOrNull | reflexivity].
    + apply (sourced_bind_ret W earlyUri uriOf); [apply sourced_callBase64 | reflexivity].
  - apply sourced_bind; intros image_url.
    destruct (truthy image_url); [| exact IH].
    apply (sourced_bind_ret W earlyUri uriOf); [apply sourced_fetchOrNull | reflexivity].
Qed.

Lemma qwen_resolveImage_sourced (W : World) (image : value) :
  sourced W uriOf (QwenAdapter.resolveImage W image).
Proof.
  unfold QwenAdapter.resolveImage.
  apply sourced_bind; intros message.
  apply sourced_bind; intros content.
  assert (Hdirect : sourced W uriOf
            (b64_json <- lift (get image "b64_json") ;;
             if truthy b64_json then callBase64 W b64_json else
             url <- lift (get image "url") ;;
             if truthy url then QwenAdapter.fetchOrNull W url else
             image_url <- lift (get image "image_url") ;;
             if truthy image_url then QwenAdapter.fetchOrNull W image_url else
             base64 <- lift (get image "base64") ;;
             if truthy base64 then callBase64 W base64 else
             ret Undefined)%js).
  { apply sourced_bind; intros b64_json.
    destruct (truthy b64_json); [apply sourced_callBase64 |].
    apply sourced_bind; intros url.
    destruct (truthy url); [apply sourced_fetchOrNull |].
    apply sourced_bind; intros image_url.
    destruct (truthy image_url); [apply sourced_fetchOrNull |].
    apply sourced_bind; intros base64.
    destruct (truthy base64); [apply sourced_callBase64 |].
    now apply sourced_ret. }
  assert (Hloop : sourced W earlyUri
            (if truthy message && truthy content
             then (items <- lift (iterate content) ;; QwenAdapter.contentLoop W items)
             else ret None)%js).
  { destruct (truthy message && truthy content); [| now apply sourced_ret].
    apply sourced_bind; intros items. apply qwen_contentLoop_sourced. }
  intros r s Hout Hs. rewrite outcome_bind in Hout. rewrite trace_bind.
  destruct (outcome (if truthy message && truthy content then _ else _))
    as [e | early] eqn:Hearly; [discriminate |].
  destruct early as [r' |].
  - injection Hout as ->.
    apply (made_mono W (trace (if truthy message && truthy content
                               then (items <- lift (iterate content) ;;
                                     QwenAdapter.contentLoop W items)
                               else ret None)%js)).
    + intros ev Hev. apply in_app_iff. now left.
    + apply (Hloop (Some r) s Hearly). destruct r; simpl in *; congruence.
  - apply (made_mono W (trace
             (b64_json <- lift (get image "b64_json") ;;
              if truthy b64_json then callBase64 W b64_json else
              url <- lift (get image "url") ;;
              if truthy url then QwenAdapter.fetchOrNull W url else
              image_url <- lift (get image "image_url") ;;
              if truthy image_url then QwenAdapter.fetchOrNull W image_url else
              base64 <- lift (get image "base64") ;;
              if truthy base64 then callBase64 W base64 else
              ret Undefined)%js)).
    + intros ev Hev. apply in_app_iff. now right.
    + now apply (Hdirect r s).
Qed.

Lemma resolveImageBy_sourced (v : Vendor) (W : World) (image : value) :
  sourced W uriOf (resolveImageBy v W image).
Proof.
  destruct v; [apply doubao_resolveImage_sourced | apply qwen_resolveImage_sourced].
Qed.

Lemma promise_all_sourced (W : World) (ps : list (M slot)) :
  (forall p, In p ps -> sourced W uriOf p) ->
  forall results s,
    outcome (promise_all ps) = inr results ->
    In (Uri s) results ->
    made W (trace (promise_all ps)) s.
Proof.
  induction ps as [| p rest IH]; intros Hps results s Hout Hin.
  - injection Hout as <-. destruct Hin.
  - destruct (promise_all_cons p rest) as [Ht Ho]. rewrite Ht. rewrite Ho in Hout.
    destruct (outcome p) as [e | a] eqn:Hp; [discriminate |].
    destruct (outcome (promise_all rest)) as [e | l] eqn:Hrest; [discriminate |].
    injection Hout as <-. destruct Hin as [-> | Hin].
    + apply (made_mono W (trace p)).
      * intros ev Hev. apply in_app_iff. now left.
      * now apply (Hps p (or_introl eq_refl) (Uri s) s).
    + apply (made_mono W (trace (promise_all rest))).
      * intros ev Hev. apply in_app_iff. now right.
      * apply (IH (fun q Hq => Hps q (or_intror Hq)) l s eq_refl Hin).
Qed.

Lemma promise_all_length {A} (ps : list (M A)) (results : list A) :
  outcome (promise_all ps) = inr results -> List.length results = List.length ps.
Proof.
  revert results. induction ps as [| p rest IH]; intros results Hout.
  - now injection Hout as <-.
  - rewrite (proj2 (promise_all_cons p rest)) in Hout.
    destruct (outcome p) as [e | a]; [discriminate |].
    destruct (outcome (promise_all rest)) as [e | l]; [discriminate |].
    injection Hout as <-. simpl. now rewrite (IH l eq_refl).
Qed.

Lemma filterBoolean_in (results : list slot) (s : string) :
  In s (filterBoolean results) -> In (Uri s) results /\ s <> "".
Proof.
  unfold filterBoolean. intros Hin. apply in_flat_map in Hin as (r & Hr & Hs).
  destruct r as [u | |]; try contradiction.
  destruct (u =? "")%string eqn:Hu; [contradiction |].
  destruct Hs as [<- | []]. split; [exact Hr | now apply String.eqb_neq].
Qed.

Lemma filterBoolean_length (results : list slot) :
  (List.length (filterBoolean results) <= List.length results)%nat.
Proof.
  induction results as [| r rest IH]; [apply le_n |].
  rewrite filterBoolean_cons, length_app.
  assert (Hone : (List.length (kept r) <= 1)%nat).
  { unfold kept, filterBoolean. simpl.
    destruct r as [u | |]; [destruct (u =? "")%string | |]; simpl; lia. }
  cbn [List.length]. lia.
Qed.

(** A non-2xx response never comes back with images. *)
Lemma rejected_returns_empty (v : Vendor) (W : World) (response : Response)
      (r : GenerateResult) :
  ok response = false ->
  outcome (respondBy v W response) = inr r -> images r = [].
Proof.
  intros Hok. destruct v; simpl.
  - unfold DoubaoAdapter.respond, DoubaoAdapter.rejected. rewrite Hok. simpl.
    destruct ((status response =? 401) || (status response =? 404));
      [now intros [= <-] |].
    destruct (status response =? 429); [now intros [= <-] |].
    destruct (status response =? 400); [now intros [= <-] | discriminate].
  - unfold QwenAdapter.respond, QwenAdapter.rejected. rewrite Hok. simpl.
    destruct ((status response =? 401) || (status response =? 404)); [discriminate |].
    destruct (status response =? 429); [discriminate |].
    rewrite outcome_bind.
    destruct (outcome _) as [e | []]; discriminate.
Qed.

(** What the part after [fetch] returns: every image is non-empty and was
    made during that part. *)
Lemma respond_sourced (v : Vendor) (W : World) (response : Response)
      (r : GenerateResult) (s : string) :
  outcome (respondBy v W response) = inr r ->
  In s (images r) ->
  s <> "" /\ made W (trace (respondBy v W response)) s.
Proof.
  destruct (ok response) eqn:Hok.
  2:{ intros Hout Hin. rewrite (rejected_returns_empty _ _ _ _ Hok Hout) in Hin.
      destruct Hin. }
  rewrite (normalize_shape _ _ _ Hok). intros Hout Hin.
  rewrite outcome_bind in Hout. rewrite trace_bind.
  destruct (outcome (responseJson W response)) as [e | gr]; [discriminate |].
  rewrite outcome_bind in Hout. rewrite trace_bind.
  destruct (outcome (entriesBy v gr)) as [e | entries]; [discriminate |].
  rewrite outcome_bind in Hout. rewrite trace_bind.
  destruct (outcome (promise_all _)) as [e | results] eqn:Hall; [discriminate |].
  injection Hout as <-. simpl in Hin.
  apply filterBoolean_in in Hin as [Hin Hne]. split; [exact Hne |].
  apply (made_mono W (trace (promise_all
           (map (fun image => resolveImageBy v W (Some image)) entries)))).
  - intros ev Hev. rewrite !in_app_iff. right. right. now left.
  - apply (promise_all_sourced W _ (fun p Hp => ltac:(
             apply in_map_iff in Hp as (x & <- & _); apply resolveImageBy_sourced))
             results s Hall Hin).
Qed.

(** The call, in the two shapes it can take: nothing was sent and any
    result has no images, or a request was sent and the rest is decided by
    what [fetch] did. *)
Lemma run_shape (v : Vendor) (W : World) (request : GenerateRequest)
      (st : ApiProviderSettings) :
  (trace (generateBy v W request st) = []
   /\ forall r, outcome (generateBy v W request st) = inr r -> images r = [])
  \/ exists url init,
       generateBy v W request st
       = prepend [HttpPost url init]
           (match fetch W url init with
            | inl e => rescueBy v e
            | inr response => try_catch (respondBy v W response) (rescueBy v)
            end).
Proof.
  destruct v; simpl; unfold DoubaoAdapter.generate.
  - rewrite doubao_stages.
    destruct (doParseSettings W st _) as [e | parsed].
    { left. split; [reflexivity | discriminate]. }
    destruct (findModel _ _) as [e | m].
    { left. split; [apply doubao_rescue_silent | apply (rescue_returns DoubaoV)]. }
    destruct (chooseAblility _ _) as [e | a].
    { left. split; [apply doubao_rescue_silent | apply (rescue_returns DoubaoV)]. }
    right. eexists _, _. reflexivity.
  - rewrite qwen_stages.
    destruct (doParseSettings W st _) as [e | parsed].
    { left. split; [apply qwen_rescue_silent | apply (rescue_returns QwenV)]. }
    right. eexists _, _. reflexivity.
Qed.

(** Every image in a returned result is a non-empty string that one of
    the two helpers made during the call: [base64ToDataURI] on a payload
    it was called with, or [fetchUrlToDataURI] on a source it was called
    with. The adapters never make up or alter an image. *)
Theorem images_come_from_helpers
        (v : Vendor) (W : World) (request : GenerateRequest)
        (st : ApiProviderSettings) (r : GenerateResult) (s : string) :
  outcome (generateBy v W request st) = inr r ->
  In s (images r) ->
  s <> "" /\ made W (trace (generateBy v W request st)) s.
Proof.
  intros Hout Hin.
  destruct (run_shape v W request st) as [[_ Hnone] | (url & init & Hrun)].
  { rewrite (Hnone r Hout) in Hin. destruct Hin. }
  rewrite Hrun in Hout |- *. rewrite outcome_prepend in Hout. rewrite trace_prepend.
  destruct (fetch W url init) as [e | response].
  { rewrite (rescue_returns v e r Hout) in Hin. destruct Hin. }
  rewrite outcome_try_catch in Hout. rewrite trace_try_catch.
  destruct (outcome (respondBy v W response)) as [e | a] eqn:Hresp.
  { rewrite (rescue_returns v e r Hout) in Hin. destruct Hin. }
  injection Hout as <-.
  destruct (respond_sourced v W response a s Hresp Hin) as [Hne Hmade].
  split; [exact Hne |].
  apply (made_mono W (trace (respondBy v W response))); [| exact Hmade].
  intros ev Hev. now right.
Qed.

Lemma images_come_from_helpers_witness :
  (outcome (generateBy DoubaoV Sample.halfReachable Sample.request [])
   = inr {| images := ["data:image/png;base64,QUJD"]; errorReason := None |}
   /\ In "data:image/png;base64,QUJD" ["data:image/png;base64,QUJD"])
  /\ "data:image/png;base64,QUJD" <> ""
  /\ made Sample.halfReachable
       (trace (generateBy DoubaoV Sample.halfReachable Sample.request []))
       "data:image/png;base64,QUJD".
Proof.
  split; [split; [reflexivity | now left] |].
  exact (images_come_from_helpers DoubaoV Sample.halfReachable Sample.request []
           {| images := ["data:image/png;base64,QUJD"]; errorReason := None |}
           "data:image/png;base64,QUJD" eq_refl (or_introl eq_refl)).
Defined.

(** A call never returns more images than the response has entries: each
    entry gives one image or none. *)
Theorem images_bounded_by_entries
        (v : Vendor) (W : World) (request : GenerateRequest)
        (st : ApiProviderSettings) (response : Response)
        (generateResult : json) (entries : list json) (r : GenerateResult) :
  answered W (generateBy v W request st) response ->
  ok response = true ->
  JSON_parse W (text response) = Some generateResult ->
  outcome (entriesBy v (Some generateResult)) = inr entries ->
  outcome (generateBy v W request st) = inr r ->
  (List.length (images r) <= List.length entries)%nat.
Proof.
  intros Hans Hok Hparse Hentries Hout.
  destruct (answered_ok_run _ _ _ _ _ Hans Hok) as (url & init & Hrun).
  rewrite Hrun, outcome_prepend, outcome_try_catch in Hout.
  unfold responseJson in Hout. rewrite Hparse, bind_ret, outcome_bind, Hentries in Hout.
  rewrite outcome_bind in Hout.
  destruct (outcome (promise_all _)) as [e | results] eqn:Hall.
  - rewrite (rescue_returns v e r Hout). apply Nat.le_0_l.
  - injection Hout as <-. simpl.
    apply promise_all_length in Hall. rewrite length_map in Hall. rewrite <- Hall.
    apply filterBoolean_length.
Qed.

Lemma images_bounded_by_entries_witness :
  (answered Sample.halfReachable
     (generateBy DoubaoV Sample.halfReachable Sample.request []) Sample.success
   /\ ok Sample.success = true
   /\ JSON_parse Sample.halfReachable (text Sample.success) = Some Sample.mixed
   /\ outcome (entriesBy DoubaoV (Some Sample.mixed))
      = inr [JObj [("url", JStr "https://cdn.test/a.png")];
             JObj [("url", JStr "https://cdn.test/gone.png")]]
   /\ outcome (generateBy DoubaoV Sample.halfReachable Sample.request [])
      = inr {| images := ["data:image/png;base64,QUJD"]; errorReason := None |})
  /\ (1 <= 2)%nat.
Proof.
  assert (Hans : answered Sample.halfReachable
            (generateBy DoubaoV Sample.halfReachable Sample.request []) Sample.success).
  { eexists _, _. split; reflexivity. }
  split; [repeat split; [exact Hans | reflexivity ..] |].
  exact (images_bounded_by_entries DoubaoV Sample.halfReachable Sample.request []
           Sample.success Sample.mixed _ _ Hans eq_refl eq_refl eq_refl eq_refl).
Defined.

(* ===================================================================== *)
(** ** Properties that hold along a whole run *)
(* ===================================================================== *)

Section Along.

Variable Q : list event -> Prop.
Hypothesis Q_nil : Q [].
Hypothesis Q_app : forall t1 t2, Q t1 -> Q t2 -> Q (t1 ++ t2)%list.

Lemma along_ret {A} (a : A) : along Q (ret a).
Proof. exact Q_nil. Qed.

Lemma along_throw {A} (e : JsError) : along Q (@throw A e).
Proof. exact Q_nil. Qed.

Lemma along_lift {A} (r : JsError + A) : along Q (lift r).
Proof. exact Q_nil. Qed.

Lemma along_bind {A B} (m : M A) (k : A -> M B) :
  along Q m -> (forall a, along Q (k a)) -> along Q (bind m k).
Proof.
  unfold along. intros Hm Hk. rewrite trace_bind.
  destruct (outcome m) as [e | a]; [exact Hm | now apply Q_app].
Qed.

Lemma along_try_catch {A} (m : M A) (h : JsError -> M A) :
  along Q m -> (forall e, along Q (h e)) -> along Q (try_catch m h).
Proof.
  unfold along. intros Hm Hh. rewrite trace_try_catch.
  destruct (outcome m) as [e | a]; [now apply Q_app | exact Hm].
Qed.

Lemma along_promise_all {A} (ps : list (M A)) :
  (forall p, In p ps -> along Q p) -> along Q (promise_all ps).
Proof.
  unfold along. induction ps as [| p rest IH]; intros Hps; [exact Q_nil |].
  rewrite (proj1 (promise_all_cons p rest)). apply Q_app.
  - apply Hps. now left.
  - apply IH. intros q Hq. apply Hps. now right.
Qed.

Lemma along_prepend {A} (t : list event) (m : M A) :
  Q t -> along Q m -> along Q (prepend t m).
Proof. unfold along. intros Ht Hm. rewrite trace_prepend. now apply Q_app. Qed.

(** Takes apart a computation that has no event of its own. *)
Ltac along_pure :=
  repeat first
    [ apply along_ret
    | apply along_throw
    | apply along_lift
    | apply along_bind; [| intros ?]
    | match goal with
      | |- along _ (if ?c then _ else _) => destruct c
      | |- along _ (match ?x with _ => _ end) => destruct x
      end ].

Lemma along_responseJson (W : World) (response : Response) :
  along Q (responseJson W response).
Proof. unfold responseJson. along_pure. Qed.

Lemma along_entriesBy (v : Vendor) (generateResult : value) :
  along Q (entriesBy v generateResult).
Proof.
  destruct v; simpl;
    unfold DoubaoAdapter.imageData, QwenAdapter.imageData, QwenAdapter.entriesOf;
    along_pure.
Qed.

Lemma along_rescue (v : Vendor) (e : JsError) : along Q (rescueBy v e).
Proof. unfold along. rewrite rescueBy_silent. exact Q_nil. Qed.

(** A property of traces that holds of nothing, is kept by putting traces
    one after the other, holds of the request and holds along the image
    callback, holds along the whole call. *)
Lemma along_generate (v : Vendor) (W : World) (request : GenerateRequest)
      (st : ApiProviderSettings) :
  (forall url init, Q [HttpPost url init]) ->
  (forall image, along Q (resolveImageBy v W image)) ->
  along Q (generateBy v W request st).
Proof.
  intros Hpost Hresolve.
  destruct (run_shape v W request st) as [[Hsilent _] | (url & init & Hrun)].
  { unfold along. rewrite Hsilent. exact Q_nil. }
  rewrite Hrun. apply along_prepend; [apply Hpost |].
  destruct (fetch W url init) as [e | response]; [apply along_rescue |].
  destruct (ok response) eqn:Hok.
  - apply along_try_catch; [| apply along_rescue].
    rewrite (normalize_shape _ _ _ Hok).
    apply along_bind; [apply along_responseJson | intros gr].
    apply along_bind; [apply along_entriesBy | intros entries].
    apply along_bind; [| intros; apply along_ret].
    apply along_promise_all. intros p Hin.
    apply in_map_iff in Hin as (x & <- & _). apply Hresolve.
  - unfold along. rewrite (rejected_silent _ _ _ Hok). exact Q_nil.
Qed.

End Along.

(* ===================================================================== *)
(** ** What is logged *)
(* ===================================================================== *)

Lemma unlogged_nil : unlogged [].
Proof. intros ev []. Qed.

Lemma unlogged_app (t1 t2 : list event) :
  unlogged t1 -> unlogged t2 -> unlogged (t1 ++ t2).
Proof. intros H1 H2 ev Hin. apply in_app_iff in Hin as [Hin | Hin]; auto. Qed.

Lemma logsFailures_nil (W : World) : logsFailures W [].
Proof. split; [intros src e [] | intros label e []]. Qed.

Lemma logsFailures_app (W : World) (t1 t2 : list event) :
  logsFailures W t1 -> logsFailures W t2 -> logsFailures W (t1 ++ t2).
Proof.
  intros [H1 G1] [H2 G2]. split.
  - intros src e Hin Hget. apply in_app_iff.
    apply in_app_iff in Hin as [Hin | Hin]; [left; eauto | right; eauto].
  - intros label e Hin.
    apply in_app_iff in Hin as [Hin | Hin].
    + destruct (G1 label e Hin) as (Hl & src & Hsrc & Hget).
      split; [exact Hl |]. exists src. split; [apply in_app_iff; now left | exact Hget].
    + destruct (G2 label e Hin) as (Hl & src & Hsrc & Hget).
      split; [exact Hl |]. exists src. split; [apply in_app_iff; now right | exact Hget].
Qed.

Lemma logsFailures_quiet (W : World) (t : list event) :
  (forall ev, In ev t -> match ev with
                         | UrlFetch _ => False
                         | ConsoleError _ _ => False
                         | _ => True
                         end) ->
  logsFailures W t.
Proof.
  intros H. split.
  - intros src e Hin. destruct (H _ Hin).
  - intros label e Hin. destruct (H _ Hin).
Qed.

Lemma fetchOrNull_logs (W : World) (src : value) :
  along (logsFailures W) (QwenAdapter.fetchOrNull W src).
Proof.
  unfold along, QwenAdapter.fetchOrNull.
  rewrite trace_try_catch, outcome_callFetchUrl, trace_callFetchUrl.
  destruct (fetchUrlToDataURI W src) as [e | s] eqn:Hget.
  - rewrite bind_tell, trace_prepend. simpl. split.
    + intros src' e' [[= <-] | [H | []]]; [| discriminate].
      intros Hget'. rewrite Hget in Hget'. injection Hget' as <-. right. now left.
    + intros label e' [H | [[= <- <-] | []]]; [discriminate |].
      split; [reflexivity |]. exists src. split; [now left | exact Hget].
  - split.
    + intros src' e' [[= <-] | []]. congruence.
    + intros label e' [H | []]. discriminate.
Qed.

Lemma callBase64_logs (W : World) (payload : value) :
  along (logsFailures W) (callBase64 W payload).
Proof.
  unfold along. rewrite trace_callBase64. apply logsFailures_quiet.
  intros ev [<- | []]. exact I.
Qed.

Lemma qwen_contentLoop_logs (W : World) (content : list json) :
  along (logsFailures W) (QwenAdapter.contentLoop W content).
Proof.
  pose proof (logsFailures_nil W) as Hnil.
  pose proof (logsFailures_app W) as Happ.
  induction content as [| item rest IH]; [exact Hnil |].
  rewrite contentLoop_cons.
  apply along_bind; [exact Happ | exact Hnil | intros img].
  destruct (truthy img).
  - apply along_bind; [exact Happ | exact Hnil | intros [|]].
    + apply along_bind; [exact Happ | apply fetchOrNull_logs | intros; exact Hnil].
    + apply along_bind; [exact Happ | apply callBase64_logs | intros; exact Hnil].
  - apply along_bind; [exact Happ | exact Hnil | intros image_url].
    destruct (truthy image_url); [| exact IH].
    apply along_bind; [exact Happ | apply fetchOrNull_logs | intros; exact Hnil].
Qed.

Lemma qwen_resolveImage_logs (W : World) (image : value) :
  along (logsFailures W) (QwenAdapter.resolveImage W image).
Proof.
  pose proof (logsFailures_nil W) as Hnil.
  pose proof (logsFailures_app W) as Happ.
  unfold QwenAdapter.resolveImage.
  apply along_bind; [exact Happ | exact Hnil | intros message].
  apply along_bind; [exact Happ | destruct (truthy message); exact Hnil | intros content].
  apply along_bind; [exact Happ | |].
  - destruct (truthy message && truthy content); [| exact Hnil].
    apply along_bind; [exact Happ | exact Hnil | intros items].
    apply qwen_contentLoop_logs.
  - intros [r |]; [exact Hnil |].
    apply along_bind; [exact Happ | exact Hnil | intros b64_json].
    destruct (truthy b64_json); [apply callBase64_logs |].
    apply along_bind; [exact Happ | exact Hnil | intros url].
    destruct (truthy url); [apply fetchOrNull_logs |].
    apply along_bind; [exact Happ | exact Hnil | intros image_url].
    destruct (truthy image_url); [apply fetchOrNull_logs |].
    apply along_bind; [exact Happ | exact Hnil | intros base64].
    destruct (truthy base64); [apply callBase64_logs |].
    exact Hnil.
Qed.

Lemma doubao_resolveImage_unlogged (W : World) (image : value) :
  along unlogged (DoubaoAdapter.resolveImage W image).
Proof.
  pose proof unlogged_nil as Hnil.
  pose proof unlogged_app as Happ.
  assert (Hdecode : forall p, along unlogged (callBase64 W p)).
  { intros p. unfold along. rewrite trace_callBase64. now intros ev [<- | []]. }
  assert (Hfetch : forall u, along unlogged
                     (try_catch (callFetchUrl W u) (fun _ => ret Null))).
  { intros u. apply along_try_catch; [exact Happ | | intros; exact Hnil].
    unfold along. rewrite trace_callFetchUrl. now intros ev [<- | []]. }
  unfold DoubaoAdapter.resolveImage.
  apply along_bind; [exact Happ | exact Hnil | intros b64_json].
  destruct (truthy b64_json); [apply Hdecode |].
  apply along_bind; [exact Happ | exact Hnil | intros url].
  destruct (truthy url); [apply Hfetch |].
  apply along_bind; [exact Happ | exact Hnil | intros image_url].
  destruct (truthy image_url); [apply Hfetch |].
  apply along_bind; [exact Happ | exact Hnil | intros base64].
  destruct (truthy base64); [apply Hdecode |].
  exact Hnil.
Qed.

(** Qwen logs every failed fetch of an image, with the error and the
    label "Qwen image fetch error:", and logs nothing else. Doubao drops
    failed fetches without a word: it never logs at all. *)
Theorem failed_fetches_logged
        (W : World) (request : GenerateRequest) (st : ApiProviderSettings) :
  logsFailures W (trace (generateBy QwenV W request st))
  /\ unlogged (trace (generateBy DoubaoV W request st)).
Proof.
  split.
  - apply (along_generate (logsFailures W) (logsFailures_nil W) (logsFailures_app W)).
    + intros url init. apply logsFailures_quiet. intros ev [<- | []]. exact I.
    + apply qwen_resolveImage_logs.
  - apply (along_generate unlogged unlogged_nil unlogged_app).
    + intros url init ev [<- | []]. reflexivity.
    + apply doubao_resolveImage_unlogged.
Qed.

(* ===================================================================== *)
(** ** An aspect ratio outside the table *)
(* ===================================================================== *)

Lemma sizeOf_unknown (table : list (string * string)) (ratio : string) :
  (forall s, ~ In (ratio, s) table) -> sizeOf table ratio = undefined.
Proof.
  induction table as [| [k s] rest IH]; intros Hnot; [reflexivity |].
  simpl. destruct (k =? ratio)%string eqn:Hk.
  - apply String.eqb_eq in Hk. subst k. exfalso. apply (Hnot s). now left.
  - apply IH. intros s' Hin. apply (Hnot s'). now right.
Qed.

(** An aspect ratio that is not a key of the adapter's table (and not
    [__proto__], which every JavaScript object answers to) makes the size
    disappear from the request body: Doubao sends no [size], not even
    [null], and Qwen sends no [parameters.size], not its 1024*1024. The
    empty string counts as no aspect ratio and gives the default. *)
Theorem unknown_ratio_omits_size
        (v : Vendor) (W : World) (request : GenerateRequest)
        (st : ApiProviderSettings) (url : string) (init : RequestInit) :
  posted (generateBy v W request st) = Some (url, init) ->
  (forall ar,
      req_aspectRatio request = Some ar ->
      ar <> "" -> ar <> "__proto__" ->
      (forall s, ~ In (ar, s) (sizeTable v)) ->
      sizeField v (body init) = undefined)
  /\ (req_aspectRatio request = Some "" ->
      sizeField v (body init) = Some (defaultSize v)).
Proof.
  intros Hpost. destruct (posted_inv _ _ _ _ _ _ Hpost) as [Hbody _].
  rewrite Hbody, sizeField_requestBody. unfold aspectRatioGiven. split.
  - intros ar Har Hne _ Hnot. rewrite Har.
    apply String.eqb_neq in Hne. rewrite Hne. now apply sizeOf_unknown.
  - now intros ->.
Qed.

Lemma unknown_ratio_omits_size_witness :
  (posted (generateBy QwenV Sample.refusing Sample.wideRequest [])
   = Some (Sample.qwenUrl, Sample.qwenWideInit)
   /\ req_aspectRatio Sample.wideRequest = Some "21:9"
   /\ "21:9" <> "" /\ "21:9" <> "__proto__"
   /\ forall s, ~ In ("21:9", s) (sizeTable QwenV))
  /\ sizeField QwenV (body Sample.qwenWideInit) = undefined.
Proof.
  assert (Hnot : forall s, ~ In ("21:9", s) (sizeTable QwenV)).
  { intros s H. simpl in H.
    repeat (destruct H as [H | H]; [discriminate |]). exact H. }
  split; [repeat split; [discriminate | discriminate | exact Hnot] |].
  apply (proj1 (unknown_ratio_omits_size QwenV Sample.refusing Sample.wideRequest []
                  Sample.qwenUrl Sample.qwenWideInit eq_refl) "21:9").
  - reflexivity.
  - discriminate.
  - discriminate.
  - exact Hnot.
Defined.

(* ===================================================================== *)
(** ** The password update: what happens to the table *)
(* ===================================================================== *)

Module AuthMore.

Import AuthService.

(** The table after a call is the table before it, unless every check
    passed and the update went through. *)
Lemma update_inv (E : Env) (req : UpdatePasswordRequest) (uid : string)
      (db db' : Db) (out : JsError + UpdatePasswordResult) :
  updatePassword E req uid db = (out, db') ->
  (db' = db /\ forall result, out = inr result -> success result = false)
  \/ (exists sel p hashed,
        out = inr {| success := true; error := None; errorCode := None |}
        /\ getContext E = None
        /\ selectAccounts E db uid = inr [sel]
        /\ password sel = Some p /\ p <> ""
        /\ verifyPassword E p (currentPassword req) = inr true
        /\ hashPassword E (newPassword req) = inr hashed
        /\ updateAccount E db (account_id sel) hashed = inr db').
Proof.
  unfold updatePassword.
  destruct (getContext E) as [e |] eqn:Hctx.
  { intros [= <- <-]. left. split; [reflexivity | discriminate]. }
  destruct (selectAccounts E db uid) as [e | [| sel rest]] eqn:Hsel.
  { intros [= <- <-]. left. split; [reflexivity | now intros r [= <-]]. }
  { intros [= <- <-]. left. split; [reflexivity | now intros r [= <-]]. }
  destruct (AuthFacts.selectAccounts_short _ _ _ _ _ Hsel) as [-> _].
  destruct (noPassword sel) eqn:Hnp.
  { intros [= <- <-]. left. split; [reflexivity | now intros r [= <-]]. }
  unfold noPassword in Hnp. destruct (password sel) as [p |] eqn:Hp; [| discriminate].
  apply String.eqb_neq in Hnp.
  destruct (verifyPassword E p (currentPassword req)) as [e | [|]] eqn:Hver.
  { intros [= <- <-]. left. split; [reflexivity | now intros r [= <-]]. }
  2:{ intros [= <- <-]. left. split; [reflexivity | now intros r [= <-]]. }
  destruct (hashPassword E (newPassword req)) as [e | hashed] eqn:Hhash.
  { intros [= <- <-]. left. split; [reflexivity | now intros r [= <-]]. }
  destruct (updateAccount E db (account_id sel) hashed) as [e | db2] eqn:Hupd.
  { intros [= <- <-]. left. split; [reflexivity | now intros r [= <-]]. }
  intros [= <- <-]. right. exists sel, p, hashed. now repeat split.
Qed.

Lemma updateAccount_map (E : Env) (db db' : Db) (aid hashed : string) :
  updateAccount E db aid hashed = inr db' ->
  db' = map (fun a => if (account_id a =? aid)%string
                      then mkAccount (account_id a) (userId a) (Some hashed)
                      else a) db.
Proof.
  unfold updateAccount. destruct (updateFault E); [discriminate |]. now intros [= <-].
Qed.

(** Whatever a call to [updatePassword] does, the table keeps its rows:
    none is added or removed, and no row changes its id or its user. A
    row's password changes only when the call succeeded and the row has
    the id of the account that was selected; it then is the hash of the
    new password. When account ids are unique, the rows of other users
    are therefore never touched. *)
Theorem update_keeps_rows
        (E : Env) (req : UpdatePasswordRequest) (uid : string)
        (db db' : Db) (out : JsError + UpdatePasswordResult) :
  updatePassword E req uid db = (out, db') ->
  map account_id db' = map account_id db
  /\ map userId db' = map userId db
  /\ (forall i a,
        nth_error db i = Some a ->
        nth_error db' i = Some a
        \/ exists sel hashed,
             selectAccounts E db uid = inr [sel]
             /\ account_id a = account_id sel
             /\ hashPassword E (newPassword req) = inr hashed
             /\ nth_error db' i
                = Some (mkAccount (account_id a) (userId a) (Some hashed)))
  /\ (NoDup (map account_id db) ->
      forall i a, nth_error db i = Some a -> userId a <> uid ->
                  nth_error db' i = Some a).
Proof.
  intros Hrun.
  destruct (update_inv _ _ _ _ _ _ Hrun)
    as [[-> _] | (sel & p & hashed & _ & _ & Hsel & _ & _ & _ & Hhash & Hupd)].
  { repeat split; auto. }
  apply updateAccount_map in Hupd. subst db'.
  set (f := fun a => if (account_id a =? account_id sel)%string
                     then mkAccount (account_id a) (userId a) (Some hashed)
                     else a).
  assert (Hid : forall a, account_id (f a) = account_id a).
  { intros a. unfold f. now destruct (account_id a =? account_id sel)%string. }
  assert (Huser : forall a, userId (f a) = userId a).
  { intros a. unfold f. now destruct (account_id a =? account_id sel)%string. }
  assert (Hrow : forall i a,
             nth_error db i = Some a ->
             nth_error (map f db) i = Some (f a)).
  { intros i a Hnth. now rewrite nth_error_map, Hnth. }
  split; [| split; [| split]].
  - rewrite map_map. apply map_ext. exact Hid.
  - rewrite map_map. apply map_ext. exact Huser.
  - intros i a Hnth. rewrite (Hrow i a Hnth). unfold f.
    destruct (account_id a =? account_id sel)%string eqn:Heq; [| now left].
    right. exists sel, hashed. apply String.eqb_eq in Heq. now repeat split.
  - intros Hnodup i a Hnth Hother. rewrite (Hrow i a Hnth). f_equal. unfold f.
    destruct (account_id a =? account_id sel)%string eqn:Heq; [| reflexivity].
    exfalso. apply String.eqb_eq in Heq.
    (* the selected account is a row of [uid] with the same id *)
    unfold selectAccounts in Hsel. destruct (selectFault E); [discriminate |].
    injection Hsel as Hsel.
    assert (Hin : In sel (filter (fun a => (userId a =? uid)%string) db)).
    { destruct (filter _ db) as [| x l]; [discriminate |].
      simpl in Hsel. injection Hsel as ->. now left. }
    apply filter_In in Hin as [Hin Hu]. apply String.eqb_eq in Hu.
    apply In_nth_error in Hin as (j & Hj).
    assert (Hij : i = j).
    { apply (proj1 (NoDup_nth_error (map account_id db)) Hnodup).
      - rewrite length_map. apply nth_error_Some. congruence.
      - rewrite !nth_error_map, Hnth, Hj. simpl. now rewrite Heq. }
    subst j. rewrite Hnth in Hj. injection Hj as ->. congruence.
Qed.

Lemma update_keeps_rows_witness :
  (updatePassword Sample.server Sample.change "u-1" Sample.shared
   = (inr {| success := true; error := None; errorCode := None |},
      [mkAccount "acc-0" "u-0" (Some "hash:other");
       mkAccount "acc-1" "u-1" (Some "hash:new-secret")])
   /\ NoDup (map account_id Sample.shared)
   /\ nth_error Sample.shared 0 = Some (mkAccount "acc-0" "u-0" (Some "hash:other"))
   /\ "u-0" <> "u-1")
  /\ nth_error [mkAccount "acc-0" "u-0" (Some "hash:other");
               mkAccount "acc-1" "u-1" (Some "hash:new-secret")] 0
     = Some (mkAccount "acc-0" "u-0" (Some "hash:other")).
Proof.
  assert (Hnd : NoDup (map account_id Sample.shared)).
  { simpl. repeat constructor; simpl; intuition discriminate. }
  split; [repeat split; [exact Hnd | discriminate] |].
  apply (proj2 (proj2 (proj2
           (update_keeps_rows Sample.server Sample.change "u-1" Sample.shared _ _
              eq_refl))) Hnd 0%nat (mkAccount "acc-0" "u-0" (Some "hash:other"))).
  - reflexivity.
  - discriminate.
Defined.

Lemma firstn_map {X Y} (f : X -> Y) (n : nat) (l : list X) :
  firstn n (map f l) = map f (firstn n l).
Proof.
  revert l. induction n as [| n IH]; intros [| x l]; simpl; try reflexivity.
  now rewrite IH.
Qed.

Lemma filter_map_keeps {X} (f : X -> X) (test : X -> bool) (l : list X) :
  (forall x, test (f x) = test x) ->
  filter test (map f l) = map f (filter test l).
Proof.
  intros Hf. induction l as [| x l IH]; [reflexivity |].
  simpl. rewrite Hf. destruct (test x); simpl; now rewrite IH.
Qed.

(** After a successful change the password in force is the new one: the
    account the next call selects is the same account, now holding the
    hash of the new password, so the next call is checked against that
    hash. If [verifyPassword] rejects a password against the new hash
    (the old password, say), the next call with it is refused with
    [currentPasswordIncorrect] and writes nothing. *)
Theorem new_password_in_force
        (E : Env) (req : UpdatePasswordRequest) (uid : string)
        (db db' : Db) (result : UpdatePasswordResult) :
  updatePassword E req uid db = (inr result, db') ->
  success result = true ->
  exists sel hashed,
    selectAccounts E db uid = inr [sel]
    /\ hashPassword E (newPassword req) = inr hashed
    /\ selectAccounts E db' uid
       = inr [mkAccount (account_id sel) (userId sel) (Some hashed)]
    /\ (forall req2,
          hashed <> "" ->
          verifyPassword E hashed (currentPassword req2) = inr false ->
          updatePassword E req2 uid db'
          = (inr (refused "Current password is incorrect" "currentPasswordIncorrect"),
             db')).
Proof.
  intros Hrun Hsuccess.
  destruct (update_inv _ _ _ _ _ _ Hrun)
    as [[_ Hfail] | (sel & p & hashed & _ & Hctx & Hsel & _ & _ & _ & Hhash & Hupd)].
  { rewrite (Hfail result eq_refl) in Hsuccess. discriminate. }
  exists sel, hashed.
  apply updateAccount_map in Hupd.
  assert (Hsel' : selectAccounts E db' uid
                  = inr [mkAccount (account_id sel) (userId sel) (Some hashed)]).
  { unfold selectAccounts in *. destruct (selectFault E); [discriminate |].
    assert (Hfirst : firstn 1 (filter (fun a => (userId a =? uid)%string) db) = [sel])
      by congruence.
    subst db'. rewrite filter_map_keeps, firstn_map, Hfirst.
    - simpl. now rewrite String.eqb_refl.
    - intros a. now destruct (account_id a =? account_id sel)%string. }
  repeat split; auto.
  intros req2 Hne Hver. unfold updatePassword.
  rewrite Hctx, Hsel'. unfold noPassword. cbn [password].
  apply String.eqb_neq in Hne. now rewrite Hne, Hver.
Qed.

Lemma new_password_in_force_witness :
  (updatePassword Sample.server Sample.change "u-1" Sample.table
   = (inr {| success := true; error := None; errorCode := None |},
      [mkAccount "acc-1" "u-1" (Some "hash:new-secret")])
   /\ "hash:new-secret" <> ""
   /\ verifyPassword Sample.server "hash:new-secret" (currentPassword Sample.change)
      = inr false)
  /\ updatePassword Sample.server Sample.change "u-1"
       [mkAccount "acc-1" "u-1" (Some "hash:new-secret")]
     = (inr (refused "Current password is incorrect" "currentPasswordIncorrect"),
        [mkAccount "acc-1" "u-1" (Some "hash:new-secret")]).
Proof.
  split; [repeat split; discriminate |].
  destruct (new_password_in_force Sample.server Sample.change "u-1" Sample.table
              [mkAccount "acc-1" "u-1" (Some "hash:new-secret")]
              {| success := true; error := None; errorCode := None |}
              eq_refl eq_refl) as (sel & hashed & _ & Hhash & _ & Hnext).
  injection Hhash as <-.
  apply (Hnext Sample.change); [discriminate | reflexivity].
Defined.

(** Only the first account row of the user is looked at. When that row has
    no password (a social login), the call is refused with
    [socialLoginCannotChangePassword] and writes nothing, even when a
    later row of the same user has a password. *)
Theorem first_account_decides
        (E : Env) (req : UpdatePasswordRequest) (uid : string) (db : Db)
        (first : Account) (others : list Account) :
  getContext E = None ->
  selectFault E = None ->
  filter (fun a => (userId a =? uid)%string) db = first :: others ->
  noPassword first = true ->
  updatePassword E req uid db
  = (inr (refused "This account uses social login and cannot change password"
                  "socialLoginCannotChangePassword"), db).
Proof.
  intros Hctx Hfault Hrows Hnp. unfold updatePassword, selectAccounts.
  rewrite Hctx, Hfault, Hrows. simpl. now rewrite Hnp.
Qed.

Lemma first_account_decides_witness :
  (getContext Sample.server = None
   /\ selectFault Sample.server = None
   /\ filter (fun a => (userId a =? "u-2")%string) Sample.bob
      = mkAccount "acc-7" "u-2" None
          :: [mkAccount "acc-8" "u-2" (Some "hash:old-secret")]
   /\ noPassword (mkAccount "acc-7" "u-2" None) = true)
  /\ updatePassword Sample.server Sample.change "u-2" Sample.bob
     = (inr (refused "This account uses social login and cannot change password"
                     "socialLoginCannotChangePassword"), Sample.bob).
Proof.
  split; [repeat split |].
  exact (first_account_decides Sample.server Sample.change "u-2" Sample.bob
           (mkAccount "acc-7" "u-2" None)
           [mkAccount "acc-8" "u-2" (Some "hash:old-secret")]
           eq_refl eq_refl eq_refl eq_refl).
Defined.

(** The route answers with status 200, 400 or 500 and never throws: 200
    with the [ok()] envelope exactly when the service reported success,
    500 exactly when the service threw (it could not get its context),
    400 otherwise. The table is as it was unless the status is 200. *)
Theorem route_statuses
        (E : Env) (uid : string) (req : UpdatePasswordRequest) (db : Db) :
  let reply := fst (updatePasswordRoute E uid req db) in
  let db' := snd (updatePasswordRoute E uid req db) in
  (reply_status reply = 200 \/ reply_status reply = 400 \/ reply_status reply = 500)
  /\ (reply_status reply = 200 <->
      exists result, fst (updatePassword E req uid db) = inr result
                     /\ success result = true)
  /\ (reply_status reply = 200 -> reply_body reply = okEnvelope E)
  /\ (reply_status reply = 500 <-> getContext E <> None)
  /\ (reply_status reply <> 200 -> db' = db)
  /\ db' = snd (updatePassword E req uid db).
Proof.
  cbv zeta. unfold updatePasswordRoute.
  destruct (updatePassword E req uid db) as [out db2] eqn:Hrun.
  pose proof (update_inv _ _ _ _ _ _ Hrun) as Hinv.
  assert (Hctx : getContext E <> None <-> exists e, out = inl e).
  { revert Hrun. unfold updatePassword.
    destruct (getContext E) as [e |].
    - intros [= <- _]. split; [now exists e | discriminate].
    - split; [congruence |]. intros [e ->]. exfalso. revert Hrun.
      destruct (selectAccounts E db uid) as [? | [| a ?]]; try discriminate.
      destruct (noPassword a); try discriminate.
      destruct (verifyPassword E _ _) as [? | [|]]; try discriminate.
      destruct (hashPassword E _); try discriminate.
      destruct (updateAccount E db _ _); discriminate. }
  destruct out as [e | result]; simpl.
  - repeat split; auto; try discriminate.
    + intros (r & Hr & _). discriminate.
    + intros _. apply Hctx. now exists e.
    + destruct Hinv as [[-> _] | (? & ? & ? & H & _)]; [reflexivity | discriminate].
  - destruct (success result) eqn:Hs; simpl.
    + repeat split; auto; try discriminate.
      * intros _. now exists result.
      * intros H. apply Hctx in H as [e He]. discriminate.
      * now intros H.
    + repeat split; auto; try discriminate.
      * intros (r & [= <-] & Hr). congruence.
      * intros H. apply Hctx in H as [e He]. discriminate.
      * destruct Hinv as [[-> _] | (? & ? & ? & [= ->] & _)];
          [reflexivity | discriminate].
Qed.

End AuthMore.

(* ===================================================================== *)
(** ** The account page against the service *)
(* ===================================================================== *)

Module PageFacts.

Import AuthService AccountPage.

Lemma validate_passes (f : PasswordForm) :
  validate f = None <->
  UpdatePasswordSchema (mkPwRequest (form_currentPassword f) (form_newPassword f)) = true
  /\ form_newPassword f = form_confirmPassword f.
Proof.
  unfold validate, UpdatePasswordSchema. cbn [currentPassword newPassword].
  destruct f as [cur new confirm]; cbn [form_currentPassword form_newPassword
                                       form_confirmPassword].
  destruct (cur =? "")%string eqn:Hcur.
  { apply String.eqb_eq in Hcur. subst cur. simpl. split; [discriminate |].
    intros [H _]. discriminate. }
  assert (Hlen : (1 <=? String.length cur)%nat = true).
  { destruct cur; [discriminate | reflexivity]. }
  rewrite Hlen. cbn [andb].
  destruct (new =? "")%string eqn:Hnew.
  { apply String.eqb_eq in Hnew. subst new. simpl. split; [discriminate |].
    intros [H _]. discriminate. }
  destruct (new =? confirm)%string eqn:Hsame; cbn [negb].
  2:{ split; [discriminate |]. intros [_ H]. apply String.eqb_neq in Hsame. contradiction. }
  apply String.eqb_eq in Hsame.
  destruct (String.length new <? 6)%nat eqn:Hshort.
  { split; [discriminate |]. intros [H _].
    apply Nat.ltb_lt in Hshort. apply andb_true_iff in H as [H _].
    apply Nat.leb_le in H. lia. }
  apply Nat.ltb_ge in Hshort.
  destruct (72 <? String.length new)%nat eqn:Hlong.
  { split; [discriminate |]. intros [H _].
    apply Nat.ltb_lt in Hlong. apply andb_true_iff in H as [_ H].
    apply Nat.leb_le in H. lia. }
  apply Nat.ltb_ge in Hlong.
  split; [| reflexivity]. intros _. split; [| exact Hsame].
  apply andb_true_iff. split; apply Nat.leb_le; lia.
Qed.

(** The events of [submit] after the request itself. *)
Lemma submit_tail (B : Browser) (f : PasswordForm) :
  exists tail,
    submit B f
    = ApiPost "/api/settings/updatePassword"
        (mkPwRequest (form_currentPassword f) (form_newPassword f)) :: tail
    /\ (forall url req, ~ In (ApiPost url req) tail)
    /\ (forall b, ~ In (SetIsSubmitting b) tail)
    /\ ((exists e title,
           tail = [ConsoleErr "Password update error:" e; Toast title Destructive])
        \/ (exists title, tail = [Toast title Destructive])
        \/ tail = [Toast (JStr (t B "auth.passwordUpdatedSuccessfully")) Default;
                   SetPasswordForm (mkForm "" "" "")]).
Proof.
  unfold submit. eexists. split; [reflexivity |].
  assert (Hcaught : forall e,
            (forall url req, ~ In (ApiPost url req) (caught B e))
            /\ (forall b, ~ In (SetIsSubmitting b) (caught B e))
            /\ ((exists e' title,
                   caught B e = [ConsoleErr "Password update error:" e';
                                 Toast title Destructive])
                \/ (exists title, caught B e = [Toast title Destructive])
                \/ caught B e
                   = [Toast (JStr (t B "auth.passwordUpdatedSuccessfully")) Default;
                      SetPasswordForm (mkForm "" "" "")])).
  { intros e. unfold caught. split; [| split].
    - intros url req [H | [H | []]]; discriminate.
    - intros b [H | [H | []]]; discriminate.
    - left. now exists e, (errorTitle B e). }
  destruct (api B _ _) as [e | response]; [apply Hcaught |].
  destruct (api_json response) as [result |]; [| apply Hcaught].
  destruct (isFailure response (Some result)) as [e | [|]]; [apply Hcaught | |].
  - destruct (failureTitle B (Some result)) as [e | title]; [apply Hcaught |].
    split; [| split].
    + intros url req [H | []]; discriminate.
    + intros b [H | []]; discriminate.
    + right; left. now exists title.
  - split; [| split].
    + intros url req [H | [H | []]]; discriminate.
    + intros b [H | [H | []]]; discriminate.
    + right; right. reflexivity.
Qed.

(** The page sends a request exactly when the form passes the server's
    schema and the two new passwords agree: whatever it posts goes to
    [/api/settings/updatePassword], carries the form's current and new
    password and satisfies [UpdatePasswordSchema], and every form that
    satisfies the schema with matching passwords is posted, once. *)
Theorem page_posts_what_the_schema_accepts (B : Browser) (f : PasswordForm) :
  let req := mkPwRequest (form_currentPassword f) (form_newPassword f) in
  (forall url req',
      In (ApiPost url req') (handlePasswordChange B f) ->
      url = "/api/settings/updatePassword" /\ req' = req
      /\ UpdatePasswordSchema req = true
      /\ form_newPassword f = form_confirmPassword f)
  /\ (UpdatePasswordSchema req = true ->
      form_newPassword f = form_confirmPassword f ->
      List.length (filter (fun ev => match ev with
                                     | ApiPost _ _ => true
                                     | _ => false
                                     end) (handlePasswordChange B f)) = 1%nat).
Proof.
  cbv zeta. unfold handlePasswordChange.
  destruct (submit_tail B f) as (tail & Hsubmit & Hnopost & _ & Hshape).
  destruct (validate f) as [key |] eqn:Hval.
  - split.
    + intros url req' [H | []]. discriminate.
    + intros Hschema Hsame.
      assert (Hnone : validate f = None) by (apply validate_passes; now split).
      congruence.
  - apply validate_passes in Hval as [Hschema Hsame]. split.
    + intros url req' Hin. rewrite Hsubmit in Hin.
      destruct Hin as [H | Hin]; [discriminate |].
      cbn [app] in Hin. destruct Hin as [H | Hin].
      * injection H as <- <-. now repeat split.
      * apply in_app_iff in Hin as [Hin | [H | []]];
          [now apply Hnopost in Hin | discriminate].
    + intros _ _. rewrite Hsubmit.
      destruct Hshape as [(e & title & ->) | [(title & ->) | ->]]; reflexivity.
Qed.

(** Every submit shows exactly one toast. The form is reset only together
    with the success toast, and only to the empty form; [isSubmitting] is
    switched on and off again when a request is sent, and is not touched
    when a check fails. *)
Theorem one_toast_per_submit (B : Browser) (f : PasswordForm) (busy : bool) :
  let evs := handlePasswordChange B f in
  List.length (filter isToast evs) = 1%nat
  /\ (forall f', In (SetPasswordForm f') evs ->
        f' = mkForm "" "" ""
        /\ In (Toast (JStr (t B "auth.passwordUpdatedSuccessfully")) Default) evs)
  /\ (formAfter f evs = f \/ formAfter f evs = mkForm "" "" "")
  /\ submittingAfter busy evs
     = match validate f with
       | None => false
       | Some _ => busy
       end.
Proof.
  cbv zeta. unfold handlePasswordChange.
  destruct (submit_tail B f) as (tail & Hsubmit & _ & _ & Hshape).
  destruct (validate f) as [key |].
  - split; [reflexivity | split; [| split; [now left | reflexivity]]].
    intros f' [H | []]. discriminate.
  - rewrite Hsubmit.
    destruct Hshape as [(e & title & ->) | [(title & ->) | ->]]; simpl.
    + split; [reflexivity | split; [| split; [now left | reflexivity]]].
      intros f' [H | [H | [H | [H | [H | []]]]]]; discriminate.
    + split; [reflexivity | split; [| split; [now left | reflexivity]]].
      intros f' [H | [H | [H | [H | []]]]]; discriminate.
    + split; [reflexivity | split; [| split; [now right | reflexivity]]].
      intros f' [H | [H | [H | [H | [H | []]]]]]; try discriminate.
      injection H as <-. split; [reflexivity |]. right; right; now left.
Qed.

(** With its context at hand the service always returns. *)
Lemma update_returns (E : Env) (req : UpdatePasswordRequest) (uid : string) (db : Db) :
  getContext E = None ->
  exists result db', updatePassword E req uid db = (inr result, db').
Proof.
  intros Hctx. unfold updatePassword. rewrite Hctx.
  destruct (selectAccounts E db uid) as [? | [| a ?]]; try (eexists _, _; reflexivity).
  destruct (noPassword a); try (eexists _, _; reflexivity).
  destruct (verifyPassword E _ _) as [? | [|]]; try (eexists _, _; reflexivity).
  destruct (hashPassword E _); try (eexists _, _; reflexivity).
  destruct (updateAccount E db _ _); eexists _, _; reflexivity.
Qed.

(** A failure reply of the route, read by the page. *)
Lemma failureTitle_of_reply (translate : string -> string) (B : Browser)
      (result : UpdatePasswordResult) :
  t B = translate ->
  failureTitle B
    (Some (JObj (prop "code" (Some (JStr "error"))
                 ++ prop "errorCode" (option_map JStr (errorCode result))
                 ++ prop "message" (option_map JStr (error result)))%list))
  = inr (refusalTitle translate result).
Proof.
  intros Ht. unfold failureTitle, refusalTitle. rewrite Ht.
  destruct (errorCode result) as [c |], (error result) as [m |]; simpl.
  all: repeat match goal with
              | |- context [(?x =? ?y)%string] => destruct (x =? y)%string; simpl
              end.
  all: reflexivity.
Qed.

(** The page wired to the route: for a form that passes the checks, the
    page posts once, and shows what the service decided. On success the
    success toast, and the form is reset. On a refusal one destructive
    toast whose title is the translation of [auth.<errorCode>] when the
    service gave a code that has a translation, and the service's message
    otherwise (so also when a step of the service threw). *)
Theorem page_shows_service_outcome
        (translate : string -> string) (E : Env) (uid : string) (db : Db)
        (f : PasswordForm) :
  validate f = None ->
  getContext E = None ->
  notNull (okEnvelope E) = true ->
  strictEqStr (getOpt (Some (okEnvelope E)) "code") "error" = false ->
  let req := mkPwRequest (form_currentPassword f) (form_newPassword f) in
  exists result db',
    updatePassword E req uid db = (inr result, db')
    /\ handlePasswordChange (wired translate E uid db) f
       = ([SetIsSubmitting true; ApiPost "/api/settings/updatePassword" req]
          ++ (if success result
              then [Toast (JStr (translate "auth.passwordUpdatedSuccessfully")) Default;
                    SetPasswordForm (mkForm "" "" "")]
              else [Toast (refusalTitle translate result) Destructive])
          ++ [SetIsSubmitting false])%list.
Proof.
  intros Hval Hctx Hnn Hcode. cbv zeta.
  destruct (update_returns E (mkPwRequest (form_currentPassword f) (form_newPassword f))
              uid db Hctx) as (result & db' & Hrun).
  exists result, db'. split; [exact Hrun |].
  unfold handlePasswordChange. rewrite Hval. unfold submit.
  cbn [wired api api_json api_status]. unfold updatePasswordRoute. rewrite Hrun.
  destruct (success result); cbn [negb fst reply_body reply_status].
  - unfold isFailure, api_ok. cbn [api_status]. cbn [Z.leb Z.compare Pos.compare
      Pos.compare_cont andb negb].
    rewrite (get_getOpt _ "code" Hnn), Hcode. reflexivity.
  - unfold isFailure, api_ok. cbn [api_status]. cbn [Z.leb Z.compare Pos.compare
      Pos.compare_cont andb negb].
    rewrite (failureTitle_of_reply translate); reflexivity.
Qed.

Lemma page_shows_service_outcome_witness :
  (validate Sample.mistaken = None
   /\ getContext Sample.server = None
   /\ notNull (okEnvelope Sample.server) = true
   /\ strictEqStr (getOpt (Some (okEnvelope Sample.server)) "code") "error" = false)
  /\ handlePasswordChange (wired Sample.translate Sample.server "u-1" Sample.table)
       Sample.mistaken
     = [SetIsSubmitting true;
        ApiPost "/api/settings/updatePassword" (mkPwRequest "not-my-secret" "new-secret");
        Toast (JStr "Wrong password") Destructive;
        SetIsSubmitting false].
Proof.
  split; [repeat split |].
  destruct (page_shows_service_outcome Sample.translate Sample.server "u-1" Sample.table
              Sample.mistaken eq_refl eq_refl eq_refl eq_refl)
    as (result & db' & Hrun & Hevents).
  injection Hrun as <- _. exact Hevents.
Defined.

End PageFacts.

(* ===================================================================== *)
(** ** The session hook and the navigation bar *)
(* ===================================================================== *)

Module ShellFacts.

Import UseAuth Navigation.

(** The two ways the hook reports a login agree: [isLogin] is true exactly
    when [user] is not [null] (and then [user] is truthy). So the guard of
    the account page, [!isLogin || !user], is [!isLogin], and the button of
    the navigation bar logs out exactly when there is a user. *)
Theorem login_flag_matches_user (session : Session) :
  let auth := useAuth session in
  isLogin auth = truthy (Some (user auth))
  /\ (isLogin auth = false <-> user auth = JNull)
  /\ negb (isLogin auth) || negb (truthy (Some (user auth))) = negb (isLogin auth)
  /\ (sessionButton auth = HandleLogout <-> user auth <> JNull).
Proof.
  cbv zeta. unfold useAuth, useAuthWrap, sessionButton. cbn [user isLogin].
  destruct (getOpt (data session) "user") as [u |].
  2:{ simpl. split; [reflexivity | split; [now split | split; [reflexivity |]]].
      split; [discriminate | intros H; now contradiction H]. }
  destruct (truthy (Some u)) eqn:Hu.
  - assert (Hne : u <> JNull) by (intros ->; discriminate).
    rewrite Hu. split; [reflexivity | split; [| split; [reflexivity |]]].
    + split; [discriminate | intros H; contradiction].
    + split; [now intros _ | reflexivity].
  - simpl. split; [reflexivity | split; [now split | split; [reflexivity |]]].
    split; [discriminate | intros H; now contradiction H].
Qed.

Lemma prefix_nil (s : string) : String.prefix "" s = true.
Proof. now destruct s. Qed.

Lemma prefix_cons (a b : ascii) (s1 s2 : string) :
  String.prefix (String a s1) (String b s2) = true <->
  a = b /\ String.prefix s1 s2 = true.
Proof.
  simpl. destruct (ascii_dec a b) as [-> | Hne].
  - split; [now split | now intros [_ H]].
  - split; [discriminate | intros [H _]; contradiction].
Qed.

Lemma prefix_same (s : string) : String.prefix s s = true.
Proof.
  induction s as [| a s IH]; [reflexivity |]. apply prefix_cons. now split.
Qed.

Lemma prefix_longer (s1 s2 s3 : string) :
  String.prefix s1 s2 = true -> String.prefix s1 (s2 ++ s3) = true.
Proof.
  revert s2. induction s1 as [| a s1 IH]; intros s2 H; [apply prefix_nil |].
  destruct s2 as [| b s2]; [discriminate |].
  apply prefix_cons in H as [-> H]. cbn [append]. apply prefix_cons. split; auto.
Qed.

Lemma prefix_comparable (s1 s2 p : string) :
  String.prefix s1 p = true -> String.prefix s2 p = true ->
  String.prefix s1 s2 = true \/ String.prefix s2 s1 = true.
Proof.
  revert s1 s2. induction p as [| c p IH]; intros s1 s2 H1 H2.
  - destruct s1; [left; apply prefix_nil | discriminate].
  - destruct s1 as [| a s1]; [left; apply prefix_nil |].
    destruct s2 as [| b s2]; [right; apply prefix_nil |].
    apply prefix_cons in H1 as [-> H1]. apply prefix_cons in H2 as [-> H2].
    destruct (IH s1 s2 H1 H2) as [H | H]; [left | right]; apply prefix_cons; now split.
Qed.

(** Two items of the bar are never highlighted together. In general two
    [href]s (other than ["/"]) that are active at the same location are
    nested: one, followed by a slash, begins the other. The two items of
    the bar, [/chat] and [/settings], are not nested, so at every location
    at most one of them is active. *)
Theorem one_active_item :
  (forall pathname h1 h2,
      h1 <> "/" -> h2 <> "/" ->
      isActive pathname h1 = true -> isActive pathname h2 = true ->
      String.prefix (h1 ++ "/") (h2 ++ "/") = true
      \/ String.prefix (h2 ++ "/") (h1 ++ "/") = true)
  /\ (forall pathname,
        (List.length (filter (fun item => isActive pathname (snd item)) navigationItems)
         <= 1)%nat).
Proof.
  assert (Hnested : forall pathname h1 h2,
            h1 <> "/" -> h2 <> "/" ->
            isActive pathname h1 = true -> isActive pathname h2 = true ->
            String.prefix (h1 ++ "/") (h2 ++ "/") = true
            \/ String.prefix (h2 ++ "/") (h1 ++ "/") = true).
  { intros pathname h1 h2 Hr1 Hr2. unfold isActive.
    apply String.eqb_neq in Hr1, Hr2. rewrite Hr1, Hr2.
    intros H1 H2. apply orb_true_iff in H1, H2.
    destruct H1 as [H1 | H1], H2 as [H2 | H2].
    - apply String.eqb_eq in H1, H2. subst. left. apply prefix_same.
    - apply String.eqb_eq in H1. subst. right. now apply prefix_longer.
    - apply String.eqb_eq in H2. subst. left. now apply prefix_longer.
    - apply (prefix_comparable _ _ pathname); assumption. }
  split; [exact Hnested |].
  intros pathname. cbn [navigationItems filter snd].
  destruct (isActive pathname "/chat") eqn:Hchat;
    destruct (isActive pathname "/settings") eqn:Hsettings; cbn [List.length]; try lia.
  exfalso.
  destruct (Hnested pathname "/chat" "/settings") as [H | H];
    try discriminate; assumption.
Qed.

End ShellFacts.

(* ===================================================================== *)
(** ** The two callbacks on entries in the direct format *)
(* ===================================================================== *)

Lemma qwen_content_read (entry : json) :
  (if truthy (getOpt (Some entry) "message")
   then lift (get (getOpt (Some entry) "message") "content")
   else ret undefined) = ret (contentOf entry).
Proof.
  unfold contentOf. destruct (truthy (getOpt (Some entry) "message")) eqn:Hm.
  - now rewrite (get_truthy _ "content" Hm).
  - now rewrite (getOpt_falsy _ "content" Hm).
Qed.

(** On an entry in the direct format Qwen's callback resolves to what
    Doubao's resolves to. *)
Lemma callbacks_agree (W : World) (entry : json) :
  plain entry = true ->
  outcome (QwenAdapter.resolveImage W (Some entry))
  = outcome (DoubaoAdapter.resolveImage W (Some entry)).
Proof.
  unfold plain. intros H. apply andb_true_iff in H as [Hnn Hc].
  apply negb_true_iff in Hc.
  unfold QwenAdapter.resolveImage, DoubaoAdapter.resolveImage.
  rewrite (get_getOpt _ "message" Hnn), bind_lift_inr.
  rewrite qwen_content_read, bind_ret, Hc, andb_false_r, bind_ret.
  rewrite !(get_getOpt _ "b64_json" Hnn), !bind_lift_inr.
  destruct (truthy (getOpt (Some entry) "b64_json")); [reflexivity |].
  rewrite !(get_getOpt _ "url" Hnn), !bind_lift_inr.
  destruct (truthy (getOpt (Some entry) "url")).
  { now rewrite outcome_fetchOrNull, outcome_fetch_guarded. }
  rewrite !(get_getOpt _ "image_url" Hnn), !bind_lift_inr.
  destruct (truthy (getOpt (Some entry) "image_url")).
  { now rewrite outcome_fetchOrNull, outcome_fetch_guarded. }
  rewrite !(get_getOpt _ "base64" Hnn), !bind_lift_inr.
  now destruct (truthy (getOpt (Some entry) "base64")).
Qed.

Lemma promise_all_outcome_ext {A X} (f g : X -> M A) (xs : list X) :
  (forall x, In x xs -> outcome (f x) = outcome (g x)) ->
  outcome (promise_all (map f xs)) = outcome (promise_all (map g xs)).
Proof.
  induction xs as [| x xs IH]; intros H; [reflexivity |].
  cbn [map]. rewrite !(proj2 (promise_all_cons _ _)).
  rewrite (H x (or_introl eq_refl)), IH; [reflexivity |].
  intros y Hy. apply H. now right.
Qed.

(** The two adapters make the same of the same 2xx response, up to their
    [catch] blocks, when the body has one of the shapes they share (not
    [null], not an array, no [output]) and its entries are in the direct
    format: the same images, or the same thrown error. *)
Theorem adapters_agree_on_common_shapes
        (W : World) (response : Response) (generateResult : json) :
  ok response = true ->
  JSON_parse W (text response) = Some generateResult ->
  notNull generateResult = true ->
  isArray (Some generateResult) = false ->
  truthy (getOpt (Some generateResult) "output") = false ->
  (forall entries,
      outcome (entriesBy DoubaoV (Some generateResult)) = inr entries ->
      forallb plain entries = true) ->
  outcome (respondBy QwenV W response) = outcome (respondBy DoubaoV W response).
Proof.
  intros Hok Hparse Hnn Harr Hout Hplain.
  rewrite !(normalize_shape _ _ _ Hok). unfold responseJson. rewrite Hparse, !bind_ret.
  rewrite (entries_common DoubaoV _ Hnn Harr Hout) in Hplain.
  rewrite !(entries_common _ _ Hnn Harr Hout), !bind_ret.
  specialize (Hplain _ eq_refl). rewrite forallb_forall in Hplain.
  rewrite !outcome_bind.
  rewrite (promise_all_outcome_ext
             (fun image => resolveImageBy QwenV W (Some image))
             (fun image => resolveImageBy DoubaoV W (Some image))).
  - reflexivity.
  - intros x Hx. apply callbacks_agree. now apply Hplain.
Qed.

Lemma adapters_agree_on_common_shapes_witness :
  (ok Sample.success = true
   /\ JSON_parse Sample.halfReachable (text Sample.success) = Some Sample.mixed
   /\ notNull Sample.mixed = true
   /\ isArray (Some Sample.mixed) = false
   /\ truthy (getOpt (Some Sample.mixed) "output") = false)
  /\ outcome (respondBy QwenV Sample.halfReachable Sample.success)
     = outcome (respondBy DoubaoV Sample.halfReachable Sample.success).
Proof.
  split; [repeat split |].
  apply (adapters_agree_on_common_shapes Sample.halfReachable Sample.success Sample.mixed);
    try reflexivity.
  intros entries [= <-]. reflexivity.
Defined.

(* ===================================================================== *)
(** ** One helper call per entry *)
(* ===================================================================== *)

Lemma work_app {A} (m : M A) (t1 t2 : list event) :
  trace m = (t1 ++ t2)%list ->
  work m = (List.length (filter imageWork t1) + List.length (filter imageWork t2))%nat.
Proof. unfold work. intros ->. now rewrite filter_app, length_app. Qed.

Lemma work_bind {A B} (m : M A) (k : A -> M B) (n : nat) :
  (forall a, (work (k a) <= n)%nat) -> (work (bind m k) <= work m + n)%nat.
Proof.
  intros Hk. unfold work in *. rewrite trace_bind.
  destruct (outcome m) as [e | a]; [lia |].
  rewrite filter_app, length_app. specialize (Hk a). lia.
Qed.

Lemma work_try_catch {A} (m : M A) (h : JsError -> M A) (n : nat) :
  (forall e, (work (h e) <= n)%nat) -> (work (try_catch m h) <= work m + n)%nat.
Proof.
  intros Hh. unfold work in *. rewrite trace_try_catch.
  destruct (outcome m) as [e | a]; [| lia].
  rewrite filter_app, length_app. specialize (Hh e). lia.
Qed.

Lemma work_silent {A} (m : M A) : trace m = [] -> work m = 0%nat.
Proof. unfold work. now intros ->. Qed.

Lemma work_callBase64 (W : World) (p : value) : work (callBase64 W p) = 1%nat.
Proof. unfold work. now rewrite trace_callBase64. Qed.

Lemma work_callFetchUrl (W : World) (src : value) : work (callFetchUrl W src) = 1%nat.
Proof. unfold work. now rewrite trace_callFetchUrl. Qed.

Lemma work_guarded (W : World) (src : value) (h : JsError -> M slot) :
  (forall e, work (h e) = 0%nat) ->
  (work (try_catch (callFetchUrl W src) h) <= 1)%nat.
Proof.
  intros Hh.
  pose proof (work_try_catch (callFetchUrl W src) h 0) as H.
  rewrite work_callFetchUrl in H. apply H. intros e. now rewrite Hh.
Qed.

Lemma work_fetchOrNull (W : World) (src : value) :
  (work (QwenAdapter.fetchOrNull W src) <= 1)%nat.
Proof. apply work_guarded. intros e. reflexivity. Qed.

(** A step that reads a property, then goes on. *)
Lemma work_after_get {B} (v : value) (key : string) (k : value -> M B) (n : nat) :
  (forall x, (work (k x) <= n)%nat) -> (work (bind (lift (get v key)) k) <= n)%nat.
Proof.
  intros Hk. pose proof (work_bind (lift (get v key)) k n Hk) as H.
  now rewrite (work_silent (lift (get v key)) eq_refl) in H.
Qed.

Lemma work_then_ret {A B} (m : M A) (f : A -> B) :
  work (bind m (fun a => ret (f a))) = work m.
Proof.
  unfold work. rewrite trace_bind.
  destruct (outcome m) as [e | a]; [reflexivity |]. now rewrite app_nil_r.
Qed.

Lemma doubao_resolveImage_work (W : World) (image : value) :
  (work (DoubaoAdapter.resolveImage W image) <= 1)%nat.
Proof.
  unfold DoubaoAdapter.resolveImage.
  apply work_after_get; intros b64_json.
  destruct (truthy b64_json); [now rewrite work_callBase64 |].
  apply work_after_get; intros url.
  destruct (truthy url); [now apply work_guarded |].
  apply work_after_get; intros image_url.
  destruct (truthy image_url); [now apply work_guarded |].
  apply work_after_get; intros base64.
  destruct (truthy base64); [now rewrite work_callBase64 |].
  apply Nat.le_0_l.
Qed.

Lemma qwen_contentLoop_work (W : World) (content : list json) :
  (work (QwenAdapter.contentLoop W content) <= 1)%nat
  /\ (outcome (QwenAdapter.contentLoop W content) = inr None ->
      work (QwenAdapter.contentLoop W content) = 0%nat).
Proof.
  induction content as [| item rest [IH1 IH2]].
  - split; [apply Nat.le_0_l | reflexivity].
  - rewrite contentLoop_cons.
    assert (Hsome : forall (m : M slot),
              (work m <= 1)%nat ->
              (work (r <- m ;; ret (Some r)) <= 1)%nat
              /\ (outcome (r <- m ;; ret (Some r)) = inr None ->
                  work (r <- m ;; ret (Some r)) = 0%nat)).
    { intros m Hm. rewrite work_then_ret. split; [exact Hm |].
      rewrite outcome_bind. destruct (outcome m); discriminate. }
    destruct (get (Some item) "image") as [e | img]; [split; [apply Nat.le_0_l | reflexivity] |].
    rewrite bind_lift_inr.
    destruct (truthy img).
    + destruct (startsWith img "http") as [e | [|]];
        [split; [apply Nat.le_0_l | reflexivity] | |]; rewrite bind_lift_inr.
      * destruct (Hsome _ (work_fetchOrNull W img)) as [H1 H2]. split; auto.
      * assert (Hb : (work (callBase64 W img) <= 1)%nat) by now rewrite work_callBase64.
        destruct (Hsome _ Hb) as [H1 H2]. split; auto.
    + destruct (get (Some item) "image_url") as [e | image_url];
        [split; [apply Nat.le_0_l | reflexivity] |].
      rewrite bind_lift_inr.
      destruct (truthy image_url).
      * destruct (Hsome _ (work_fetchOrNull W image_url)) as [H1 H2]. split; auto.
      * split; [exact IH1 | exact (IH2)].
Qed.

Lemma qwen_resolveImage_work (W : World) (image : value) :
  (work (QwenAdapter.resolveImage W image) <= 1)%nat.
Proof.
  unfold QwenAdapter.resolveImage.
  apply work_after_get; intros message.
  assert (Hdirect : (work
            (b64_json <- lift (get image "b64_json") ;;
             if truthy b64_json then callBase64 W b64_json else
             url <- lift (get image "url") ;;
             if truthy url then QwenAdapter.fetchOrNull W url else
             image_url <- lift (get image "image_url") ;;
             if truthy image_url then QwenAdapter.fetchOrNull W image_url else
             base64 <- lift (get image "base64") ;;
             if truthy base64 then callBase64 W base64 else
             ret Undefined)%js <= 1)%nat).
  { apply work_after_get; intros b64_json.
    destruct (truthy b64_json); [now rewrite work_callBase64 |].
    apply work_after_get; intros url.
    destruct (truthy url); [apply work_fetchOrNull |].
    apply work_after_get; intros image_url.
    destruct (truthy image_url); [apply work_fetchOrNull |].
    apply work_after_get; intros base64.
    destruct (truthy base64); [now rewrite work_callBase64 |].
    apply Nat.le_0_l. }
  destruct (truthy message) eqn:Hm.
  2:{ rewrite bind_ret. cbn [andb]. now rewrite bind_ret. }
  destruct (get message "content") as [e | content]; [apply Nat.le_0_l |].
  rewrite bind_lift_inr. cbn [andb].
  destruct (truthy content); [| now rewrite bind_ret].
  destruct (iterate content) as [e | items]; [apply Nat.le_0_l |].
  rewrite bind_lift_inr.
  destruct (qwen_contentLoop_work W items) as [Hle Hnone].
  unfold work in *. rewrite trace_bind.
  destruct (outcome (QwenAdapter.contentLoop W items)) as [e | [r |]] eqn:Hloop.
  - exact Hle.
  - cbn [trace ret fst]. now rewrite app_nil_r.
  - rewrite filter_app, length_app, (Hnone eq_refl). exact Hdirect.
Qed.

Lemma promise_all_work {X} (f : X -> M slot) (xs : list X) :
  (forall x, (work (f x) <= 1)%nat) ->
  (work (promise_all (map f xs)) <= List.length xs)%nat.
Proof.
  intros Hf. unfold work. rewrite promise_all_trace, map_map.
  induction xs as [| x xs IH]; [apply le_n |].
  cbn [map List.concat List.length]. rewrite filter_app, length_app.
  specialize (Hf x). unfold work in Hf. lia.
Qed.

(** A call answered 2xx calls the image helpers at most once per entry of
    the response: at most one decoding or one fetch each, never both and
    never a retry. *)
Theorem one_helper_call_per_entry
        (v : Vendor) (W : World) (request : GenerateRequest)
        (st : ApiProviderSettings) (response : Response)
        (generateResult : json) (entries : list json) :
  answered W (generateBy v W request st) response ->
  ok response = true ->
  JSON_parse W (text response) = Some generateResult ->
  outcome (entriesBy v (Some generateResult)) = inr entries ->
  (work (generateBy v W request st) <= List.length entries)%nat.
Proof.
  intros Hans Hok Hparse Hentries.
  destruct (answered_ok_run _ _ _ _ _ Hans Hok) as (url & init & Hrun).
  rewrite Hrun. unfold responseJson. rewrite Hparse, bind_ret.
  assert (Hall : (work (promise_all
                          (map (fun image => resolveImageBy v W (Some image)) entries))
                  <= List.length entries)%nat).
  { apply promise_all_work. intros x.
    destruct v; [apply doubao_resolveImage_work | apply qwen_resolveImage_work]. }
  assert (Hsilent : trace (entriesBy v (Some generateResult)) = []).
  { apply (along_entriesBy (fun t => t = []) eq_refl).
    intros t1 t2 -> ->. reflexivity. }
  unfold work in *. rewrite trace_prepend, trace_try_catch, trace_bind, Hentries, Hsilent.
  rewrite trace_bind. cbn [app filter imageWork].
  destruct (outcome (promise_all _)) as [e | results].
  - rewrite outcome_bind, Hentries, outcome_bind.
    destruct (outcome (promise_all _)) as [e' | results'].
    + rewrite filter_app, length_app.
      assert (Hr : trace (rescueBy v e') = []) by apply rescueBy_silent.
      rewrite Hr. cbn. lia.
    + cbn. exact Hall.
  - rewrite outcome_bind, Hentries, outcome_bind.
    destruct (outcome (promise_all _)) as [e' | results'].
    + rewrite !filter_app, !length_app.
      assert (Hr : trace (rescueBy v e') = []) by apply rescueBy_silent.
      rewrite Hr. cbn. lia.
    + cbn. rewrite app_nil_r. exact Hall.
Qed.

Lemma one_helper_call_per_entry_witness :
  (answered Sample.halfReachable
     (generateBy DoubaoV Sample.halfReachable Sample.request []) Sample.success
   /\ ok Sample.success = true
   /\ JSON_parse Sample.halfReachable (text Sample.success) = Some Sample.mixed
   /\ outcome (entriesBy DoubaoV (Some Sample.mixed))
      = inr [JObj [("url", JStr "https://cdn.test/a.png")];
             JObj [("url", JStr "https://cdn.test/gone.png")]])
  /\ (work (generateBy DoubaoV Sample.halfReachable Sample.request []) <= 2)%nat.
Proof.
  assert (Hans : answered Sample.halfReachable
            (generateBy DoubaoV Sample.halfReachable Sample.request []) Sample.success).
  { eexists _, _. split; reflexivity. }
  split; [repeat split; [exact Hans | reflexivity ..] |].
  exact (one_helper_call_per_entry DoubaoV Sample.halfReachable Sample.request []
           Sample.success Sample.mixed _ Hans eq_refl eq_refl eq_refl).
Defined.

(* ===================================================================== *)
(** ** Showing and hiding the passwords *)
(* ===================================================================== *)

(** Toggling the visibility of a password field flips that field and
    leaves the other two alone; toggling twice restores the state, and
    toggles of any two fields can be done in either order. *)
Theorem toggle_visibility (field other : AccountPage.Field)
        (s : AccountPage.ShowPasswords) :
  AccountPage.shown field (AccountPage.togglePasswordVisibility field s)
  = negb (AccountPage.shown field s)
  /\ (other <> field ->
      AccountPage.shown other (AccountPage.togglePasswordVisibility field s)
      = AccountPage.shown other s)
  /\ AccountPage.togglePasswordVisibility field
       (AccountPage.togglePasswordVisibility field s) = s
  /\ AccountPage.togglePasswordVisibility field
       (AccountPage.togglePasswordVisibility other s)
     = AccountPage.togglePasswordVisibility other
         (AccountPage.togglePasswordVisibility field s).
Proof.
  destruct s as [c n k].
  split; [| split; [| split]].
  - now destruct field.
  - intros Hne. destruct field, other; try reflexivity; now contradiction Hne.
  - destruct field; simpl; now rewrite negb_involutive.
  - now destruct field, other.
Qed.
